(** * getResonanceShapes: shape interpolation, re-binning and normalisation

    A shallow embedding of [src/getResonanceShapes.py]: the validating
    constructor [ShapeStorage.__init__], the function [LineShapePDF]
    (mass interpolation, bin integration, normalisation) and the PDF and
    CDF loops of [main].

    Conventions of the embedding.
    - Python [float] and numpy [float64] values are exact rationals ([Q]),
      compared with [==]; rounding is outside the model, except in the
      module [Double], which repeats [LineShapePDF] on IEEE doubles.
    - Python [int] values (masses, bin numbers) are [Z].
    - The [shapes] dict is an association list in insertion order; a dict
      has distinct keys ([dict_wf]).
    - [print] appends a structured [message] to the output, [sys.exit] and
      Python exceptions end the computation ([Py], a writer and error monad).
    - ROOT's [TAxis] and [TH1D] are modelled by the few members the script
      calls; the spline integral [Math.Interpolator.Integ] is a parameter. *)

From Stdlib Require Import List ZArith QArith Qabs Qround Lia Lqa Bool.
From Stdlib Require Import Sorting.Sorted Sorting.Permutation.
From Stdlib Require Ascii String DecimalString DecimalZ SpecFloat.
Import ListNotations.

Local Open Scope Z_scope.

(** ** Rational helpers *)

Definition Qltb (a b : Q) : bool := negb (Qle_bool b a).

(** C's [int(x)] on a double: truncation toward zero. *)
Definition Qtrunc (q : Q) : Z := Z.quot (Qnum q) (Zpos (Qden q)).

Definition half : Q := 1 # 2.

(** ** Output, exceptions and the [Py] monad *)

Inductive message : Type :=
| ErrNeedTwoShapes (provided : nat)
| ErrNotNormalized (key : Z)
| ErrBinCounts
| WarnExtrapolateBelow
| WarnExtrapolateAbove.

Inductive exn : Type :=
| SystemExit (code : Z)
| IndexError
| ValueError
| KeyError
| ZeroDivisionError.

Inductive outcome (A : Type) : Type :=
| Return (a : A)
| Raise (e : exn).
Arguments Return {A} a.
Arguments Raise {A} e.

Record Py (A : Type) : Type := mkPy { stdout : list message; result : outcome A }.
Arguments mkPy {A} stdout result.
Arguments stdout {A} p.
Arguments result {A} p.

Definition ret {A} (a : A) : Py A := mkPy [] (Return a).
Definition raise {A} (e : exn) : Py A := mkPy [] (Raise e).
Definition print (m : message) : Py unit := mkPy [m] (Return tt).

Definition bind {A B} (c : Py A) (k : A -> Py B) : Py B :=
  match result c with
  | Return a => mkPy (stdout c ++ stdout (k a)) (result (k a))
  | Raise e => mkPy (stdout c) (Raise e)
  end.

Notation "x <- c ;; k" := (bind c (fun x => k))
  (at level 61, c at next level, right associativity).
Notation "c ;;; k" := (bind c (fun _ => k))
  (at level 61, right associativity).

(** [for v in l: body], threading the loop state. *)
Fixpoint for_each {A S} (l : list A) (body : A -> S -> Py S) (s : S) : Py S :=
  match l with
  | [] => ret s
  | a :: l' => s' <- body a s ;; for_each l' body s'
  end.

(** ** Python built-ins *)

(** [range(a, b)]. *)
Definition range (a b : Z) : list Z :=
  map (fun k => a + Z.of_nat k) (seq 0 (Z.to_nat (b - a))).

(** [sum(l)]: left to right from 0. *)
Definition py_sum (l : list Q) : Q := fold_left Qplus l 0%Q.

(** [l[i]], negative [i] counted from the end. *)
Definition py_index {A} (l : list A) (i : Z) : Py A :=
  let n := Z.of_nat (length l) in
  let j := if i <? 0 then i + n else i in
  if (j <? 0) || (n <=? j) then raise IndexError
  else match nth_error l (Z.to_nat j) with
       | Some a => ret a
       | None => raise IndexError
       end.

(** [max(l)] and [min(l)] on a list of ints; [ValueError] when empty. *)
Definition py_max (l : list Z) : Py Z :=
  match l with
  | [] => raise ValueError
  | a :: l' => ret (fold_left Z.max l' a)
  end.

Definition py_min (l : list Z) : Py Z :=
  match l with
  | [] => raise ValueError
  | a :: l' => ret (fold_left Z.min l' a)
  end.

(** [a / b] on floats. *)
Definition py_div (a b : Q) : Py Q :=
  if Qeq_bool b 0 then raise ZeroDivisionError else ret (a / b)%Q.

(** [sorted(l)] on ints. *)
Fixpoint insert_sorted (a : Z) (l : list Z) : list Z :=
  match l with
  | [] => [a]
  | b :: l' => if a <=? b then a :: l else b :: insert_sorted a l'
  end.

Definition sorted (l : list Z) : list Z := fold_right insert_sorted [] l.

(** [len(set(l))]. *)
Definition len_set (l : list nat) : nat := length (nodup Nat.eq_dec l).

(** ** Dictionaries with integer keys *)

Section Dict.
Context {V : Type}.

Definition dict := list (Z * V).

Definition keys (d : dict) : list Z := map fst d.

Definition dict_wf (d : dict) : Prop := NoDup (keys d).

Fixpoint dict_find (d : dict) (k : Z) : option V :=
  match d with
  | [] => None
  | (k', v) :: d' => if k =? k' then Some v else dict_find d' k
  end.

(** [k in d]. *)
Definition dict_mem (d : dict) (k : Z) : bool :=
  match dict_find d k with Some _ => true | None => false end.

(** [d[k]]. *)
Definition dict_get (d : dict) (k : Z) : Py V :=
  match dict_find d k with
  | Some v => ret v
  | None => raise KeyError
  end.
End Dict.
Arguments dict V : clear implicits.

(** ** numpy arrays of rank one *)

Definition ndarray := list Q.

Definition np_array (l : list Q) : ndarray := l.

(** Element-wise binary operation with numpy's broadcasting of a
    one-element operand; shapes that do not agree raise [ValueError]. *)
Definition np_binop (f : Q -> Q -> Q) (a b : ndarray) : Py ndarray :=
  if (length a =? length b)%nat then ret (map (fun p => f (fst p) (snd p)) (combine a b))
  else match a, b with
       | [a0], _ => ret (map (fun v => f a0 v) b)
       | _, [b0] => ret (map (fun u => f u b0) a)
       | _, _ => raise ValueError
       end.

Definition np_sub := np_binop Qminus.
Definition np_add := np_binop Qplus.
Definition np_div_scalar (a : ndarray) (c : Q) : ndarray := map (fun u => u / c)%Q a.
Definition np_mul_scalar (a : ndarray) (c : Q) : ndarray := map (fun u => u * c)%Q a.

(** ** [class ShapeStorage] *)

Record ShapeStorage : Type := mkShapeStorage {
  shapes : dict (list Q);
  binxcenters : list Q
}.

(** The body of the [for key in self.shapes.keys()] loop of [__init__];
    the loop state is the list [nbins]. *)
Definition init_check_key (shp : dict (list Q)) (key : Z) (nbins : list nat)
  : Py (list nat) :=
  v <- dict_get shp key ;;
  let norm := py_sum v in
  (if Qltb (1 # 100) (Qabs (norm - 1)) then
     print (ErrNotNormalized key) ;;; raise (SystemExit 3)
   else ret tt) ;;;
  v' <- dict_get shp key ;;
  ret (nbins ++ [length v']).

Definition ShapeStorage_init (shp : dict (list Q)) (centers : list Q)
  : Py ShapeStorage :=
  let self := mkShapeStorage shp centers in
  (if (length (shapes self) <? 2)%nat then
     print (ErrNeedTwoShapes (length (shapes self))) ;;; raise (SystemExit 1)
   else ret tt) ;;;
  nbins <- for_each (keys (shapes self)) (init_check_key (shapes self))
             [length (binxcenters self)] ;;
  (if (1 <? len_set nbins)%nat then
     print ErrBinCounts ;;; raise (SystemExit 2)
   else ret tt) ;;;
  ret self.

(** ** ROOT: [TAxis] *)

(** [fXbins] is empty for an axis of fixed bin width. *)
Record TAxis : Type := mkTAxis {
  fNbins : Z;
  fXmin : Q;
  fXmax : Q;
  fXbins : list Q
}.

Definition TAxis_fix (nbins : Z) (xlow xup : Q) : TAxis :=
  mkTAxis nbins xlow xup [].

Definition TAxis_var (nbins : Z) (xbins : list Q) : TAxis :=
  let e := firstn (Z.to_nat (nbins + 1)) xbins in
  mkTAxis nbins (nth 0 e 0%Q) (nth (Z.to_nat nbins) e 0%Q) e.

Definition fArr (a : TAxis) (i : Z) : Q := nth (Z.to_nat i) (fXbins a) 0%Q.

Definition is_fix (a : TAxis) : bool :=
  match fXbins a with [] => true | _ => false end.

Definition fix_binwidth (a : TAxis) : Q :=
  ((fXmax a - fXmin a) / inject_Z (fNbins a))%Q.

Definition Axis_GetBinLowEdge (a : TAxis) (bin : Z) : Q :=
  if negb (is_fix a) && (0 <? bin) && (bin <=? fNbins a) then fArr a (bin - 1)
  else (fXmin a + inject_Z (bin - 1) * fix_binwidth a)%Q.

Definition Axis_GetBinUpEdge (a : TAxis) (bin : Z) : Q :=
  if is_fix a || (bin <? 1) || (fNbins a <? bin) then
    (fXmin a + inject_Z bin * fix_binwidth a)%Q
  else fArr a bin.

Definition Axis_GetBinCenter (a : TAxis) (bin : Z) : Q :=
  if is_fix a || (bin <? 1) || (fNbins a <? bin) then
    let binwidth := fix_binwidth a in
    (fXmin a + inject_Z (bin - 1) * binwidth + half * binwidth)%Q
  else
    let binwidth := (fArr a bin - fArr a (bin - 1))%Q in
    (fArr a (bin - 1) + half * binwidth)%Q.

(** [TMath::BinarySearch] on an increasing array: the position of the last
    element not above [x], -1 when there is none. *)
Definition BinarySearch (arr : list Q) (x : Q) : Z :=
  Z.of_nat (length (filter (fun e => Qle_bool e x) arr)) - 1.

(** [TAxis::FindBin] on an axis that cannot be extended: 0 is the
    underflow bin, [fNbins + 1] the overflow bin. *)
Definition Axis_FindBin (a : TAxis) (x : Q) : Z :=
  if Qltb x (fXmin a) then 0
  else if negb (Qltb x (fXmax a)) then fNbins a + 1
  else if is_fix a then
    1 + Qtrunc (inject_Z (fNbins a) * (x - fXmin a) / (fXmax a - fXmin a))
  else 1 + BinarySearch (fXbins a) x.

(** ** ROOT: [TH1D] *)

(** [fArray] holds the underflow cell, the [fNbins] bins and the overflow
    cell. *)
Record TH1D : Type := mkTH1D {
  fXaxis : TAxis;
  fArray : list Q
}.

Definition new_TH1D (a : TAxis) : TH1D :=
  mkTH1D a (repeat 0%Q (Z.to_nat (fNbins a + 2))).

(** [TH1D(name, title, nbinsx, xlow, xup)]. *)
Definition TH1D_fix (nbins : Z) (xlow xup : Q) : TH1D :=
  new_TH1D (TAxis_fix nbins xlow xup).

(** [TH1D(name, title, nbinsx, xbins)]. *)
Definition TH1D_var (nbins : Z) (xbins : list Q) : TH1D :=
  new_TH1D (TAxis_var nbins xbins).

Definition fNcells (h : TH1D) : Z := Z.of_nat (length (fArray h)).

Definition GetNbinsX (h : TH1D) : Z := fNbins (fXaxis h).
Definition GetBinCenter (h : TH1D) (bin : Z) : Q := Axis_GetBinCenter (fXaxis h) bin.
Definition GetBinLowEdge (h : TH1D) (bin : Z) : Q := Axis_GetBinLowEdge (fXaxis h) bin.
Definition GetBinUpEdge (h : TH1D) (bin : Z) : Q := Axis_GetBinUpEdge (fXaxis h) bin.
Definition FindBin (h : TH1D) (x : Q) : Z := Axis_FindBin (fXaxis h) x.

Fixpoint list_set {A} (l : list A) (n : nat) (v : A) : list A :=
  match l, n with
  | [], _ => []
  | _ :: l', O => v :: l'
  | a :: l', S n' => a :: list_set l' n' v
  end.

(** [TH1::GetBinContent]: a bin number out of range reads the underflow or
    the overflow cell. *)
Definition GetBinContent (h : TH1D) (bin : Z) : Q :=
  let bin := if bin <? 0 then 0 else bin in
  let bin := if fNcells h <=? bin then fNcells h - 1 else bin in
  nth (Z.to_nat bin) (fArray h) 0%Q.

(** [TH1::SetBinContent]: a bin number out of range is ignored. *)
Definition SetBinContent (h : TH1D) (bin : Z) (content : Q) : TH1D :=
  if (bin <? 0) || (fNcells h <=? bin) then h
  else mkTH1D (fXaxis h) (list_set (fArray h) (Z.to_nat bin) content).

(** [TH1::Integral()]: the sum of bins 1 to [fNbins], without the
    underflow and overflow cells. *)
Definition Integral (h : TH1D) : Q :=
  fold_left Qplus (map (GetBinContent h) (range 1 (GetNbinsX h + 1))) 0%Q.

(** [TH1::Scale(c1)]: every cell is multiplied by [c1]. *)
Definition Scale (h : TH1D) (c1 : Q) : TH1D :=
  mkTH1D (fXaxis h) (map (fun v => c1 * v)%Q (fArray h)).

(** ** [LineShapePDF] *)

(** Lines 80 to 98: the curve [y] on the grid [x], either the stored shape
    of [mass] or the linear blend of the shapes of [ml] and [mh]. *)
Definition bracket (shp : ShapeStorage) (mass : Z) : Py (Z * Z) :=
  let input_masses := sorted (keys (shapes shp)) in
  min_mass <- py_index input_masses 0 ;;
  max_mass <- py_index input_masses (-1) ;;
  if mass <? min_mass then
    print WarnExtrapolateBelow ;;;
    ml <- py_index input_masses 0 ;;
    mh <- py_index input_masses 1 ;;
    ret (ml, mh)
  else if max_mass <? mass then
    print WarnExtrapolateAbove ;;;
    ml <- py_index input_masses (-2) ;;
    mh <- py_index input_masses (-1) ;;
    ret (ml, mh)
  else
    ml <- py_max (filter (fun m => m <? mass) input_masses) ;;
    mh <- py_min (filter (fun m => mass <? m) input_masses) ;;
    ret (ml, mh).

Definition blend (yl yh : ndarray) (ml mh mass : Z) : Py ndarray :=
  d <- np_sub yh yl ;;
  np_add (np_mul_scalar (np_div_scalar d (inject_Z (mh - ml))) (inject_Z (mass - ml))) yl.

Definition interpolate (shp : ShapeStorage) (mass : Z) : Py ndarray :=
  if dict_mem (shapes shp) mass then
    v <- dict_get (shapes shp) mass ;;
    ret (np_array v)
  else
    b <- bracket shp mass ;;
    let ml := fst b in
    let mh := snd b in
    vl <- dict_get (shapes shp) ml ;;
    let yl := np_array vl in
    vh <- dict_get (shapes shp) mh ;;
    let yh := np_array vh in
    blend yl yh ml mh mass.

(** Lines 104 to 109: the window of bin [i] in ratio space, clamped to the
    grid; [None] when the bin centre is not inside the grid (the [else] of
    line 112). *)
Definition bin_window (shp : ShapeStorage) (mass : Z) (histo : TH1D) (i : Z)
  : Py (option (Q * Q)) :=
  let x := binxcenters shp in
  xcenter <- py_div (GetBinCenter histo i) (inject_Z mass) ;;
  x_first <- py_index x 0 ;;
  inside <- (if Qltb x_first xcenter then
               x_last <- py_index x (-1) ;; ret (Qltb xcenter x_last)
             else ret false) ;;
  if inside : bool then
    xlow <- py_div (GetBinLowEdge histo i) (inject_Z mass) ;;
    x_first <- py_index x 0 ;;
    xlow <- (if Qltb xlow x_first then py_index x 0 else ret xlow) ;;
    xhigh <- py_div (GetBinUpEdge histo i) (inject_Z mass) ;;
    x_last <- py_index x (-1) ;;
    xhigh <- (if Qltb x_last xhigh then py_index x (-1) else ret xhigh) ;;
    ret (Some (xlow, xhigh))
  else ret None.

(** [integral if integral >= 0. else 0.] *)
Definition floor0 (integral : Q) : Q :=
  if Qle_bool 0 integral then integral else 0%Q.

(** Lines 114 to 116. *)
Definition normalize (histo : TH1D) : Py TH1D :=
  let integral := Integral histo in
  if Qltb 0 integral then ret (Scale histo (1 / integral)) else ret histo.

Section Spline.
(** [Math.Interpolator]: [Integ xs ys a b] is the integral from [a] to
    [b] of the curve set by [SetData] through the points [(xs, ys)]. *)
Variable Integ : list Q -> list Q -> Q -> Q -> Q.

(** The body of the loop of line 103. *)
Definition fill_bin (shp : ShapeStorage) (y : ndarray) (mass : Z) (i : Z)
    (histo : TH1D) : Py TH1D :=
  w <- bin_window shp mass histo i ;;
  match w with
  | Some (xlow, xhigh) =>
      let integral := Integ (binxcenters shp) y xlow xhigh in
      ret (SetBinContent histo i (floor0 integral))
  | None => ret (SetBinContent histo i 0)
  end.

(** Lines 103 to 113. *)
Definition fill_bins (shp : ShapeStorage) (y : ndarray) (mass : Z)
    (histo : TH1D) : Py TH1D :=
  for_each (range 1 (GetNbinsX histo + 1)) (fill_bin shp y mass) histo.

Definition LineShapePDF (shp : ShapeStorage) (mass : Z) (histo : TH1D)
  : Py TH1D :=
  y <- interpolate shp mass ;;
  histo <- fill_bins shp y mass histo ;;
  normalize histo.
End Spline.

(** ** The PDF and CDF loops of [main] *)

(** The fine-grid window of lines 251 to 252 and 260 to 261: the bins of
    [h_pdf] holding the low edge of bin [i] of [h] plus one half and its
    upper edge minus one half. *)
Definition fine_min (h_pdf h : TH1D) (i : Z) : Z :=
  FindBin h_pdf (GetBinLowEdge h i + half)%Q.

Definition fine_max (h_pdf h : TH1D) (i : Z) : Z :=
  FindBin h_pdf (GetBinUpEdge h i - half)%Q.

Definition pdf_width (h_pdf h : TH1D) (i : Z) : Z :=
  Z.max 1 (fine_max h_pdf h i - fine_min h_pdf h i + 1).

Definition pdf_val (h_pdf h_shape : TH1D) (i : Z) : Q :=
  (GetBinContent h_shape i / inject_Z (pdf_width h_pdf h_shape i))%Q.

(** The body of the loop of line 250. *)
Definition pdf_bin (h_shape : TH1D) (i : Z) (h_pdf : TH1D) : TH1D :=
  let bin_min := fine_min h_pdf h_shape i in
  let bin_max := fine_max h_pdf h_shape i in
  let val := pdf_val h_pdf h_shape i in
  fold_left (fun h b => SetBinContent h b val) (range bin_min (bin_max + 1)) h_pdf.

(** Lines 250 to 256. *)
Definition fill_pdf (h_shape h_pdf : TH1D) : TH1D :=
  fold_left (fun h i => pdf_bin h_shape i h) (range 1 (GetNbinsX h_shape + 1)) h_pdf.

(** The body of the loop of line 259. *)
Definition cdf_bin (h_pdf : TH1D) (i : Z) (h_cdf : TH1D) : TH1D :=
  let bin_min := fine_min h_pdf h_cdf i in
  let bin_max := fine_max h_pdf h_cdf i in
  let curr := fold_left (fun c b => c + GetBinContent h_pdf b)%Q
                (range bin_min (bin_max + 1)) 0%Q in
  let prev := GetBinContent h_cdf (i - 1) in
  SetBinContent h_cdf i (prev + curr)%Q.

(** Lines 259 to 266. *)
Definition fill_cdf (h_pdf h_cdf : TH1D) : TH1D :=
  fold_left (fun h i => cdf_bin h_pdf i h) (range 1 (GetNbinsX h_cdf + 1)) h_cdf.

(** The standard dijet mass binning of [main]. *)
Definition binBoundaries : list Z :=
  [1; 3; 6; 10; 16; 23; 31; 40; 50; 61; 74; 88; 103; 119; 137; 156; 176; 197; 220; 244; 270; 296; 325;
   354; 386; 419; 453; 489; 526; 565; 606; 649; 693; 740; 788; 838; 890; 944; 1000; 1058; 1118; 1181; 1246; 1313; 1383; 1455; 1530; 1607; 1687;
   1770; 1856; 1945; 2037; 2132; 2231; 2332; 2438; 2546; 2659; 2775; 2895; 3019; 3147; 3279; 3416; 3558; 3704; 3854; 4010; 4171; 4337; 4509;
   4686; 4869; 5058; 5253; 5455; 5663; 5877; 6099; 6328; 6564; 6808; 7060; 7320; 7589; 7866; 8152; 8447; 8752; 9067; 9391; 9726; 10072; 10430;
   10798; 11179; 11571; 11977; 12395; 12827; 13272; 13732; 14000].

(** The histogram [h_shape] of line 234 or 236. *)
Definition new_h_shape (fineBinning : bool) : TH1D :=
  if fineBinning then TH1D_fix 14000 0 14000
  else TH1D_var (Z.of_nat (length binBoundaries) - 1) (map inject_Z binBoundaries).

(** The fine unit grid of lines 246 and 247, [nfine] bins of width one
    from 0; [main] has [nfine = 14000]. *)
Definition unit_grid (nfine : Z) : TH1D := TH1D_fix nfine 0 (inject_Z nfine).

(** Lines 232 to 266 for one mass, with [--storePDF] or [--storeCDF]. *)
Definition shape_pdf_cdf (Integ : list Q -> list Q -> Q -> Q -> Q)
    (storage : ShapeStorage) (mass : Z) (fineBinning : bool)
  : Py (TH1D * TH1D * TH1D) :=
  h_shape <- LineShapePDF Integ storage mass (new_h_shape fineBinning) ;;
  let h_pdf := fill_pdf h_shape (unit_grid 14000) in
  let h_cdf := fill_cdf h_pdf (unit_grid 14000) in
  ret (h_shape, h_pdf, h_cdf).

(** ** The mass list of [main] *)

(** [range(a, b, step)]; a step of 0 raises [ValueError]. *)
Definition range_step (a b step : Z) : Py (list Z) :=
  if step =? 0 then raise ValueError
  else
    let n := if 0 <? step then (b - a + step - 1) / step
             else (a - b - step - 1) / (- step) in
    ret (map (fun k => a + step * Z.of_nat k) (seq 0 (Z.to_nat n))).

(** Lines 204 to 208: the masses from the lowest to the highest known
    mass in steps of [--step], the highest always included. *)
Definition mass_list (storage : ShapeStorage) (step : Z) : Py (list Z) :=
  let mass_keys := sorted (keys (shapes storage)) in
  min_mass <- py_index mass_keys 0 ;;
  max_mass <- py_index mass_keys (-1) ;;
  masses <- range_step min_mass (max_mass + 1) step ;;
  last_mass <- py_index masses (-1) ;;
  if negb (last_mass =? max_mass) then ret (masses ++ [max_mass])
  else ret masses.

(** ** Group names and histogram names *)

(** Python [str] values are strings of code points below 256. *)
Module Names.
Import Ascii String.
Local Open Scope string_scope.

(** [str.isspace] on one character. *)
Definition is_space (c : ascii) : bool :=
  let n := nat_of_ascii c in
  ((9 <=? n) && (n <=? 13) || (28 <=? n) && (n <=? 32) || (n =? 133) || (n =? 160))%nat.

(** [str.lower] on one character. *)
Definition lower_char (c : ascii) : ascii :=
  let n := nat_of_ascii c in
  if ((65 <=? n) && (n <=? 90) || (192 <=? n) && (n <=? 222) && negb (n =? 215))%nat
  then ascii_of_nat (n + 32) else c.

Fixpoint lower (s : string) : string :=
  match s with
  | "" => ""
  | String c s' => String (lower_char c) (lower s')
  end.

Fixpoint lstrip (s : string) : string :=
  match s with
  | "" => ""
  | String c s' => if is_space c then lstrip s' else s
  end.

Fixpoint rstrip (s : string) : string :=
  match s with
  | "" => ""
  | String c s' =>
      match rstrip s' with
      | "" => if is_space c then "" else String c ""
      | r => String c r
      end
  end.

(** [s.strip()]. *)
Definition strip (s : string) : string := rstrip (lstrip s).

(** [s.startswith(p)]. *)
Definition startswith (s p : string) : bool := prefix p s.

(** [s.endswith(c)] for a one-character [c]. *)
Fixpoint endswith_char (s : string) (c : ascii) : bool :=
  match s with
  | "" => false
  | String a "" => Ascii.eqb a c
  | String _ s' => endswith_char s' c
  end.

(** [c in s] for a one-character [c]. *)
Fixpoint contains_char (s : string) (c : ascii) : bool :=
  match s with
  | "" => false
  | String a s' => Ascii.eqb a c || contains_char s' c
  end.

(** [s[:-1]]. *)
Fixpoint drop_last (s : string) : string :=
  match s with
  | "" => ""
  | String _ "" => ""
  | String a s' => String a (drop_last s')
  end.

(** Lines 11 to 19. *)
Definition infer_type_from_group (group_name : string) : string :=
  let g := lower (strip group_name) in
  if startswith g "rsgtoqq" then "qq"
  else if startswith g "rsgtogg" then "gg"
  else if startswith g "qstar" then "qg"
  else "qq".

(** Lines 26 to 31: the group name that one line of the list file
    carries, if any. *)
Definition group_header (raw : string) : option string :=
  let line := strip raw in
  if (line =? "") || startswith line "#" then None
  else if endswith_char line ":" && negb (contains_char line "/") then
    let name := strip (drop_last line) in
    if name =? "" then None else Some name
  else None.

(** The body of the loop of line 25; the state is [names] and [seen]. *)
Definition parse_line (raw : string) (st : list string * list string)
  : list string * list string :=
  match group_header raw with
  | Some name =>
      if existsb (String.eqb name) (snd st) then st
      else (fst st ++ [name], name :: snd st)%list
  | None => st
  end.

(** Lines 22 to 34 on the lines of the file. *)
Definition parse_group_names (lines : list string) : list string :=
  fst (fold_left (fun st raw => parse_line raw st) lines ([], [])).

(** [str(mass)] for an int. *)
Definition str_of_int (mass : Z) : string :=
  DecimalString.NilZero.string_of_int (Z.to_int mass).

(** Line 232: the name of the shape histogram. *)
Definition histname (model : string) (mass : Z) : string :=
  "h_" ++ model ++ "_" ++ str_of_int mass.
(** Strings made of whitespace only, and strings without whitespace. *)
Fixpoint all_space (s : string) : bool :=
  match s with
  | "" => true
  | String c s' => is_space c && all_space s'
  end.

Fixpoint no_space (s : string) : bool :=
  match s with
  | "" => true
  | String c s' => negb (is_space c) && no_space s'
  end.
End Names.

(** ** Lines 78 to 116 on IEEE doubles *)

(** The definitions above read Python's [float] and ROOT's [Double_t] as
    exact rationals.  This module repeats [LineShapePDF] and the members of
    [TAxis] and [TH1D] it calls with every number an IEEE 754 binary64
    value and every operation rounded to nearest, ties to even, so that the
    rounding of the program can be observed on concrete inputs.  The
    control flow, the output and the exceptions are those of the
    definitions above. *)
Module Double.

Definition double : Type := SpecFloat.spec_float.
Definition prec : Z := 53.
Definition emax : Z := 1024.

Definition add : double -> double -> double := SpecFloat.SFadd prec emax.
Definition sub : double -> double -> double := SpecFloat.SFsub prec emax.
Definition mul : double -> double -> double := SpecFloat.SFmul prec emax.
Definition div : double -> double -> double := SpecFloat.SFdiv prec emax.
Definition ltb : double -> double -> bool := SpecFloat.SFltb.
Definition leb : double -> double -> bool := SpecFloat.SFleb.
Definition eqb : double -> double -> bool := SpecFloat.SFeqb.

(** [float(n)] on an int: the nearest double. *)
Definition of_Z (n : Z) : double :=
  SpecFloat.binary_normalize prec emax n 0 false.

(** The decimal literal of value [n / d]: the nearest double. *)
Definition lit (n d : Z) : double := div (of_Z n) (of_Z d).

Definition zero : double := of_Z 0.
Definition one : double := of_Z 1.
Definition half : double := lit 1 2.


(** [a / b] on floats. *)
Definition py_div (a b : double) : Py double :=
  if eqb b zero then raise ZeroDivisionError else ret (div a b).

Definition ndarray := list double.

Definition np_array (l : list double) : ndarray := l.

Definition np_binop (f : double -> double -> double) (a b : ndarray)
  : Py ndarray :=
  if (length a =? length b)%nat then ret (map (fun p => f (fst p) (snd p)) (combine a b))
  else match a, b with
       | [a0], _ => ret (map (fun v => f a0 v) b)
       | _, [b0] => ret (map (fun u => f u b0) a)
       | _, _ => raise ValueError
       end.

Definition np_sub := np_binop sub.
Definition np_add := np_binop add.
Definition np_div_scalar (a : ndarray) (c : double) : ndarray := map (fun u => div u c) a.
Definition np_mul_scalar (a : ndarray) (c : double) : ndarray := map (fun u => mul u c) a.

Record ShapeStorage : Type := mkShapeStorage {
  shapes : dict (list double);
  binxcenters : list double
}.

Record TAxis : Type := mkTAxis {
  fNbins : Z;
  fXmin : double;
  fXmax : double;
  fXbins : list double
}.

Definition TAxis_fix (nbins : Z) (xlow xup : double) : TAxis :=
  mkTAxis nbins xlow xup [].

Definition TAxis_var (nbins : Z) (xbins : list double) : TAxis :=
  let e := firstn (Z.to_nat (nbins + 1)) xbins in
  mkTAxis nbins (nth 0 e zero) (nth (Z.to_nat nbins) e zero) e.

Definition fArr (a : TAxis) (i : Z) : double := nth (Z.to_nat i) (fXbins a) zero.

Definition is_fix (a : TAxis) : bool :=
  match fXbins a with [] => true | _ => false end.

Definition fix_binwidth (a : TAxis) : double :=
  div (sub (fXmax a) (fXmin a)) (of_Z (fNbins a)).

Definition Axis_GetBinLowEdge (a : TAxis) (bin : Z) : double :=
  if negb (is_fix a) && (0 <? bin) && (bin <=? fNbins a) then fArr a (bin - 1)
  else add (fXmin a) (mul (of_Z (bin - 1)) (fix_binwidth a)).

Definition Axis_GetBinUpEdge (a : TAxis) (bin : Z) : double :=
  if is_fix a || (bin <? 1) || (fNbins a <? bin) then
    add (fXmin a) (mul (of_Z bin) (fix_binwidth a))
  else fArr a bin.

Definition Axis_GetBinCenter (a : TAxis) (bin : Z) : double :=
  if is_fix a || (bin <? 1) || (fNbins a <? bin) then
    let binwidth := fix_binwidth a in
    add (add (fXmin a) (mul (of_Z (bin - 1)) binwidth)) (mul half binwidth)
  else
    let binwidth := sub (fArr a bin) (fArr a (bin - 1)) in
    add (fArr a (bin - 1)) (mul half binwidth).

Record TH1D : Type := mkTH1D {
  fXaxis : TAxis;
  fArray : list double
}.

Definition new_TH1D (a : TAxis) : TH1D :=
  mkTH1D a (repeat zero (Z.to_nat (fNbins a + 2))).

Definition TH1D_fix (nbins : Z) (xlow xup : double) : TH1D :=
  new_TH1D (TAxis_fix nbins xlow xup).

Definition TH1D_var (nbins : Z) (xbins : list double) : TH1D :=
  new_TH1D (TAxis_var nbins xbins).

Definition fNcells (h : TH1D) : Z := Z.of_nat (length (fArray h)).

Definition GetNbinsX (h : TH1D) : Z := fNbins (fXaxis h).
Definition GetBinCenter (h : TH1D) (bin : Z) : double := Axis_GetBinCenter (fXaxis h) bin.
Definition GetBinLowEdge (h : TH1D) (bin : Z) : double := Axis_GetBinLowEdge (fXaxis h) bin.
Definition GetBinUpEdge (h : TH1D) (bin : Z) : double := Axis_GetBinUpEdge (fXaxis h) bin.

Definition GetBinContent (h : TH1D) (bin : Z) : double :=
  let bin := if bin <? 0 then 0 else bin in
  let bin := if fNcells h <=? bin then fNcells h - 1 else bin in
  nth (Z.to_nat bin) (fArray h) zero.

Definition SetBinContent (h : TH1D) (bin : Z) (content : double) : TH1D :=
  if (bin <? 0) || (fNcells h <=? bin) then h
  else mkTH1D (fXaxis h) (list_set (fArray h) (Z.to_nat bin) content).

(** [TH1::Integral()]: bins 1 to [fNbins] added one by one to a double that
    starts at 0. *)
Definition Integral (h : TH1D) : double :=
  fold_left add (map (GetBinContent h) (range 1 (GetNbinsX h + 1))) zero.

(** [TH1::Scale(c1)]: every cell becomes the rounded product with [c1]. *)
Definition Scale (h : TH1D) (c1 : double) : TH1D :=
  mkTH1D (fXaxis h) (map (fun v => mul c1 v) (fArray h)).

(** Lines 83 to 94. *)
Definition bracket (shp : ShapeStorage) (mass : Z) : Py (Z * Z) :=
  let input_masses := sorted (keys (shapes shp)) in
  min_mass <- py_index input_masses 0 ;;
  max_mass <- py_index input_masses (-1) ;;
  if mass <? min_mass then
    print WarnExtrapolateBelow ;;;
    ml <- py_index input_masses 0 ;;
    mh <- py_index input_masses 1 ;;
    ret (ml, mh)
  else if max_mass <? mass then
    print WarnExtrapolateAbove ;;;
    ml <- py_index input_masses (-2) ;;
    mh <- py_index input_masses (-1) ;;
    ret (ml, mh)
  else
    ml <- py_max (filter (fun m => m <? mass) input_masses) ;;
    mh <- py_min (filter (fun m => mass <? m) input_masses) ;;
    ret (ml, mh).

(** Line 98. *)
Definition blend (yl yh : ndarray) (ml mh mass : Z) : Py ndarray :=
  d <- np_sub yh yl ;;
  np_add (np_mul_scalar (np_div_scalar d (of_Z (mh - ml))) (of_Z (mass - ml))) yl.

(** Lines 80 to 98. *)
Definition interpolate (shp : ShapeStorage) (mass : Z) : Py ndarray :=
  if dict_mem (shapes shp) mass then
    v <- dict_get (shapes shp) mass ;;
    ret (np_array v)
  else
    b <- bracket shp mass ;;
    let ml := fst b in
    let mh := snd b in
    vl <- dict_get (shapes shp) ml ;;
    let yl := np_array vl in
    vh <- dict_get (shapes shp) mh ;;
    let yh := np_array vh in
    blend yl yh ml mh mass.

(** Lines 104 to 109. *)
Definition bin_window (shp : ShapeStorage) (mass : Z) (histo : TH1D) (i : Z)
  : Py (option (double * double)) :=
  let x := binxcenters shp in
  xcenter <- py_div (GetBinCenter histo i) (of_Z mass) ;;
  x_first <- py_index x 0 ;;
  inside <- (if ltb x_first xcenter then
               x_last <- py_index x (-1) ;; ret (ltb xcenter x_last)
             else ret false) ;;
  if inside : bool then
    xlow <- py_div (GetBinLowEdge histo i) (of_Z mass) ;;
    x_first <- py_index x 0 ;;
    xlow <- (if ltb xlow x_first then py_index x 0 else ret xlow) ;;
    xhigh <- py_div (GetBinUpEdge histo i) (of_Z mass) ;;
    x_last <- py_index x (-1) ;;
    xhigh <- (if ltb x_last xhigh then py_index x (-1) else ret xhigh) ;;
    ret (Some (xlow, xhigh))
  else ret None.

(** [integral if integral >= 0. else 0.] *)
Definition floor0 (integral : double) : double :=
  if leb zero integral then integral else zero.

(** Lines 114 to 116. *)
Definition normalize (histo : TH1D) : Py TH1D :=
  let integral := Integral histo in
  if ltb zero integral then ret (Scale histo (div one integral)) else ret histo.

Section Spline.
Variable Integ : list double -> list double -> double -> double -> double.

Definition fill_bin (shp : ShapeStorage) (y : ndarray) (mass : Z) (i : Z)
    (histo : TH1D) : Py TH1D :=
  w <- bin_window shp mass histo i ;;
  match w with
  | Some (xlow, xhigh) =>
      let integral := Integ (binxcenters shp) y xlow xhigh in
      ret (SetBinContent histo i (floor0 integral))
  | None => ret (SetBinContent histo i zero)
  end.

Definition fill_bins (shp : ShapeStorage) (y : ndarray) (mass : Z)
    (histo : TH1D) : Py TH1D :=
  for_each (range 1 (GetNbinsX histo + 1)) (fill_bin shp y mass) histo.

Definition LineShapePDF (shp : ShapeStorage) (mass : Z) (histo : TH1D)
  : Py TH1D :=
  y <- interpolate shp mass ;;
  histo <- fill_bins shp y mass histo ;;
  normalize histo.
End Spline.

(** The scenario of the specification in doubles: the literals 0.2, 0.3,
    0.5 at mass 1000, 0.5, 0.3, 0.2 at mass 2000, the grid 0.1, 0.5, 0.9. *)
Definition ex_shapes : dict (list double) :=
  [(1000, [lit 2 10; lit 3 10; lit 5 10]); (2000, [lit 5 10; lit 3 10; lit 2 10])].
Definition ex_centers : list double := [lit 1 10; lit 5 10; lit 9 10].
Definition ex_storage : ShapeStorage := mkShapeStorage ex_shapes ex_centers.

(** The trapezoid over the first and last ordinates. *)
Definition ex_Integ (xs ys : list double) (a b : double) : double :=
  mul (mul (sub b a) (add (hd zero ys) (last ys zero))) half.

(** Two bins, from 200 to 500 and from 500 to 700. *)
Definition ex_hist : TH1D := TH1D_var 2 [of_Z 200; of_Z 500; of_Z 700].

End Double.

(** ** Vocabulary of the statements *)

(** The test of line 69 as a proposition. *)
Definition unnormalized (v : list Q) : Prop := (1 # 100 < Qabs (py_sum v - 1))%Q.

(** The list [nbins] of [__init__] once its loop has run. *)
Definition bin_counts (shp : dict (list Q)) (centers : list Q) : list nat :=
  length centers :: map (fun e => length (snd e)) shp.

(** A storage that [__init__] has returned. *)
Definition constructed (st : ShapeStorage) : Prop :=
  dict_wf (shapes st) /\
  result (ShapeStorage_init (shapes st) (binxcenters st)) = Return st.

(** A histogram as ROOT builds it: the cells are the bins and the two
    overflow cells. *)
Definition hist_wf (h : TH1D) : Prop :=
  0 <= GetNbinsX h /\ fNcells h = GetNbinsX h + 2.

(** The scenario of the specification: masses 1000 and 2000 on the grid
    0.1, 0.5, 0.9. *)
Definition ex_shapes : dict (list Q) :=
  [(1000, [2 # 10; 3 # 10; 5 # 10]%Q); (2000, [5 # 10; 3 # 10; 2 # 10]%Q)].
Definition ex_centers : list Q := [1 # 10; 5 # 10; 9 # 10]%Q.
Definition ex_storage : ShapeStorage := mkShapeStorage ex_shapes ex_centers.

(** A stand-in integrator for the examples: the trapezoid over the first
    and last ordinates. *)
Definition ex_Integ (xs ys : list Q) (a b : Q) : Q :=
  ((b - a) * (hd 0 ys + last ys 0) * half)%Q.

(** [if v < lo: v = lo] and [if v > hi: v = hi]. *)
Definition raise_to (lo v : Q) : Q := if Qltb v lo then lo else v.
Definition lower_to (hi v : Q) : Q := if Qltb hi v then hi else v.

(** The window of [bin_window] when nothing raises, on the axis [a];
    [x_first] and [x_last] are the ends of the grid. *)
Definition ratio_window (x_first x_last : Q) (mass : Z) (a : TAxis) (i : Z)
  : option (Q * Q) :=
  let xcenter := (Axis_GetBinCenter a i / inject_Z mass)%Q in
  if Qltb x_first xcenter && Qltb xcenter x_last then
    let xlow := (Axis_GetBinLowEdge a i / inject_Z mass)%Q in
    let xhigh := (Axis_GetBinUpEdge a i / inject_Z mass)%Q in
    Some (raise_to x_first xlow, lower_to x_last xhigh)
  else None.

(** The content that [fill_bin] stores in bin [i]. *)
Definition bin_value (Integ : list Q -> list Q -> Q -> Q -> Q)
    (st : ShapeStorage) (y : ndarray) (mass : Z) (a : TAxis) (i : Z) : Q :=
  let x := binxcenters st in
  match ratio_window (hd 0%Q x) (last x 0%Q) mass a i with
  | Some (xlow, xhigh) => floor0 (Integ x y xlow xhigh)
  | None => 0%Q
  end.

(** A loop that stores [f i] in every bin [i] of [l]. *)
Definition set_bins (f : Z -> Q) (l : list Z) (h : TH1D) : TH1D :=
  fold_left (fun h i => SetBinContent h i (f i)) l h.

(** Target binnings of the examples: three bins that reach into the grid
    at mass 1500, one bin that lies beyond it, and a histogram of two unit
    bins with contents 1/4 and 3/4. *)
Definition ex_hist : TH1D := TH1D_var 3 [0; 500; 1000; 2000]%Q.
Definition ex_far_hist : TH1D := TH1D_var 1 [2000; 3000]%Q.
Definition ex_unit_hist : TH1D := mkTH1D (TAxis_fix 2 0 2) [0; 1 # 4; 3 # 4; 0]%Q.

(** A coarse histogram for the PDF and CDF examples: bins from 1 to 3 and
    from 3 to 6 with contents 1/4 and 3/4. *)
Definition ex_coarse : TH1D :=
  SetBinContent (SetBinContent (TH1D_var 2 [1; 3; 6]%Q) 1 (1 # 4)) 2 (3 # 4).

(** The bins of [h] have the integer edges [e 0 < e 1 < ...], all inside a
    fine grid of [nfine] unit bins. *)
Definition integer_edges (h : TH1D) (e : Z -> Z) (nfine : Z) : Prop :=
  0 <= e 0 /\ e (GetNbinsX h) <= nfine /\
  forall i, 1 <= i <= GetNbinsX h ->
    e (i - 1) < e i /\
    (GetBinLowEdge h i == inject_Z (e (i - 1)%Z))%Q /\
    (GetBinUpEdge h i == inject_Z (e i))%Q.

(** A list of integers that increases from each element to the next. *)
Fixpoint increasing (l : list Z) : bool :=
  match l with
  | a :: (b :: _) as l' => (a <? b) && increasing l'
  | _ => true
  end.

(** The edges 1, 3, 6 of [ex_coarse]. *)
Definition ex_coarse_edge (i : Z) : Z := nth (Z.to_nat i) [1; 3; 6] 0.



(** * Properties *)

(** ** The [Py] monad *)

Lemma bind_ret_l {A B} (a : A) (k : A -> Py B) : bind (ret a) k = k a.
Proof. unfold bind; simpl. destruct (k a); reflexivity. Qed.

Lemma bind_raise {A B} (e : exn) (k : A -> Py B) : bind (raise e) k = raise e.
Proof. reflexivity. Qed.

Lemma bind_print {B} (m : message) (k : unit -> Py B) :
  bind (print m) k = mkPy (m :: stdout (k tt)) (result (k tt)).
Proof. reflexivity. Qed.

Lemma bind_returns {A B} (c : Py A) (k : A -> Py B) (b : B) :
  result (bind c k) = Return b ->
  exists a, result c = Return a /\ result (k a) = Return b.
Proof.
  unfold bind. destruct (result c) as [a|e]; simpl; intro H.
  - exists a; split; [reflexivity | exact H].
  - discriminate.
Qed.

Lemma for_each_app {A S} (l1 l2 : list A) (body : A -> S -> Py S) (s : S) :
  for_each (l1 ++ l2) body s = (s' <- for_each l1 body s ;; for_each l2 body s').
Proof.
  revert s; induction l1 as [|a l1 IH]; intro s; simpl.
  - now rewrite bind_ret_l.
  - unfold bind at 1 3. destruct (body a s) as [o [s1|e]]; simpl.
    + rewrite IH. unfold bind. simpl.
      destruct (result (for_each l1 body s1)); simpl; [|reflexivity].
      now rewrite app_assoc.
    + reflexivity.
Qed.

(** A loop whose body always returns is a fold. *)
Lemma for_each_pure {A S} (l : list A) (body : A -> S -> Py S) (f : S -> A -> S) (s : S) :
  (forall a s', In a l -> body a s' = ret (f s' a)) ->
  for_each l body s = ret (fold_left f l s).
Proof.
  revert s; induction l as [|a l IH]; intros s H; simpl; [reflexivity|].
  rewrite H by (left; reflexivity). rewrite bind_ret_l.
  apply IH. intros; apply H; right; assumption.
Qed.

(** ** Rational tests *)

Lemma Qltb_true (a b : Q) : Qltb a b = true <-> (a < b)%Q.
Proof.
  unfold Qltb. rewrite negb_true_iff. split; intro H.
  - apply Qnot_le_lt. intro L. apply Qle_bool_iff in L. congruence.
  - destruct (Qle_bool b a) eqn:E; [|reflexivity].
    apply Qle_bool_iff in E. exfalso. apply (Qlt_not_le _ _ H E).
Qed.

Lemma Qltb_false (a b : Q) : Qltb a b = false <-> (b <= a)%Q.
Proof.
  unfold Qltb. rewrite negb_false_iff. apply Qle_bool_iff.
Qed.

Lemma unnormalized_dec (v : list Q) :
  (Qltb (1 # 100) (Qabs (py_sum v - 1)) = true <-> unnormalized v) /\
  (Qltb (1 # 100) (Qabs (py_sum v - 1)) = false <-> ~ unnormalized v).
Proof.
  unfold unnormalized. split; [apply Qltb_true|].
  rewrite Qltb_false. split; intro H.
  - now apply Qle_not_lt.
  - now apply Qnot_lt_le.
Qed.

(** ** Dictionaries *)

Lemma dict_find_Some_In {V} (d : dict V) (k : Z) (v : V) :
  dict_find d k = Some v -> In (k, v) d.
Proof.
  induction d as [|[k' v'] d IH]; simpl; [discriminate|].
  destruct (Z.eqb_spec k k') as [->|Hne]; intro H.
  - injection H as ->. now left.
  - right; auto.
Qed.

Lemma dict_find_In {V} (d : dict V) (k : Z) (v : V) :
  dict_wf d -> In (k, v) d -> dict_find d k = Some v.
Proof.
  unfold dict_wf, keys.
  induction d as [|[k' v'] d IH]; simpl; [contradiction|].
  intros Hnd [Heq|Hin].
  - injection Heq as -> ->. now rewrite Z.eqb_refl.
  - inversion Hnd as [|? ? Hnotin Hnd']; subst.
    destruct (Z.eqb_spec k k') as [->|Hne]; [|auto].
    exfalso. apply Hnotin. apply (in_map fst) in Hin. exact Hin.
Qed.

Lemma dict_find_keys {V} (d : dict V) (k : Z) :
  In k (keys d) -> exists v, dict_find d k = Some v.
Proof.
  unfold keys. induction d as [|[k' v'] d IH]; simpl; [contradiction|].
  intros [Heq|Hin]; destruct (Z.eqb_spec k k') as [->|Hne]; eauto.
  congruence.
Qed.

Lemma dict_find_None_keys {V} (d : dict V) (k : Z) :
  dict_find d k = None -> ~ In k (keys d).
Proof.
  intros Hnone Hin. destruct (dict_find_keys d k Hin) as [v Hv]. congruence.
Qed.

(** ** [ShapeStorage.__init__] *)

Lemma init_check_key_ok shp key nb v :
  dict_find shp key = Some v -> ~ unnormalized v ->
  init_check_key shp key nb = ret (nb ++ [length v]).
Proof.
  intros Hf Hn. unfold init_check_key, dict_get. rewrite Hf.
  rewrite bind_ret_l. apply (proj2 (unnormalized_dec v)) in Hn. rewrite Hn.
  now rewrite !bind_ret_l.
Qed.

Lemma init_check_key_bad shp key nb v :
  dict_find shp key = Some v -> unnormalized v ->
  init_check_key shp key nb = mkPy [ErrNotNormalized key] (Raise (SystemExit 3)).
Proof.
  intros Hf Hn. unfold init_check_key, dict_get. rewrite Hf.
  rewrite bind_ret_l. apply (proj1 (unnormalized_dec v)) in Hn. rewrite Hn.
  reflexivity.
Qed.

Lemma init_loop_ok shp es nb :
  (forall k v, In (k, v) es -> dict_find shp k = Some v /\ ~ unnormalized v) ->
  for_each (keys es) (init_check_key shp) nb
  = ret (nb ++ map (fun e => length (snd e)) es).
Proof.
  revert nb. induction es as [|[k v] es IH]; intros nb H; simpl.
  - now rewrite app_nil_r.
  - destruct (H k v (or_introl eq_refl)) as [Hf Hn].
    rewrite (init_check_key_ok shp k nb v Hf Hn), bind_ret_l.
    rewrite IH by (intros; apply H; now right).
    now rewrite <- app_assoc.
Qed.

Lemma init_loop_bad shp l1 k v l2 nb :
  (forall k' v', In (k', v') (l1 ++ (k, v) :: l2) -> dict_find shp k' = Some v') ->
  (forall e, In e l1 -> ~ unnormalized (snd e)) ->
  unnormalized v ->
  for_each (keys (l1 ++ (k, v) :: l2)) (init_check_key shp) nb
  = mkPy [ErrNotNormalized k] (Raise (SystemExit 3)).
Proof.
  intros Hfind Hok Hbad. unfold keys. rewrite map_app, for_each_app.
  fold (keys l1). rewrite init_loop_ok.
  - rewrite bind_ret_l. simpl.
    rewrite (init_check_key_bad shp k _ v); [reflexivity| |exact Hbad].
    apply Hfind. apply in_or_app; right; now left.
  - intros k' v' Hin. split.
    + apply Hfind. apply in_or_app; now left.
    + apply (Hok (k', v') Hin).
Qed.

Lemma first_unnormalized (shp : dict (list Q)) :
  (exists k v, In (k, v) shp /\ unnormalized v) ->
  exists l1 k v l2, shp = l1 ++ (k, v) :: l2 /\
    (forall e, In e l1 -> ~ unnormalized (snd e)) /\ unnormalized v.
Proof.
  induction shp as [|[k0 v0] shp IH]; intros (k & v & Hin & Hbad).
  - destruct Hin.
  - destruct (Qltb (1 # 100) (Qabs (py_sum v0 - 1))) eqn:E.
    + apply unnormalized_dec in E.
      exists [], k0, v0, shp. repeat split; [|exact E]. intros e [].
    + apply (proj2 (unnormalized_dec v0)) in E.
      destruct Hin as [Heq|Hin]; [injection Heq as -> ->; contradiction|].
      destruct IH as (l1 & k1 & v1 & l2 & -> & Hok & Hb1); [eauto|].
      exists ((k0, v0) :: l1), k1, v1, l2. repeat split; [|exact Hb1].
      intros e [<-|He]; [exact E | now apply Hok].
Qed.

Lemma len_set_gt1 (l : list nat) :
  (1 < len_set l)%nat <-> exists a b, In a l /\ In b l /\ a <> b.
Proof.
  unfold len_set. split.
  - intro H. pose proof (NoDup_nodup Nat.eq_dec l) as Hnd.
    destruct (nodup Nat.eq_dec l) as [|a [|b r]] eqn:E; simpl in H; try lia.
    exists a, b. repeat split.
    + apply (nodup_In Nat.eq_dec). rewrite E. now left.
    + apply (nodup_In Nat.eq_dec). rewrite E. right; now left.
    + inversion Hnd as [|? ? Hnotin _]; subst. intros ->. apply Hnotin. now left.
  - intros (a & b & Ha & Hb & Hne).
    apply (nodup_In Nat.eq_dec) in Ha, Hb.
    destruct (nodup Nat.eq_dec l) as [|c [|d r]]; simpl in *; lia.
Qed.

Lemma len_set_le1 (l : list nat) :
  (1 <? len_set l)%nat = false <-> forall a b, In a l -> In b l -> a = b.
Proof.
  rewrite Nat.ltb_ge. split.
  - intros H a b Ha Hb. destruct (Nat.eq_dec a b) as [|Hne]; [assumption|].
    exfalso. assert (1 < len_set l)%nat; [|lia].
    apply len_set_gt1. eauto.
  - intros H. destruct (le_lt_dec (len_set l) 1) as [|Hgt]; [assumption|].
    apply len_set_gt1 in Hgt. destruct Hgt as (a & b & Ha & Hb & Hne).
    exfalso. apply Hne. now apply H.
Qed.

Lemma init_insufficient shp centers :
  (length shp < 2)%nat ->
  ShapeStorage_init shp centers
  = mkPy [ErrNeedTwoShapes (length shp)] (Raise (SystemExit 1)).
Proof.
  intro H. unfold ShapeStorage_init; simpl.
  apply Nat.ltb_lt in H. rewrite H. reflexivity.
Qed.

Lemma init_unnormalized shp centers l1 k v l2 :
  dict_wf shp -> (2 <= length shp)%nat ->
  shp = l1 ++ (k, v) :: l2 ->
  (forall e, In e l1 -> ~ unnormalized (snd e)) -> unnormalized v ->
  ShapeStorage_init shp centers
  = mkPy [ErrNotNormalized k] (Raise (SystemExit 3)).
Proof.
  intros Hwf Hlen Hshp Hok Hbad. unfold ShapeStorage_init; simpl.
  apply Nat.ltb_ge in Hlen. rewrite Hlen, bind_ret_l.
  rewrite Hshp at 1.
  rewrite (init_loop_bad shp l1 k v l2); [reflexivity| |exact Hok|exact Hbad].
  intros k' v' Hin. apply dict_find_In; [exact Hwf|]. now rewrite Hshp.
Qed.

Lemma init_loop_normalized shp centers :
  dict_wf shp -> (2 <= length shp)%nat ->
  (forall k v, In (k, v) shp -> ~ unnormalized v) ->
  ShapeStorage_init shp centers
  = ((if (1 <? len_set (bin_counts shp centers))%nat then
        print ErrBinCounts ;;; raise (SystemExit 2)
      else ret tt) ;;; ret (mkShapeStorage shp centers)).
Proof.
  intros Hwf Hlen Hok. unfold ShapeStorage_init; simpl.
  apply Nat.ltb_ge in Hlen. rewrite Hlen, bind_ret_l.
  rewrite init_loop_ok.
  - now rewrite bind_ret_l.
  - intros k v Hin. split; [now apply dict_find_In | now apply (Hok k v)].
Qed.

Lemma init_inconsistent shp centers :
  dict_wf shp -> (2 <= length shp)%nat ->
  (forall k v, In (k, v) shp -> ~ unnormalized v) ->
  (exists a b, In a (bin_counts shp centers) /\ In b (bin_counts shp centers) /\ a <> b) ->
  ShapeStorage_init shp centers = mkPy [ErrBinCounts] (Raise (SystemExit 2)).
Proof.
  intros Hwf Hlen Hok Hdiff. rewrite init_loop_normalized by assumption.
  apply len_set_gt1 in Hdiff. apply Nat.ltb_lt in Hdiff. rewrite Hdiff.
  reflexivity.
Qed.

Lemma init_success shp centers :
  dict_wf shp -> (2 <= length shp)%nat ->
  (forall k v, In (k, v) shp -> ~ unnormalized v) ->
  (forall a b, In a (bin_counts shp centers) -> In b (bin_counts shp centers) -> a = b) ->
  ShapeStorage_init shp centers = ret (mkShapeStorage shp centers).
Proof.
  intros Hwf Hlen Hok Hsame. rewrite init_loop_normalized by assumption.
  apply len_set_le1 in Hsame. rewrite Hsame. now rewrite !bind_ret_l.
Qed.

Lemma all_or_some_unnormalized (shp : dict (list Q)) :
  (forall k v, In (k, v) shp -> ~ unnormalized v) \/
  (exists k v, In (k, v) shp /\ unnormalized v).
Proof.
  induction shp as [|[k0 v0] shp [IH|(k & v & Hin & Hbad)]].
  - left. intros k v [].
  - destruct (Qltb (1 # 100) (Qabs (py_sum v0 - 1))) eqn:E.
    + right. exists k0, v0. split; [now left | now apply unnormalized_dec].
    + left. intros k v [Heq|Hin]; [|now apply (IH k v)].
      injection Heq as <- <-. now apply unnormalized_dec.
  - right. exists k, v. split; [now right | assumption].
Qed.

(** What a returned storage satisfies. *)
Lemma constructed_inv (st : ShapeStorage) :
  constructed st ->
  (2 <= length (shapes st))%nat /\
  (forall k v, In (k, v) (shapes st) ->
     ~ unnormalized v /\ length v = length (binxcenters st)).
Proof.
  destruct st as [shp x]; unfold constructed; simpl. intros [Hwf Hres].
  destruct (le_lt_dec 2 (length shp)) as [Hlen|Hlen].
  2:{ rewrite init_insufficient in Hres by assumption. discriminate. }
  destruct (all_or_some_unnormalized shp) as [Hok|Hbad].
  2:{ apply first_unnormalized in Hbad.
      destruct Hbad as (l1 & k & v & l2 & Heq & Hok & Hbad).
      rewrite (init_unnormalized shp x l1 k v l2) in Hres by assumption.
      discriminate. }
  split; [assumption|]. intros k v Hin. split; [now apply (Hok k v)|].
  rewrite init_loop_normalized in Hres by assumption.
  destruct (1 <? len_set (bin_counts shp x))%nat eqn:E; [discriminate|].
  apply len_set_le1 with (a := length v) (b := length x) in E;
    [assumption| |now left].
  right. apply (in_map (fun e => length (snd e)) _ _ Hin).
Qed.

Lemma constructed_wf (st : ShapeStorage) : constructed st -> dict_wf (shapes st).
Proof. now intros [H _]. Qed.

(** C2: construction from a mapping [shp] of masses to content sequences
    and a grid [centers], the checks taken in the order of the text.  With
    fewer than two masses it exits with the insufficient-shapes error.
    Otherwise, when some shape has a sum further than 0.01 from 1, it exits
    with the unnormalized-shape error that names the first such mass [k] in
    the order of the mapping.  Otherwise, when the lengths of the shapes and
    of the grid are not all the same, it exits with the inconsistent-binning
    error.  Otherwise it returns the storage and prints nothing. *)
Theorem ShapeStorage_init_cases (shp : dict (list Q)) (centers : list Q) :
  dict_wf shp ->
  ((length shp < 2)%nat ->
     ShapeStorage_init shp centers
     = mkPy [ErrNeedTwoShapes (length shp)] (Raise (SystemExit 1)))
  /\
  ((2 <= length shp)%nat ->
   (exists k v, In (k, v) shp /\ (1 # 100 < Qabs (py_sum v - 1))%Q) ->
     exists l1 k v l2,
       shp = l1 ++ (k, v) :: l2 /\
       (forall e, In e l1 -> ~ (1 # 100 < Qabs (py_sum (snd e) - 1))%Q) /\
       (1 # 100 < Qabs (py_sum v - 1))%Q /\
       ShapeStorage_init shp centers
       = mkPy [ErrNotNormalized k] (Raise (SystemExit 3)))
  /\
  ((2 <= length shp)%nat ->
   (forall k v, In (k, v) shp -> ~ (1 # 100 < Qabs (py_sum v - 1))%Q) ->
   (exists a b, In a (bin_counts shp centers) /\
                In b (bin_counts shp centers) /\ a <> b) ->
     ShapeStorage_init shp centers = mkPy [ErrBinCounts] (Raise (SystemExit 2)))
  /\
  ((2 <= length shp)%nat ->
   (forall k v, In (k, v) shp -> ~ (1 # 100 < Qabs (py_sum v - 1))%Q) ->
   (forall a b, In a (bin_counts shp centers) ->
                In b (bin_counts shp centers) -> a = b) ->
     ShapeStorage_init shp centers = mkPy [] (Return (mkShapeStorage shp centers))).
Proof.
  intro Hwf. repeat split.
  - apply init_insufficient.
  - intros Hlen Hbad. apply first_unnormalized in Hbad.
    destruct Hbad as (l1 & k & v & l2 & Heq & Hok & Hbad).
    exists l1, k, v, l2. repeat split; try assumption.
    now apply (init_unnormalized shp centers l1 k v l2).
  - intros Hlen Hok Hdiff. now apply init_inconsistent.
  - intros Hlen Hok Hsame. now apply init_success.
Qed.

(** The scenarios of C2: one shape only; a shape of sum 1.05 at mass 1000;
    a shape shorter than the grid; the two shapes of the specification. *)
Lemma ShapeStorage_init_cases_witness :
  ShapeStorage_init [(1000, [1]%Q)] ex_centers
    = mkPy [ErrNeedTwoShapes 1] (Raise (SystemExit 1))
  /\ (exists l1 k v l2,
        [(1000, [2 # 10; 3 # 10; 55 # 100]%Q); (2000, [5 # 10; 3 # 10; 2 # 10]%Q)]
          = l1 ++ (k, v) :: l2 /\
        (forall e, In e l1 -> ~ (1 # 100 < Qabs (py_sum (snd e) - 1))%Q) /\
        (1 # 100 < Qabs (py_sum v - 1))%Q /\
        ShapeStorage_init
          [(1000, [2 # 10; 3 # 10; 55 # 100]%Q); (2000, [5 # 10; 3 # 10; 2 # 10]%Q)]
          ex_centers
        = mkPy [ErrNotNormalized k] (Raise (SystemExit 3)))
  /\ ShapeStorage_init [(1000, [2 # 10; 3 # 10; 5 # 10]%Q); (2000, [1]%Q)] ex_centers
       = mkPy [ErrBinCounts] (Raise (SystemExit 2))
  /\ ShapeStorage_init ex_shapes ex_centers = mkPy [] (Return ex_storage).
Proof.
  assert (Hwf1 : dict_wf [(1000, [1]%Q)]).
  { repeat constructor; simpl; tauto. }
  assert (Hwf2 : forall a b : list Q, dict_wf [(1000, a); (2000, b)]).
  { intros a b. repeat constructor; simpl; intuition discriminate. }
  assert (Hnorm : forall (a b : list Q) k v,
            Qltb (1 # 100) (Qabs (py_sum a - 1)) = false ->
            Qltb (1 # 100) (Qabs (py_sum b - 1)) = false ->
            In (k, v) [(1000, a); (2000, b)] ->
            ~ (1 # 100 < Qabs (py_sum v - 1))%Q).
  { intros a b k v Ha Hb [H|[H|[]]]; injection H as <- <-;
      now apply unnormalized_dec. }
  split; [|split; [|split]].
  - apply (ShapeStorage_init_cases [(1000, [1]%Q)] ex_centers Hwf1). simpl; lia.
  - apply (ShapeStorage_init_cases _ ex_centers (Hwf2 _ _)); [simpl; lia|].
    exists 1000, [2 # 10; 3 # 10; 55 # 100]%Q. split; [now left|].
    apply Qltb_true. reflexivity.
  - apply (ShapeStorage_init_cases _ ex_centers (Hwf2 _ _)); [simpl; lia| |].
    + intros k v Hin. refine (Hnorm _ _ k v _ _ Hin); reflexivity.
    + exists 3%nat, 1%nat. simpl. intuition lia.
  - apply (ShapeStorage_init_cases ex_shapes ex_centers (Hwf2 _ _)); [simpl; lia| |].
    + intros k v Hin. refine (Hnorm _ _ k v _ _ Hin); reflexivity.
    + simpl. intros a b Ha Hb. intuition lia.
Defined.

(** ** [sorted], indexing, [max] and [min] *)

Lemma insert_sorted_perm (a : Z) (l : list Z) : Permutation (insert_sorted a l) (a :: l).
Proof.
  induction l as [|b l IH]; simpl; [apply Permutation_refl|].
  destruct (a <=? b); [apply Permutation_refl|].
  eapply Permutation_trans; [apply perm_skip, IH | apply perm_swap].
Qed.

Lemma sorted_perm (l : list Z) : Permutation (sorted l) l.
Proof.
  induction l as [|a l IH]; simpl; [apply perm_nil|].
  eapply Permutation_trans; [apply insert_sorted_perm | now apply perm_skip].
Qed.

Lemma sorted_In (l : list Z) (a : Z) : In a (sorted l) <-> In a l.
Proof.
  split; apply Permutation_in; [|apply Permutation_sym]; apply sorted_perm.
Qed.

Lemma insert_sorted_sorted (a : Z) (l : list Z) :
  StronglySorted Z.le l -> StronglySorted Z.le (insert_sorted a l).
Proof.
  induction l as [|b l IH]; simpl; intro H.
  - repeat constructor.
  - apply StronglySorted_inv in H. destruct H as [Hl Hb].
    destruct (Z.leb_spec a b) as [Hab|Hab].
    + constructor; [now constructor|].
      constructor; [assumption|].
      eapply Forall_impl; [|exact Hb]. simpl; intros; lia.
    + constructor; [now apply IH|].
      rewrite Forall_forall in *. intros x Hx.
      apply (Permutation_in _ (insert_sorted_perm a l)) in Hx.
      destruct Hx as [<-|Hx]; [lia | now apply Hb].
Qed.

Lemma sorted_le (l : list Z) : StronglySorted Z.le (sorted l).
Proof.
  induction l as [|a l IH]; simpl; [constructor | now apply insert_sorted_sorted].
Qed.

Lemma sorted_lt (l : list Z) : NoDup l -> StronglySorted Z.lt (sorted l).
Proof.
  intro Hnd.
  assert (Hnd' : NoDup (sorted l)).
  { eapply Permutation_NoDup; [apply Permutation_sym, sorted_perm | exact Hnd]. }
  pose proof (sorted_le l) as Hs. clear Hnd.
  induction (sorted l) as [|a s IH]; [constructor|].
  apply StronglySorted_inv in Hs. destruct Hs as [Hs Ha].
  inversion Hnd' as [|? ? Hnotin Hnd'']; subst.
  constructor; [now apply IH|].
  rewrite Forall_forall in *. intros x Hx.
  specialize (Ha x Hx). assert (a <> x) by (intros ->; contradiction). lia.
Qed.

Lemma StronglySorted_app_inv {A} (R : A -> A -> Prop) (l1 l2 : list A) :
  StronglySorted R (l1 ++ l2) ->
  StronglySorted R l1 /\ StronglySorted R l2 /\
  (forall a b, In a l1 -> In b l2 -> R a b).
Proof.
  induction l1 as [|c l1 IH]; simpl; intro H.
  - repeat split; [constructor | assumption | intros a b []].
  - apply StronglySorted_inv in H. destruct H as [H Hc].
    destruct (IH H) as (H1 & H2 & H12).
    rewrite Forall_forall in Hc.
    repeat split; [|assumption|].
    + constructor; [assumption|]. rewrite Forall_forall.
      intros x Hx. apply Hc. apply in_or_app; now left.
    + intros a b [<-|Ha] Hb; [|now apply H12].
      apply Hc. apply in_or_app; now right.
Qed.

Lemma py_index_nonneg {A} (l : list A) (i : Z) (a : A) :
  0 <= i -> nth_error l (Z.to_nat i) = Some a -> py_index l i = ret a.
Proof.
  intros Hi Hnth. unfold py_index.
  assert (Hlt : (Z.to_nat i < length l)%nat).
  { apply nth_error_Some. congruence. }
  destruct (Z.ltb_spec i 0) as [|_]; [lia|].
  destruct (Z.ltb_spec i 0) as [|_]; [lia|].
  destruct (Z.leb_spec (Z.of_nat (length l)) i) as [|_]; [lia|].
  simpl. now rewrite Hnth.
Qed.

Lemma py_index_0 {A} (a : A) (l : list A) : py_index (a :: l) 0 = ret a.
Proof. apply py_index_nonneg; [lia | reflexivity]. Qed.

Lemma py_index_1 {A} (a b : A) (l : list A) : py_index (a :: b :: l) 1 = ret b.
Proof. apply py_index_nonneg; [lia | reflexivity]. Qed.

Lemma py_index_from_end {A} (l r : list A) (a : A) (i : Z) :
  i = - Z.of_nat (length (a :: r)) ->
  py_index (l ++ a :: r) i = ret a.
Proof.
  intro Hi. unfold py_index.
  assert (Hlen : Z.of_nat (length (l ++ a :: r)) = Z.of_nat (length l) - i).
  { rewrite length_app. lia. }
  assert (Hneg : i < 0) by (simpl length in Hi; lia).
  rewrite Hlen.
  destruct (Z.ltb_spec i 0) as [_|]; [|lia].
  replace (i + (Z.of_nat (length l) - i)) with (Z.of_nat (length l)) by lia.
  destruct (Z.ltb_spec (Z.of_nat (length l)) 0) as [|_]; [lia|].
  destruct (Z.leb_spec (Z.of_nat (length l) - i) (Z.of_nat (length l))) as [|_]; [lia|].
  simpl. rewrite Nat2Z.id.
  rewrite nth_error_app2 by lia. now rewrite Nat.sub_diag.
Qed.

Lemma split_last_two {A} (l : list A) :
  (2 <= length l)%nat -> exists front a b, l = front ++ [a; b].
Proof.
  intro H. destruct (rev l) as [|b [|a r]] eqn:E.
  - apply (f_equal (@length A)) in E. rewrite length_rev in E. simpl in E. lia.
  - apply (f_equal (@length A)) in E. rewrite length_rev in E. simpl in E. lia.
  - exists (rev r), a, b. rewrite <- (rev_involutive l), E. simpl.
    now rewrite <- app_assoc.
Qed.

Lemma fold_max_spec (l : list Z) (a : Z) :
  In (fold_left Z.max l a) (a :: l) /\
  (forall x, In x (a :: l) -> x <= fold_left Z.max l a).
Proof.
  revert a. induction l as [|b l IH]; intro a; simpl.
  - split; [now left | intros x [<-|[]]; lia].
  - destruct (IH (Z.max a b)) as [Hin Hge]. split.
    + destruct Hin as [Heq|Hin]; [|now right; right].
      rewrite <- Heq. destruct (Z.max_spec a b) as [[_ ->]|[_ ->]]; auto.
    + intros x Hx. assert (Hm := Hge (Z.max a b) (or_introl eq_refl)).
      destruct Hx as [<-|[<-|Hx]]; [lia | lia |].
      apply Hge. now right.
Qed.

Lemma fold_min_spec (l : list Z) (a : Z) :
  In (fold_left Z.min l a) (a :: l) /\
  (forall x, In x (a :: l) -> fold_left Z.min l a <= x).
Proof.
  revert a. induction l as [|b l IH]; intro a; simpl.
  - split; [now left | intros x [<-|[]]; lia].
  - destruct (IH (Z.min a b)) as [Hin Hge]. split.
    + destruct Hin as [Heq|Hin]; [|now right; right].
      rewrite <- Heq. destruct (Z.min_spec a b) as [[_ ->]|[_ ->]]; auto.
    + intros x Hx. assert (Hm := Hge (Z.min a b) (or_introl eq_refl)).
      destruct Hx as [<-|[<-|Hx]]; [lia | lia |].
      apply Hge. now right.
Qed.

Lemma py_max_spec (l : list Z) (a : Z) :
  In a l -> exists m, py_max l = ret m /\ In m l /\ forall x, In x l -> x <= m.
Proof.
  destruct l as [|b l]; [intros []|]. intros _.
  exists (fold_left Z.max l b). split; [reflexivity | apply fold_max_spec].
Qed.

Lemma py_min_spec (l : list Z) (a : Z) :
  In a l -> exists m, py_min l = ret m /\ In m l /\ forall x, In x l -> m <= x.
Proof.
  destruct l as [|b l]; [intros []|]. intros _.
  exists (fold_left Z.min l b). split; [reflexivity | apply fold_min_spec].
Qed.

Lemma py_index_last {A} (l : list A) (d : A) :
  l <> [] -> py_index l (-1) = ret (last l d).
Proof.
  intro Hne. rewrite (app_removelast_last d Hne) at 1.
  now apply py_index_from_end.
Qed.

Lemma sorted_last_ge (l : list Z) (d x : Z) :
  StronglySorted Z.le l -> In x l -> x <= last l d.
Proof.
  revert x. induction l as [|a l IH]; [intros x _ []|].
  intros x Hs Hx. apply StronglySorted_inv in Hs. destruct Hs as [Hs Ha].
  rewrite Forall_forall in Ha.
  destruct l as [|b l]; [destruct Hx as [<-|[]]; simpl; lia|].
  change (last (a :: b :: l) d) with (last (b :: l) d).
  destruct Hx as [<-|Hx]; [|now apply IH].
  transitivity b; [apply Ha; now left | apply IH; [assumption | now left]].
Qed.

(** ** Lines 80 to 98: the curve at the target mass *)

Lemma nth_map_in_range (f : Q -> Q) (l : list Q) (i : nat) :
  (i < length l)%nat -> nth i (map f l) 0%Q = f (nth i l 0%Q).
Proof.
  intro Hi. rewrite (nth_indep _ 0%Q (f 0%Q)) by (now rewrite length_map).
  apply map_nth.
Qed.

Lemma nth_map_combine (f : Q -> Q -> Q) (a b : list Q) (i : nat) :
  length a = length b -> (i < length a)%nat ->
  nth i (map (fun p => f (fst p) (snd p)) (combine a b)) 0%Q
  = f (nth i a 0%Q) (nth i b 0%Q).
Proof.
  revert b i. induction a as [|x a IH]; intros [|y b] i Hlen Hi;
    simpl in *; try lia.
  destruct i as [|i]; [reflexivity|]. apply IH; lia.
Qed.

Lemma length_map_combine (f : Q -> Q -> Q) (a b : list Q) :
  length a = length b ->
  length (map (fun p => f (fst p) (snd p)) (combine a b)) = length a.
Proof.
  intro H. rewrite length_map, length_combine, H. apply Nat.min_id.
Qed.

Lemma np_binop_same_length (f : Q -> Q -> Q) (a b : ndarray) :
  length a = length b ->
  np_binop f a b = ret (map (fun p => f (fst p) (snd p)) (combine a b)).
Proof.
  intro H. unfold np_binop. apply Nat.eqb_eq in H. now rewrite H.
Qed.

(** The blend of line 98, bin by bin. *)
Lemma blend_spec (yl yh : ndarray) (ml mh mass : Z) :
  length yl = length yh ->
  exists y, blend yl yh ml mh mass = ret y /\ length y = length yl /\
    forall i, (i < length yl)%nat ->
      nth i y 0%Q
      = ((nth i yh 0 - nth i yl 0) / inject_Z (mh - ml) * inject_Z (mass - ml)
         + nth i yl 0)%Q.
Proof.
  intro Hlen. unfold blend, np_sub, np_add.
  rewrite np_binop_same_length by congruence. rewrite bind_ret_l.
  set (d := map (fun p => (fst p - snd p)%Q) (combine yh yl)).
  assert (Hd : length d = length yl).
  { unfold d. rewrite (length_map_combine Qminus) by congruence. congruence. }
  set (s := np_mul_scalar (np_div_scalar d (inject_Z (mh - ml))) (inject_Z (mass - ml))).
  assert (Hs : length s = length yl).
  { unfold s, np_mul_scalar, np_div_scalar. now rewrite !length_map. }
  rewrite np_binop_same_length by assumption.
  eexists. split; [reflexivity|]. split.
  - rewrite (length_map_combine Qplus) by assumption. assumption.
  - intros i Hi. rewrite (nth_map_combine Qplus) by lia.
    f_equal. unfold s, np_mul_scalar, np_div_scalar.
    rewrite map_map, nth_map_in_range by lia. unfold d.
    rewrite (nth_map_combine Qminus) by lia. reflexivity.
Qed.

Lemma bracket_below (st : ShapeStorage) (mass ml mh : Z) (rest : list Z) :
  sorted (keys (shapes st)) = ml :: mh :: rest -> mass < ml ->
  bracket st mass = mkPy [WarnExtrapolateBelow] (Return (ml, mh)).
Proof.
  intros Hks Hlt. unfold bracket; cbv zeta. rewrite Hks.
  rewrite py_index_0, bind_ret_l.
  rewrite (py_index_last _ 0) by discriminate. rewrite bind_ret_l.
  apply Z.ltb_lt in Hlt. rewrite Hlt.
  rewrite bind_print, bind_ret_l, py_index_1, bind_ret_l.
  reflexivity.
Qed.

Lemma bracket_above (st : ShapeStorage) (mass ml mh : Z) (front : list Z) :
  sorted (keys (shapes st)) = front ++ [ml; mh] -> mh < mass ->
  bracket st mass = mkPy [WarnExtrapolateAbove] (Return (ml, mh)).
Proof.
  intros Hks Hlt. unfold bracket; cbv zeta.
  pose proof (sorted_le (keys (shapes st))) as Hs. rewrite Hks in *.
  assert (Hmax : forall x, In x (front ++ [ml; mh]) -> x <= mh).
  { apply StronglySorted_app_inv in Hs. destruct Hs as (_ & H2 & H12).
    apply StronglySorted_inv in H2. destruct H2 as [_ H2].
    rewrite Forall_forall in H2.
    intros x Hx. apply in_app_or in Hx. destruct Hx as [Hx|[<-|[<-|[]]]].
    - apply H12; [assumption | right; now left].
    - apply H2; now left.
    - lia. }
  assert (Hlast1 : py_index (front ++ [ml; mh]) (-1) = ret mh).
  { change (front ++ [ml; mh]) with (front ++ [ml] ++ [mh]).
    rewrite app_assoc. now apply py_index_from_end. }
  assert (Hlast2 : py_index (front ++ [ml; mh]) (-2) = ret ml).
  { now apply py_index_from_end. }
  assert (Hhd : exists k0 tl, front ++ [ml; mh] = k0 :: tl).
  { destruct front as [|f front]; simpl; eauto. }
  destruct Hhd as (k0 & tl & Hhd).
  assert (Hk0 : k0 <= mh). { apply Hmax. rewrite Hhd. now left. }
  rewrite Hhd at 1. rewrite py_index_0, bind_ret_l.
  rewrite Hlast1, bind_ret_l.
  destruct (Z.ltb_spec mass k0) as [|_]; [lia|].
  apply Z.ltb_lt in Hlt. rewrite Hlt.
  rewrite bind_print, Hlast2, !bind_ret_l.
  reflexivity.
Qed.

Lemma bracket_inside (st : ShapeStorage) (mass a b : Z) :
  In a (keys (shapes st)) -> In b (keys (shapes st)) -> a < mass < b ->
  exists ml mh, bracket st mass = ret (ml, mh) /\
    In ml (keys (shapes st)) /\ ml < mass /\
    (forall k, In k (keys (shapes st)) -> k < mass -> k <= ml) /\
    In mh (keys (shapes st)) /\ mass < mh /\
    (forall k, In k (keys (shapes st)) -> mass < k -> mh <= k).
Proof.
  intros Ha Hb Hab. unfold bracket; cbv zeta.
  pose proof (sorted_le (keys (shapes st))) as Hs.
  pose proof (sorted_In (keys (shapes st))) as Hin.
  set (ks := sorted (keys (shapes st))) in *.
  destruct ks as [|k0 tl] eqn:Eks; [now apply Hin in Ha|].
  rewrite py_index_0, bind_ret_l.
  rewrite (py_index_last _ 0) by discriminate. rewrite bind_ret_l.
  assert (Hmin : k0 <= a).
  { apply Hin in Ha. destruct Ha as [<-|Ha]; [lia|].
    apply StronglySorted_inv in Hs. destruct Hs as [_ Hs].
    rewrite Forall_forall in Hs. now apply Hs. }
  assert (Hmax : b <= last (k0 :: tl) 0).
  { apply sorted_last_ge; [assumption | now apply Hin]. }
  destruct (Z.ltb_spec mass k0) as [|_]; [lia|].
  destruct (Z.ltb_spec (last (k0 :: tl) 0) mass) as [|_]; [lia|].
  destruct (py_max_spec (filter (fun m => m <? mass) (k0 :: tl)) a)
    as (ml & Hml & Hml_in & Hml_max).
  { apply filter_In. split; [now apply Hin | apply Z.ltb_lt; lia]. }
  destruct (py_min_spec (filter (fun m => mass <? m) (k0 :: tl)) b)
    as (mh & Hmh & Hmh_in & Hmh_min).
  { apply filter_In. split; [now apply Hin | apply Z.ltb_lt; lia]. }
  rewrite Hml, bind_ret_l, Hmh, bind_ret_l.
  apply filter_In in Hml_in, Hmh_in.
  destruct Hml_in as [Hml_in Hml_lt], Hmh_in as [Hmh_in Hmh_lt].
  apply Z.ltb_lt in Hml_lt, Hmh_lt.
  exists ml, mh. repeat split; try assumption; try (now apply Hin).
  - intros k Hk Hlt. apply Hml_max. apply filter_In.
    split; [now apply Hin | now apply Z.ltb_lt].
  - intros k Hk Hlt. apply Hmh_min. apply filter_In.
    split; [now apply Hin | now apply Z.ltb_lt].
Qed.

Lemma interpolate_known (st : ShapeStorage) (mass : Z) (v : list Q) :
  dict_find (shapes st) mass = Some v -> interpolate st mass = ret v.
Proof.
  intro H. unfold interpolate, dict_mem, dict_get. rewrite H.
  now rewrite bind_ret_l.
Qed.

Lemma bind_returned {A B} (out : list message) (a : A) (k : A -> Py B) :
  bind (mkPy out (Return a)) k = mkPy (out ++ stdout (k a)) (result (k a)).
Proof. reflexivity. Qed.

(** The code's blend and the formula of the specification agree. *)
Lemma blend_formula (yl yh : Q) (ml mh mass : Z) :
  mh <> ml ->
  ((yh - yl) / inject_Z (mh - ml) * inject_Z (mass - ml) + yl
   == yl + (yh - yl) * (inject_Z (mass - ml) / inject_Z (mh - ml)))%Q.
Proof.
  intro Hne. field. intro H.
  change 0%Q with (inject_Z 0) in H.
  apply (proj1 (inject_Z_injective _ _)) in H. lia.
Qed.

Lemma interpolate_blend (st : ShapeStorage) (mass ml mh : Z) (out : list message) :
  constructed st ->
  dict_find (shapes st) mass = None ->
  bracket st mass = mkPy out (Return (ml, mh)) ->
  In ml (keys (shapes st)) -> In mh (keys (shapes st)) -> ml <> mh ->
  exists yl yh y,
    In (ml, yl) (shapes st) /\ In (mh, yh) (shapes st) /\
    interpolate st mass = mkPy out (Return y) /\
    length y = length (binxcenters st) /\
    forall i, (i < length y)%nat ->
      (nth i y 0 == nth i yl 0 + (nth i yh 0 - nth i yl 0)
                     * (inject_Z (mass - ml) / inject_Z (mh - ml)))%Q.
Proof.
  intros Hc Hnone Hbr Hml Hmh Hne.
  destruct (constructed_inv st Hc) as [_ Hshape].
  destruct (dict_find_keys _ _ Hml) as [yl Hyl].
  destruct (dict_find_keys _ _ Hmh) as [yh Hyh].
  pose proof (dict_find_Some_In _ _ _ Hyl) as Hinl.
  pose proof (dict_find_Some_In _ _ _ Hyh) as Hinh.
  destruct (Hshape _ _ Hinl) as [_ Hlenl].
  destruct (Hshape _ _ Hinh) as [_ Hlenh].
  destruct (blend_spec yl yh ml mh mass) as (y & Hy & Hleny & Hnth);
    [congruence|].
  exists yl, yh, y. repeat split; try assumption; try congruence.
  - unfold interpolate, dict_mem. rewrite Hnone, Hbr, bind_returned.
    simpl fst; simpl snd. unfold dict_get. rewrite Hyl, bind_ret_l.
    rewrite Hyh, bind_ret_l. unfold np_array. rewrite Hy. simpl.
    now rewrite app_nil_r.
  - intros i Hi. rewrite Hnth by lia. apply blend_formula. congruence.
Qed.

(** C7: at a target mass that is a known mass the curve handed to the
    integrator is the stored content sequence of that mass itself, and
    nothing is printed. *)
Theorem interpolate_exact_at_known_mass (st : ShapeStorage) (mass : Z) (v : list Q) :
  dict_wf (shapes st) -> In (mass, v) (shapes st) ->
  interpolate st mass = mkPy [] (Return v).
Proof.
  intros Hwf Hin. apply interpolate_known. now apply dict_find_In.
Qed.

Lemma ex_shapes_wf : dict_wf ex_shapes.
Proof. repeat constructor; simpl; intuition discriminate. Qed.

Lemma interpolate_exact_at_known_mass_witness :
  interpolate ex_storage 2000 = mkPy [] (Return [5 # 10; 3 # 10; 2 # 10]%Q).
Proof.
  apply (interpolate_exact_at_known_mass ex_storage 2000).
  - exact ex_shapes_wf.
  - simpl. right; left; reflexivity.
Defined.

Lemma ex_storage_constructed : constructed ex_storage.
Proof. split; [exact ex_shapes_wf | reflexivity]. Qed.

(** C1: for a storage that the constructor returned and a target mass that
    is not itself a known mass (the "otherwise" of the text) and lies
    strictly between two known masses, the curve is the blend of the shapes
    of [ml], the largest known mass below the target, and [mh], the
    smallest known mass above it:
    [y[i] = yl[i] + (yh[i] - yl[i]) * (m - ml) / (mh - ml)] in every bin,
    with no warning.  For the two shapes of the scenario the curve at 1500
    is 0.35, 0.3, 0.35. *)
Theorem interpolate_between_known_masses :
  (forall (st : ShapeStorage) (mass a b : Z),
     constructed st ->
     dict_mem (shapes st) mass = false ->
     In a (keys (shapes st)) -> In b (keys (shapes st)) -> a < mass < b ->
     exists ml mh yl yh y,
       In (ml, yl) (shapes st) /\ In (mh, yh) (shapes st) /\
       ml < mass < mh /\
       (forall k, In k (keys (shapes st)) -> k < mass -> k <= ml) /\
       (forall k, In k (keys (shapes st)) -> mass < k -> mh <= k) /\
       interpolate st mass = mkPy [] (Return y) /\
       length y = length (binxcenters st) /\
       forall i, (i < length y)%nat ->
         (nth i y 0 == nth i yl 0 + (nth i yh 0 - nth i yl 0)
                        * (inject_Z (mass - ml) / inject_Z (mh - ml)))%Q)
  /\
  (exists y, interpolate ex_storage 1500 = mkPy [] (Return y) /\
             Forall2 Qeq y [35 # 100; 3 # 10; 35 # 100]%Q).
Proof.
  split.
  - intros st mass a b Hc Hmem Ha Hb Hab.
    assert (Hnone : dict_find (shapes st) mass = None).
    { unfold dict_mem in Hmem. destruct (dict_find (shapes st) mass); congruence. }
    destruct (bracket_inside st mass a b Ha Hb Hab)
      as (ml & mh & Hbr & Hml & Hmllt & Hmlmax & Hmh & Hmhlt & Hmhmin).
    destruct (interpolate_blend st mass ml mh [] Hc Hnone Hbr Hml Hmh)
      as (yl & yh & y & Hinl & Hinh & Hy & Hlen & Hnth); [lia|].
    exists ml, mh, yl, yh, y. repeat split; try assumption; lia.
  - eexists. split; [reflexivity|].
    repeat constructor; reflexivity.
Qed.

Lemma interpolate_between_known_masses_witness :
  exists ml mh yl yh y,
    In (ml, yl) ex_shapes /\ In (mh, yh) ex_shapes /\
    ml < 1500 < mh /\
    (forall k, In k (keys ex_shapes) -> k < 1500 -> k <= ml) /\
    (forall k, In k (keys ex_shapes) -> 1500 < k -> mh <= k) /\
    interpolate ex_storage 1500 = mkPy [] (Return y) /\
    length y = length ex_centers /\
    forall i, (i < length y)%nat ->
      (nth i y 0 == nth i yl 0 + (nth i yh 0 - nth i yl 0)
                     * (inject_Z (1500 - ml) / inject_Z (mh - ml)))%Q.
Proof.
  apply (proj1 interpolate_between_known_masses ex_storage 1500 1000 2000).
  - exact ex_storage_constructed.
  - reflexivity.
  - simpl; auto.
  - simpl; auto.
  - lia.
Defined.

(** ** Histograms *)

Lemma In_range (a b j : Z) : In j (range a b) <-> a <= j < b.
Proof.
  unfold range. rewrite in_map_iff. split.
  - intros (k & <- & Hk). apply in_seq in Hk. lia.
  - intro H. exists (Z.to_nat (j - a)). split; [lia|]. apply in_seq. lia.
Qed.

Lemma range_snoc (a b : Z) : a <= b -> range a (b + 1) = range a b ++ [b].
Proof.
  intro H. unfold range.
  replace (Z.to_nat (b + 1 - a)) with (Z.to_nat (b - a) + 1)%nat by lia.
  rewrite seq_app, map_app. simpl. f_equal. f_equal. lia.
Qed.

Lemma range_cons (a b : Z) : a < b -> range a b = a :: range (a + 1) b.
Proof.
  intro H. unfold range.
  replace (Z.to_nat (b - a)) with (S (Z.to_nat (b - (a + 1)))) by lia.
  rewrite <- cons_seq, <- seq_shift, map_cons, map_map.
  f_equal; [lia|]. apply map_ext. intro k. lia.
Qed.

Lemma range_empty (a b : Z) : b <= a -> range a b = [].
Proof.
  intro H. unfold range. now replace (Z.to_nat (b - a)) with 0%nat by lia.
Qed.

Lemma length_list_set {A} (l : list A) (n : nat) (v : A) :
  length (list_set l n v) = length l.
Proof.
  revert n. induction l as [|a l IH]; intros [|n]; simpl; auto.
Qed.

Lemma nth_list_set_eq {A} (l : list A) (n : nat) (v d : A) :
  (n < length l)%nat -> nth n (list_set l n v) d = v.
Proof.
  revert n. induction l as [|a l IH]; intros [|n] H; simpl in *; try lia; auto.
  apply IH. lia.
Qed.

Lemma nth_list_set_neq {A} (l : list A) (n m : nat) (v d : A) :
  n <> m -> nth m (list_set l n v) d = nth m l d.
Proof.
  revert n m. induction l as [|a l IH]; intros [|n] [|m] H; simpl; auto; try lia.
Qed.

Lemma SetBinContent_axis (h : TH1D) (i : Z) (v : Q) :
  fXaxis (SetBinContent h i v) = fXaxis h.
Proof. unfold SetBinContent. now destruct ((i <? 0) || (fNcells h <=? i)). Qed.

Lemma SetBinContent_cells (h : TH1D) (i : Z) (v : Q) :
  fNcells (SetBinContent h i v) = fNcells h.
Proof.
  unfold SetBinContent, fNcells.
  destruct ((i <? 0) || (Z.of_nat (length (fArray h)) <=? i)); [reflexivity|].
  simpl. now rewrite length_list_set.
Qed.

Lemma GetBinContent_in_range (h : TH1D) (j : Z) :
  0 <= j < fNcells h -> GetBinContent h j = nth (Z.to_nat j) (fArray h) 0%Q.
Proof.
  intro H. unfold GetBinContent.
  destruct (Z.ltb_spec j 0) as [|_]; [lia|].
  destruct (Z.leb_spec (fNcells h) j) as [|_]; [lia|]. reflexivity.
Qed.

Lemma GetBinContent_set_eq (h : TH1D) (i : Z) (v : Q) :
  0 <= i < fNcells h -> GetBinContent (SetBinContent h i v) i = v.
Proof.
  intro H. rewrite GetBinContent_in_range by (now rewrite SetBinContent_cells).
  unfold SetBinContent.
  destruct (Z.ltb_spec i 0) as [|_]; [lia|].
  destruct (Z.leb_spec (fNcells h) i) as [|_]; [lia|]. simpl.
  apply nth_list_set_eq. unfold fNcells in H. lia.
Qed.

Lemma GetBinContent_set_neq (h : TH1D) (i j : Z) (v : Q) :
  0 <= j < fNcells h -> i <> j ->
  GetBinContent (SetBinContent h i v) j = GetBinContent h j.
Proof.
  intros Hj Hne.
  rewrite !GetBinContent_in_range by (rewrite ?SetBinContent_cells; assumption).
  unfold SetBinContent.
  destruct ((i <? 0) || (fNcells h <=? i)) eqn:E; [reflexivity|].
  apply orb_false_iff in E. destruct E as [E1 E2].
  apply Z.ltb_ge in E1. apply Z.leb_gt in E2. simpl.
  apply nth_list_set_neq. lia.
Qed.

Lemma set_bins_axis (f : Z -> Q) (l : list Z) (h : TH1D) :
  fXaxis (set_bins f l h) = fXaxis h.
Proof.
  unfold set_bins. revert h. induction l as [|i l IH]; intro h; simpl; [reflexivity|].
  rewrite IH. apply SetBinContent_axis.
Qed.

Lemma set_bins_cells (f : Z -> Q) (l : list Z) (h : TH1D) :
  fNcells (set_bins f l h) = fNcells h.
Proof.
  unfold set_bins. revert h. induction l as [|i l IH]; intro h; simpl; [reflexivity|].
  rewrite IH. apply SetBinContent_cells.
Qed.

Lemma set_bins_notin (f : Z -> Q) (l : list Z) (h : TH1D) (j : Z) :
  0 <= j < fNcells h -> ~ In j l ->
  GetBinContent (set_bins f l h) j = GetBinContent h j.
Proof.
  unfold set_bins. revert h. induction l as [|i l IH]; intros h Hj Hn; simpl; [reflexivity|].
  rewrite IH.
  - apply GetBinContent_set_neq; [assumption|]. intros ->. apply Hn. now left.
  - now rewrite SetBinContent_cells.
  - intro Hin. apply Hn. now right.
Qed.

Lemma set_bins_In (f : Z -> Q) (l : list Z) (h : TH1D) (j : Z) :
  0 <= j < fNcells h -> In j l -> GetBinContent (set_bins f l h) j = f j.
Proof.
  revert h. induction l as [|i l IH]; intros h Hj Hin; [destruct Hin|].
  change (set_bins f (i :: l) h) with (set_bins f l (SetBinContent h i (f i))).
  destruct (in_dec Z.eq_dec j l) as [Hjl|Hjl].
  - apply IH; [now rewrite SetBinContent_cells | assumption].
  - destruct Hin as [->|Hin]; [|contradiction].
    rewrite set_bins_notin by (rewrite ?SetBinContent_cells; assumption).
    now apply GetBinContent_set_eq.
Qed.

(** ** Lines 103 to 113: the bin loop *)

Lemma py_div_nonzero (a : Q) (mass : Z) :
  mass <> 0 -> py_div a (inject_Z mass) = ret (a / inject_Z mass)%Q.
Proof.
  intro Hne. unfold py_div.
  destruct (Qeq_bool (inject_Z mass) 0) eqn:E; [|reflexivity].
  apply Qeq_bool_iff in E. change 0%Q with (inject_Z 0) in E.
  apply (proj1 (inject_Z_injective _ _)) in E. contradiction.
Qed.

Lemma py_div_zero (a : Q) : py_div a (inject_Z 0) = raise ZeroDivisionError.
Proof. reflexivity. Qed.

Lemma bin_window_spec (st : ShapeStorage) (mass : Z) (h : TH1D) (i : Z) :
  binxcenters st <> [] -> mass <> 0 ->
  bin_window st mass h i
  = ret (ratio_window (hd 0%Q (binxcenters st)) (last (binxcenters st) 0%Q)
           mass (fXaxis h) i).
Proof.
  intros Hx Hm. unfold bin_window, ratio_window; cbv zeta.
  unfold GetBinCenter, GetBinLowEdge, GetBinUpEdge.
  assert (H0 : py_index (binxcenters st) 0 = ret (hd 0%Q (binxcenters st))).
  { destruct (binxcenters st) as [|x0 tl]; [contradiction | apply py_index_0]. }
  pose proof (py_index_last (binxcenters st) 0%Q Hx) as H1.
  unfold raise_to, lower_to.
  rewrite py_div_nonzero, bind_ret_l by assumption.
  rewrite H0, bind_ret_l.
  destruct (Qltb (hd 0%Q (binxcenters st)) _) eqn:E1; simpl andb;
    [|now rewrite bind_ret_l].
  rewrite H1, !bind_ret_l.
  destruct (Qltb _ (last (binxcenters st) 0%Q)) eqn:E2; [|reflexivity].
  rewrite py_div_nonzero, bind_ret_l by assumption.
  rewrite bind_ret_l.
  destruct (Qltb _ (hd 0%Q (binxcenters st))) eqn:E3;
    rewrite bind_ret_l, py_div_nonzero, !bind_ret_l by assumption;
    destruct (Qltb (last (binxcenters st) 0%Q) _) eqn:E4;
    rewrite bind_ret_l; reflexivity.
Qed.

Section BinLoop.
Variable Integ : list Q -> list Q -> Q -> Q -> Q.
Variables (st : ShapeStorage) (y : ndarray) (mass : Z).

Lemma fill_bin_spec (h : TH1D) (i : Z) :
  binxcenters st <> [] -> mass <> 0 ->
  fill_bin Integ st y mass i h
  = ret (SetBinContent h i (bin_value Integ st y mass (fXaxis h) i)).
Proof.
  intros Hx Hm. unfold fill_bin, bin_value; cbv zeta.
  rewrite bin_window_spec, bind_ret_l by assumption.
  destruct (ratio_window _ _ mass (fXaxis h) i) as [[xlow xhigh]|]; reflexivity.
Qed.

Lemma fold_set_axis (F : TAxis -> Z -> Q) (l : list Z) (h : TH1D) :
  fold_left (fun h i => SetBinContent h i (F (fXaxis h) i)) l h
  = set_bins (F (fXaxis h)) l h.
Proof.
  unfold set_bins. revert h. induction l as [|i l IH]; intro h; simpl; [reflexivity|].
  rewrite IH. now rewrite SetBinContent_axis.
Qed.

Lemma fill_bins_spec (h : TH1D) :
  binxcenters st <> [] -> mass <> 0 ->
  fill_bins Integ st y mass h
  = ret (set_bins (bin_value Integ st y mass (fXaxis h))
           (range 1 (GetNbinsX h + 1)) h).
Proof.
  intros Hx Hm. unfold fill_bins.
  rewrite (for_each_pure _ _
             (fun h i => SetBinContent h i (bin_value Integ st y mass (fXaxis h) i))).
  - now rewrite (fold_set_axis (bin_value Integ st y mass)).
  - intros i h' _. now apply fill_bin_spec.
Qed.

(** A loop that returns has either no bin to fill or a grid and a mass
    that raise nothing. *)
Lemma fill_bins_returns (h h' : TH1D) :
  result (fill_bins Integ st y mass h) = Return h' ->
  GetNbinsX h <= 0 \/ (binxcenters st <> [] /\ mass <> 0).
Proof.
  intro H. destruct (Z.leb_spec (GetNbinsX h) 0) as [Hn|Hn]; [now left|].
  right. unfold fill_bins in H.
  rewrite range_cons in H by lia. simpl in H.
  apply bind_returns in H. destruct H as (h1 & H & _).
  unfold fill_bin in H. apply bind_returns in H. destruct H as (w & H & _).
  unfold bin_window in H; cbv zeta in H.
  apply bind_returns in H. destruct H as (xc & Hdiv & H).
  apply bind_returns in H. destruct H as (x0 & Hidx & _).
  split.
  - intro Hnil. rewrite Hnil in Hidx. discriminate.
  - intros ->. rewrite py_div_zero in Hdiv. discriminate.
Qed.
End BinLoop.

(** ** Sums of rationals, [Integral] and [Scale] *)

Lemma fold_Qplus_acc (l : list Q) (a : Q) :
  (fold_left Qplus l a == a + fold_left Qplus l 0)%Q.
Proof.
  revert a. induction l as [|x l IH]; intro a; simpl.
  - ring.
  - rewrite (IH (a + x)%Q), (IH (0 + x)%Q). ring.
Qed.

Lemma Qsum_cons (x : Q) (l : list Q) :
  (fold_left Qplus (x :: l) 0 == x + fold_left Qplus l 0)%Q.
Proof. simpl. rewrite fold_Qplus_acc. ring. Qed.

Lemma Qsum_snoc (x : Q) (l : list Q) :
  (fold_left Qplus (l ++ [x]) 0 == fold_left Qplus l 0 + x)%Q.
Proof. rewrite fold_left_app. simpl. reflexivity. Qed.

Lemma Qsum_nonneg (l : list Q) :
  (forall x, In x l -> (0 <= x)%Q) -> (0 <= fold_left Qplus l 0)%Q.
Proof.
  induction l as [|x l IH]; intro H; [apply Qle_refl|].
  rewrite Qsum_cons.
  assert (0 <= x)%Q by (apply H; now left).
  assert (0 <= fold_left Qplus l 0)%Q by (apply IH; intros; apply H; now right).
  lra.
Qed.


Lemma Qsum_scale (c : Q) (l : list Q) :
  (fold_left Qplus (map (fun v => c * v) l) 0 == c * fold_left Qplus l 0)%Q.
Proof.
  induction l as [|x l IH]; [simpl; ring|].
  rewrite map_cons, !Qsum_cons, IH. ring.
Qed.

Lemma Scale_axis (h : TH1D) (c : Q) : fXaxis (Scale h c) = fXaxis h.
Proof. reflexivity. Qed.

Lemma Scale_cells (h : TH1D) (c : Q) : fNcells (Scale h c) = fNcells h.
Proof. unfold fNcells, Scale; simpl. now rewrite length_map. Qed.

Lemma GetBinContent_Scale (h : TH1D) (c : Q) (j : Z) :
  0 < fNcells h ->
  GetBinContent (Scale h c) j = (c * GetBinContent h j)%Q.
Proof.
  intro H. unfold GetBinContent. rewrite Scale_cells.
  set (j1 := if j <? 0 then 0 else j).
  set (j2 := if fNcells h <=? j1 then fNcells h - 1 else j1).
  assert (Hj : 0 <= j2 < fNcells h).
  { unfold j2, j1. destruct (Z.ltb_spec j 0);
      [destruct (Z.leb_spec (fNcells h) 0) | destruct (Z.leb_spec (fNcells h) j)]; lia. }
  unfold Scale; simpl. apply nth_map_in_range. unfold fNcells in Hj. lia.
Qed.

Lemma Integral_Scale (h : TH1D) (c : Q) :
  0 < fNcells h -> (Integral (Scale h c) == c * Integral h)%Q.
Proof.
  intro H. unfold Integral, GetNbinsX. rewrite Scale_axis.
  rewrite <- Qsum_scale, map_map.
  rewrite (map_ext _ (fun j => (c * GetBinContent h j)%Q)); [reflexivity|].
  intro j. now apply GetBinContent_Scale.
Qed.

Lemma hist_wf_cells (h : TH1D) : hist_wf h -> 0 < fNcells h.
Proof. intros [H1 H2]. lia. Qed.

Lemma hist_wf_bin (h : TH1D) (i : Z) :
  hist_wf h -> 1 <= i <= GetNbinsX h -> 0 <= i < fNcells h.
Proof. intros [H1 H2] Hi. lia. Qed.

(** ** Lines 114 to 116: normalisation *)

Lemma normalize_positive (h : TH1D) :
  (0 < Integral h)%Q -> normalize h = ret (Scale h (1 / Integral h)).
Proof. intro H. unfold normalize. apply Qltb_true in H. now rewrite H. Qed.

Lemma normalize_degenerate (h : TH1D) :
  (Integral h <= 0)%Q -> normalize h = ret h.
Proof. intro H. unfold normalize. apply Qltb_false in H. now rewrite H. Qed.

Lemma normalize_cases (h : TH1D) :
  ((0 < Integral h)%Q /\ normalize h = ret (Scale h (1 / Integral h))) \/
  ((Integral h <= 0)%Q /\ normalize h = ret h).
Proof.
  destruct (Qlt_le_dec 0 (Integral h)) as [H|H].
  - left. split; [assumption | now apply normalize_positive].
  - right. split; [assumption | now apply normalize_degenerate].
Qed.

Lemma Integral_normalized (h : TH1D) :
  0 < fNcells h -> (0 < Integral h)%Q ->
  (Integral (Scale h (1 / Integral h)) == 1)%Q.
Proof.
  intros Hc H. rewrite Integral_Scale by assumption. field.
  intro H0. rewrite H0 in H. now apply Qlt_irrefl in H.
Qed.

Lemma Forall2_Qeq_scale_one (c : Q) (l : list Q) :
  (c == 1)%Q -> Forall2 Qeq (map (fun v => c * v)%Q l) l.
Proof.
  intro Hc. induction l as [|x l IH]; simpl; constructor; [|assumption].
  rewrite Hc. ring.
Qed.

(** ** [LineShapePDF] as a whole *)

Lemma constructed_grid_nonempty (st : ShapeStorage) :
  constructed st -> binxcenters st <> [].
Proof.
  intros Hc Hnil. destruct (constructed_inv st Hc) as [Hlen Hshape].
  destruct (shapes st) as [|[k v] tl] eqn:E; [simpl in Hlen; lia|].
  destruct (Hshape k v (or_introl eq_refl)) as [Hnorm Hl].
  rewrite Hnil in Hl. destruct v; [|discriminate].
  apply Hnorm. apply Qltb_true. reflexivity.
Qed.

Lemma constructed_sorted_keys (st : ShapeStorage) :
  constructed st ->
  StronglySorted Z.lt (sorted (keys (shapes st))) /\
  (2 <= length (sorted (keys (shapes st))))%nat.
Proof.
  intro Hc. split.
  - apply sorted_lt. apply (constructed_wf st Hc).
  - rewrite (Permutation_length (sorted_perm _)). unfold keys.
    rewrite length_map. apply (constructed_inv st Hc).
Qed.

Lemma two_lowest (st : ShapeStorage) :
  constructed st ->
  exists ml mh rest, sorted (keys (shapes st)) = ml :: mh :: rest /\
    In ml (keys (shapes st)) /\ In mh (keys (shapes st)) /\ ml < mh /\
    forall k, In k (keys (shapes st)) -> k = ml \/ mh <= k.
Proof.
  intro Hc. destruct (constructed_sorted_keys st Hc) as [Hs Hlen].
  pose proof (sorted_In (keys (shapes st))) as Hin.
  destruct (sorted (keys (shapes st))) as [|ml [|mh rest]];
    simpl in Hlen; try lia.
  exists ml, mh, rest.
  apply StronglySorted_inv in Hs. destruct Hs as [Hs Hml].
  apply StronglySorted_inv in Hs. destruct Hs as [_ Hmh].
  rewrite Forall_forall in Hml, Hmh.
  repeat split.
  - apply Hin. now left.
  - apply Hin. right; now left.
  - apply Hml. now left.
  - intros k Hk. apply Hin in Hk. destruct Hk as [<-|[<-|Hk]]; [now left|right; lia|].
    right. specialize (Hmh k Hk). lia.
Qed.

Lemma two_highest (st : ShapeStorage) :
  constructed st ->
  exists ml mh front, sorted (keys (shapes st)) = front ++ [ml; mh] /\
    In ml (keys (shapes st)) /\ In mh (keys (shapes st)) /\ ml < mh /\
    forall k, In k (keys (shapes st)) -> k = mh \/ k <= ml.
Proof.
  intro Hc. destruct (constructed_sorted_keys st Hc) as [Hs Hlen].
  pose proof (sorted_In (keys (shapes st))) as Hin.
  destruct (split_last_two _ Hlen) as (front & ml & mh & Heq).
  rewrite Heq in *. exists ml, mh, front.
  apply StronglySorted_app_inv in Hs. destruct Hs as (_ & Hs & Hfront).
  apply StronglySorted_inv in Hs. destruct Hs as [_ Hml].
  rewrite Forall_forall in Hml.
  repeat split.
  - apply Hin. apply in_or_app. right; now left.
  - apply Hin. apply in_or_app. right; right; now left.
  - apply Hml. now left.
  - intros k Hk. apply Hin in Hk. apply in_app_or in Hk.
    destruct Hk as [Hk|[<-|[<-|[]]]]; [|right; lia|now left].
    right. assert (k < ml); [|lia]. apply Hfront; [assumption | now left].
Qed.

(** The curve exists at every target mass. *)
Lemma interpolate_total (st : ShapeStorage) (mass : Z) :
  constructed st ->
  exists out y, interpolate st mass = mkPy out (Return y) /\
                length y = length (binxcenters st).
Proof.
  intro Hc. destruct (dict_find (shapes st) mass) as [v|] eqn:Hfind.
  - exists [], v. split; [now apply interpolate_known|].
    apply (proj2 (constructed_inv st Hc) mass v). now apply dict_find_Some_In.
  - pose proof (dict_find_None_keys _ _ Hfind) as Hnotin.
    destruct (two_lowest st Hc) as (l0 & l1 & rest & Hlow & Hl0 & Hl1 & Hl01 & Hlowest).
    destruct (two_highest st Hc) as (h0 & h1 & front & Hhigh & Hh0 & Hh1 & Hh01 & Hhighest).
    assert (Hcase : mass < l0 \/ h1 < mass \/ l0 < mass < h1).
    { assert (mass <> l0) by (intros ->; contradiction).
      assert (mass <> h1) by (intros ->; contradiction). lia. }
    destruct Hcase as [Hlt|[Hgt|Hmid]].
    + destruct (interpolate_blend st mass l0 l1 [WarnExtrapolateBelow] Hc Hfind)
        as (yl & yh & y & _ & _ & Hy & Hlen & _);
        [now apply (bracket_below st mass l0 l1 rest) | assumption | assumption | lia |].
      eauto.
    + destruct (interpolate_blend st mass h0 h1 [WarnExtrapolateAbove] Hc Hfind)
        as (yl & yh & y & _ & _ & Hy & Hlen & _);
        [now apply (bracket_above st mass h0 h1 front) | assumption | assumption | lia |].
      eauto.
    + destruct (bracket_inside st mass l0 h1 Hl0 Hh1 Hmid)
        as (ml & mh & Hbr & Hml & Hmllt & _ & Hmh & Hmhlt & _).
      destruct (interpolate_blend st mass ml mh [] Hc Hfind Hbr Hml Hmh)
        as (yl & yh & y & _ & _ & Hy & Hlen & _); [lia|].
      eauto.
Qed.

Section WholeFunction.
Variable Integ : list Q -> list Q -> Q -> Q -> Q.

(** The histogram after the bin loop and before the normalisation. *)
Lemma LineShapePDF_spec (st : ShapeStorage) (mass : Z) (h : TH1D)
    (out : list message) (y : ndarray) :
  interpolate st mass = mkPy out (Return y) ->
  binxcenters st <> [] -> mass <> 0 ->
  LineShapePDF Integ st mass h
  = mkPy out (result (normalize
       (set_bins (bin_value Integ st y mass (fXaxis h))
          (range 1 (GetNbinsX h + 1)) h))).
Proof.
  intros Hy Hx Hm. unfold LineShapePDF.
  rewrite Hy, bind_returned, fill_bins_spec, bind_ret_l by assumption.
  destruct (normalize_cases
              (set_bins (bin_value Integ st y mass (fXaxis h))
                 (range 1 (GetNbinsX h + 1)) h)) as [[_ ->]|[_ ->]];
    simpl; now rewrite app_nil_r.
Qed.

Lemma LineShapePDF_total (st : ShapeStorage) (mass : Z) (h : TH1D) :
  constructed st -> mass <> 0 ->
  exists out y h1 h',
    interpolate st mass = mkPy out (Return y) /\
    fill_bins Integ st y mass h = ret h1 /\
    normalize h1 = ret h' /\
    LineShapePDF Integ st mass h = mkPy out (Return h').
Proof.
  intros Hc Hm. pose proof (constructed_grid_nonempty st Hc) as Hx.
  destruct (interpolate_total st mass Hc) as (out & y & Hy & _).
  set (h1 := set_bins (bin_value Integ st y mass (fXaxis h))
               (range 1 (GetNbinsX h + 1)) h).
  assert (Hn : exists h', normalize h1 = ret h').
  { destruct (normalize_cases h1) as [[_ Hn]|[_ Hn]]; eauto. }
  destruct Hn as [h' Hn].
  exists out, y, h1, h'. repeat split; try assumption.
  - now apply fill_bins_spec.
  - rewrite (LineShapePDF_spec st mass h out y) by assumption.
    fold h1. now rewrite Hn.
Qed.
End WholeFunction.

(** C6: for a storage that the constructor returned, a target mass below
    every known mass is blended from the two lowest known masses [ml < mh]
    and a target mass above every known mass from the two highest, with
    the formula of the interior case:
    [y[i] = yl[i] + (yh[i] - yl[i]) * (m - ml) / (mh - ml)] in every bin of
    the grid; one warning is printed and both the curve and the whole of
    [LineShapePDF] return normally.  For the two shapes of the scenario the
    curve at 500 is 0.05, 0.3, 0.65 and the curve at 2500 is
    0.65, 0.3, 0.05, each with its warning. *)
Theorem extrapolate_outside_known_masses :
  (forall (st : ShapeStorage) (mass : Z),
     constructed st ->
     ((forall k, In k (keys (shapes st)) -> mass < k) ->
      exists ml mh yl yh y,
        In (ml, yl) (shapes st) /\ In (mh, yh) (shapes st) /\ ml < mh /\
        (forall k, In k (keys (shapes st)) -> k = ml \/ mh <= k) /\
        interpolate st mass = mkPy [WarnExtrapolateBelow] (Return y) /\
        length y = length (binxcenters st) /\
        (forall i, (i < length y)%nat ->
           (nth i y 0 == nth i yl 0 + (nth i yh 0 - nth i yl 0)
                          * (inject_Z (mass - ml) / inject_Z (mh - ml)))%Q) /\
        (forall Integ h, mass <> 0 ->
           exists h', LineShapePDF Integ st mass h
                      = mkPy [WarnExtrapolateBelow] (Return h')))
     /\
     ((forall k, In k (keys (shapes st)) -> k < mass) ->
      exists ml mh yl yh y,
        In (ml, yl) (shapes st) /\ In (mh, yh) (shapes st) /\ ml < mh /\
        (forall k, In k (keys (shapes st)) -> k = mh \/ k <= ml) /\
        interpolate st mass = mkPy [WarnExtrapolateAbove] (Return y) /\
        length y = length (binxcenters st) /\
        (forall i, (i < length y)%nat ->
           (nth i y 0 == nth i yl 0 + (nth i yh 0 - nth i yl 0)
                          * (inject_Z (mass - ml) / inject_Z (mh - ml)))%Q) /\
        (forall Integ h, mass <> 0 ->
           exists h', LineShapePDF Integ st mass h
                      = mkPy [WarnExtrapolateAbove] (Return h'))))
  /\
  (exists y, interpolate ex_storage 500 = mkPy [WarnExtrapolateBelow] (Return y) /\
             Forall2 Qeq y [5 # 100; 3 # 10; 65 # 100]%Q)
  /\
  (exists y, interpolate ex_storage 2500 = mkPy [WarnExtrapolateAbove] (Return y) /\
             Forall2 Qeq y [65 # 100; 3 # 10; 5 # 100]%Q).
Proof.
  split; [|split].
  - intros st mass Hc. pose proof (constructed_grid_nonempty st Hc) as Hx.
    assert (Hrun : forall out y Integ h, interpolate st mass = mkPy out (Return y) ->
              mass <> 0 -> exists h', LineShapePDF Integ st mass h = mkPy out (Return h')).
    { intros out y Integ h Hy Hm.
      rewrite (LineShapePDF_spec Integ st mass h out y) by assumption.
      match goal with |- context [normalize ?h1] =>
        destruct (normalize_cases h1) as [[_ ->]|[_ ->]] end; simpl; eauto. }
    split; intro Hout.
    + destruct (two_lowest st Hc) as (ml & mh & rest & Hks & Hml & Hmh & Hlt & Hlow).
      assert (Hnone : dict_find (shapes st) mass = None).
      { destruct (dict_find (shapes st) mass) as [v|] eqn:E; [|reflexivity].
        apply dict_find_Some_In, (in_map fst) in E. specialize (Hout _ E).
        simpl in Hout. lia. }
      destruct (interpolate_blend st mass ml mh [WarnExtrapolateBelow] Hc Hnone)
        as (yl & yh & y & Hinl & Hinh & Hy & Hlen & Hnth); try assumption; [|lia|].
      { apply (bracket_below st mass ml mh rest Hks). now apply Hout. }
      exists ml, mh, yl, yh, y.
      split; [exact Hinl|]. split; [exact Hinh|]. split; [exact Hlt|].
      split; [exact Hlow|]. split; [exact Hy|]. split; [exact Hlen|].
      split; [exact Hnth|].
      intros Integ h Hm. now apply (Hrun _ y).
    + destruct (two_highest st Hc) as (ml & mh & front & Hks & Hml & Hmh & Hlt & Hhigh).
      assert (Hnone : dict_find (shapes st) mass = None).
      { destruct (dict_find (shapes st) mass) as [v|] eqn:E; [|reflexivity].
        apply dict_find_Some_In, (in_map fst) in E. specialize (Hout _ E).
        simpl in Hout. lia. }
      destruct (interpolate_blend st mass ml mh [WarnExtrapolateAbove] Hc Hnone)
        as (yl & yh & y & Hinl & Hinh & Hy & Hlen & Hnth); try assumption; [|lia|].
      { apply (bracket_above st mass ml mh front Hks). now apply Hout. }
      exists ml, mh, yl, yh, y.
      split; [exact Hinl|]. split; [exact Hinh|]. split; [exact Hlt|].
      split; [exact Hhigh|]. split; [exact Hy|]. split; [exact Hlen|].
      split; [exact Hnth|].
      intros Integ h Hm. now apply (Hrun _ y).
  - eexists. split; [reflexivity|].
    repeat constructor; reflexivity.
  - eexists. split; [reflexivity|].
    repeat constructor; reflexivity.
Qed.

(** The scenario of C6 through the general statement: mass 500 is
    extrapolated from the pair 1000, 2000 with the warning, on the three
    points of the grid, to the curve 0.05, 0.3, 0.65; mass 2500 on the other
    side to 0.65, 0.3, 0.05. *)
Lemma extrapolate_outside_known_masses_witness :
  (exists yl yh y,
     In (1000, yl) ex_shapes /\ In (2000, yh) ex_shapes /\
     interpolate ex_storage 500 = mkPy [WarnExtrapolateBelow] (Return y) /\
     length y = length ex_centers /\
     Forall2 Qeq y [5 # 100; 3 # 10; 65 # 100]%Q /\
     (forall i, (i < length y)%nat ->
        (nth i y 0 == nth i yl 0 + (nth i yh 0 - nth i yl 0)
                       * (inject_Z (500 - 1000) / inject_Z (2000 - 1000)))%Q) /\
     (forall Integ h,
        exists h', LineShapePDF Integ ex_storage 500 h
                   = mkPy [WarnExtrapolateBelow] (Return h')))
  /\
  (exists yl yh y,
     In (1000, yl) ex_shapes /\ In (2000, yh) ex_shapes /\
     interpolate ex_storage 2500 = mkPy [WarnExtrapolateAbove] (Return y) /\
     length y = length ex_centers /\
     Forall2 Qeq y [65 # 100; 3 # 10; 5 # 100]%Q /\
     (forall i, (i < length y)%nat ->
        (nth i y 0 == nth i yl 0 + (nth i yh 0 - nth i yl 0)
                       * (inject_Z (2500 - 1000) / inject_Z (2000 - 1000)))%Q) /\
     (forall Integ h,
        exists h', LineShapePDF Integ ex_storage 2500 h
                   = mkPy [WarnExtrapolateAbove] (Return h'))).
Proof.
  split.
  - destruct (proj1 (proj1 extrapolate_outside_known_masses
                       ex_storage 500 ex_storage_constructed))
      as (ml & mh & yl & yh & y & Hl & Hh & Hlt & _ & Hy & Hlen & Hf & Hrun).
    { simpl. intros k [<-|[<-|[]]]; lia. }
    assert (Hpair : ml = 1000 /\ mh = 2000).
    { simpl in Hl, Hh.
      destruct Hl as [Hl|[Hl|[]]]; destruct Hh as [Hh|[Hh|[]]];
        injection Hl as <- _; injection Hh as <- _; lia. }
    destruct Hpair as [-> ->].
    exists yl, yh, y.
    split; [exact Hl|]. split; [exact Hh|]. split; [exact Hy|].
    split; [exact Hlen|]. split.
    { pose proof Hy as Hy'. vm_compute in Hy'. injection Hy' as <-.
      repeat constructor; reflexivity. }
    split; [exact Hf|].
    intros Integ h. apply Hrun. lia.
  - destruct (proj2 (proj1 extrapolate_outside_known_masses
                       ex_storage 2500 ex_storage_constructed))
      as (ml & mh & yl & yh & y & Hl & Hh & Hlt & _ & Hy & Hlen & Hf & Hrun).
    { simpl. intros k [<-|[<-|[]]]; lia. }
    assert (Hpair : ml = 1000 /\ mh = 2000).
    { simpl in Hl, Hh.
      destruct Hl as [Hl|[Hl|[]]]; destruct Hh as [Hh|[Hh|[]]];
        injection Hl as <- _; injection Hh as <- _; lia. }
    destruct Hpair as [-> ->].
    exists yl, yh, y.
    split; [exact Hl|]. split; [exact Hh|]. split; [exact Hy|].
    split; [exact Hlen|]. split.
    { pose proof Hy as Hy'. vm_compute in Hy'. injection Hy' as <-.
      repeat constructor; reflexivity. }
    split; [exact Hf|].
    intros Integ h. apply Hrun. lia.
Defined.

Lemma floor0_cases (v : Q) :
  ((0 <= v)%Q /\ floor0 v = v) \/ ((v < 0)%Q /\ floor0 v = 0%Q).
Proof.
  unfold floor0. destruct (Qle_bool 0 v) eqn:E.
  - left. split; [now apply Qle_bool_iff | reflexivity].
  - right. split; [|reflexivity]. apply Qnot_le_lt. intro H.
    apply Qle_bool_iff in H. congruence.
Qed.

Lemma floor0_nonneg (v : Q) : (0 <= floor0 v)%Q.
Proof. destruct (floor0_cases v) as [[H ->]|[_ ->]]; [assumption | apply Qle_refl]. Qed.

Lemma bin_value_nonneg Integ st y mass a i : (0 <= bin_value Integ st y mass a i)%Q.
Proof.
  unfold bin_value; cbv zeta.
  destruct (ratio_window _ _ mass a i) as [[xlow xhigh]|];
    [apply floor0_nonneg | apply Qle_refl].
Qed.

(** The bins after the loop of line 103. *)
Lemma filled_bin Integ st y mass h i :
  hist_wf h -> 1 <= i <= GetNbinsX h ->
  GetBinContent
    (set_bins (bin_value Integ st y mass (fXaxis h)) (range 1 (GetNbinsX h + 1)) h) i
  = bin_value Integ st y mass (fXaxis h) i.
Proof.
  intros Hwf Hi. apply set_bins_In; [now apply hist_wf_bin|].
  apply In_range. lia.
Qed.

Lemma set_bins_nbins f l h : GetNbinsX (set_bins f l h) = GetNbinsX h.
Proof. unfold GetNbinsX. now rewrite set_bins_axis. Qed.

Lemma set_bins_wf f l h : hist_wf h -> hist_wf (set_bins f l h).
Proof. unfold hist_wf. now rewrite set_bins_nbins, set_bins_cells. Qed.

(** C5 (amended): with [T] the sum of the bins, for [T > 0] every cell is
    multiplied by [1 / T] and the new sum is 1; for [T <= 0] the histogram
    comes back as it was; in both cases the step returns and prints
    nothing, so a degenerate total raises no warning.  With [T = 1] every
    cell keeps its value. *)
Theorem normalize_rescales_or_keeps (h : TH1D) :
  hist_wf h ->
  ((0 < Integral h)%Q ->
     normalize h = mkPy [] (Return (Scale h (1 / Integral h))) /\
     (forall j, GetBinContent (Scale h (1 / Integral h)) j
                = (1 / Integral h * GetBinContent h j)%Q) /\
     (Integral (Scale h (1 / Integral h)) == 1)%Q)
  /\
  ((Integral h <= 0)%Q -> normalize h = mkPy [] (Return h))
  /\
  ((Integral h == 1)%Q ->
     exists h', normalize h = mkPy [] (Return h') /\
                fXaxis h' = fXaxis h /\ Forall2 Qeq (fArray h') (fArray h)).
Proof.
  intro Hwf. pose proof (hist_wf_cells h Hwf) as Hc. repeat split.
  - now apply normalize_positive.
  - intro j. now apply GetBinContent_Scale.
  - now apply Integral_normalized.
  - now apply normalize_degenerate.
  - intro H1. exists (Scale h (1 / Integral h)). repeat split.
    + apply normalize_positive. rewrite H1. reflexivity.
    + simpl. apply Forall2_Qeq_scale_one. rewrite H1. reflexivity.
Qed.

Lemma ex_unit_hist_wf : hist_wf ex_unit_hist.
Proof. split; [unfold GetNbinsX; simpl; lia | reflexivity]. Qed.

Lemma ex_far_hist_wf : hist_wf ex_far_hist.
Proof. split; [unfold GetNbinsX; simpl; lia | reflexivity]. Qed.

Lemma ex_hist_wf : hist_wf ex_hist.
Proof. split; [unfold GetNbinsX; simpl; lia | reflexivity]. Qed.

Lemma normalize_rescales_or_keeps_witness :
  (normalize ex_unit_hist = mkPy [] (Return (Scale ex_unit_hist (1 / Integral ex_unit_hist))) /\
   (forall j, GetBinContent (Scale ex_unit_hist (1 / Integral ex_unit_hist)) j
              = (1 / Integral ex_unit_hist * GetBinContent ex_unit_hist j)%Q) /\
   (Integral (Scale ex_unit_hist (1 / Integral ex_unit_hist)) == 1)%Q)
  /\ normalize ex_far_hist = mkPy [] (Return ex_far_hist)
  /\ (exists h', normalize ex_unit_hist = mkPy [] (Return h') /\
                 fXaxis h' = fXaxis ex_unit_hist /\
                 Forall2 Qeq (fArray h') (fArray ex_unit_hist)).
Proof.
  split; [|split].
  - apply (proj1 (normalize_rescales_or_keeps ex_unit_hist ex_unit_hist_wf)).
    reflexivity.
  - apply (proj1 (proj2 (normalize_rescales_or_keeps ex_far_hist ex_far_hist_wf))).
    discriminate.
  - apply (proj2 (proj2 (normalize_rescales_or_keeps ex_unit_hist ex_unit_hist_wf))).
    reflexivity.
Defined.

(** C5, the warning: at mass 1500 the one bin from 2000 to 3000 lies beyond
    the grid, the total is 0, and [LineShapePDF] returns the histogram
    unscaled with an empty output: no warning is printed. *)
Lemma normalize_degenerate_silent_cex :
  (Integral ex_far_hist <= 0)%Q /\
  stdout (normalize ex_far_hist) = [] /\
  LineShapePDF ex_Integ ex_storage 1500 ex_far_hist = mkPy [] (Return ex_far_hist).
Proof.
  split; [discriminate|]. split; reflexivity.
Qed.

(** C4: with a grid that is not empty (as in every constructed storage)
    and a mass other than 0, the bin loop returns, and every bin [i] of its
    histogram is at least 0: it is 0 where the bin has no window, and
    otherwise the integral [I] of the curve over the clamped window, or 0
    when [I] is negative. *)
Theorem fill_bins_nonnegative Integ (st : ShapeStorage) (y : ndarray) (mass : Z) (h : TH1D) :
  hist_wf h -> binxcenters st <> [] -> mass <> 0 ->
  exists h',
    fill_bins Integ st y mass h = mkPy [] (Return h') /\
    GetNbinsX h' = GetNbinsX h /\
    forall i, 1 <= i <= GetNbinsX h ->
      (0 <= GetBinContent h' i)%Q /\
      ((bin_window st mass h i = mkPy [] (Return None) /\ GetBinContent h' i = 0%Q)
       \/
       exists xlow xhigh,
         bin_window st mass h i = mkPy [] (Return (Some (xlow, xhigh))) /\
         let I := Integ (binxcenters st) y xlow xhigh in
         ((0 <= I)%Q /\ GetBinContent h' i = I) \/
         ((I < 0)%Q /\ GetBinContent h' i = 0%Q)).
Proof.
  intros Hwf Hx Hm. eexists. split; [now apply fill_bins_spec|].
  split; [apply set_bins_nbins|].
  intros i Hi. rewrite filled_bin by assumption.
  split; [apply bin_value_nonneg|].
  rewrite bin_window_spec by assumption. unfold bin_value; cbv zeta.
  destruct (ratio_window _ _ mass (fXaxis h) i) as [[xlow xhigh]|].
  - right. exists xlow, xhigh. split; [reflexivity|]. cbv zeta.
    apply floor0_cases.
  - left. split; reflexivity.
Qed.

Lemma fill_bins_nonnegative_witness :
  exists h',
    fill_bins ex_Integ ex_storage [35 # 100; 3 # 10; 35 # 100]%Q 1500 ex_hist
      = mkPy [] (Return h') /\
    GetNbinsX h' = GetNbinsX ex_hist /\
    forall i, 1 <= i <= GetNbinsX ex_hist ->
      (0 <= GetBinContent h' i)%Q /\
      ((bin_window ex_storage 1500 ex_hist i = mkPy [] (Return None) /\
        GetBinContent h' i = 0%Q)
       \/
       exists xlow xhigh,
         bin_window ex_storage 1500 ex_hist i = mkPy [] (Return (Some (xlow, xhigh))) /\
         let I := ex_Integ (binxcenters ex_storage) [35 # 100; 3 # 10; 35 # 100]%Q xlow xhigh in
         ((0 <= I)%Q /\ GetBinContent h' i = I) \/
         ((I < 0)%Q /\ GetBinContent h' i = 0%Q)).
Proof.
  apply (fill_bins_nonnegative ex_Integ ex_storage _ 1500 ex_hist).
  - exact ex_hist_wf.
  - discriminate.
  - lia.
Defined.

(** ** The domain test of line 105 *)

Lemma inject_Z_pred (i : Z) : (inject_Z (i - 1) == inject_Z i - 1)%Q.
Proof. unfold Qeq; simpl. lia. Qed.

(** On either kind of axis the centre of a bin is the midpoint of its
    edges. *)
Lemma axis_center_midpoint (a : TAxis) (i : Z) :
  (Axis_GetBinCenter a i == (Axis_GetBinLowEdge a i + Axis_GetBinUpEdge a i) * half)%Q.
Proof.
  unfold Axis_GetBinCenter, Axis_GetBinLowEdge, Axis_GetBinUpEdge, half; cbv zeta.
  destruct (is_fix a); simpl negb; simpl andb; simpl orb; cbv iota.
  - rewrite inject_Z_pred. field.
  - destruct (Z.ltb_spec i 1); destruct (Z.ltb_spec 0 i); try lia;
      simpl andb; simpl orb; cbv iota.
    + rewrite inject_Z_pred. field.
    + destruct (Z.ltb_spec (fNbins a) i); destruct (Z.leb_spec i (fNbins a));
        try lia; cbv iota.
      * rewrite inject_Z_pred. field.
      * field.
Qed.

Lemma ratio_window_inside (x_first x_last : Q) (mass : Z) (a : TAxis) (i : Z) :
  (x_first < Axis_GetBinCenter a i / inject_Z mass)%Q ->
  (Axis_GetBinCenter a i / inject_Z mass < x_last)%Q ->
  ratio_window x_first x_last mass a i
  = Some (raise_to x_first (Axis_GetBinLowEdge a i / inject_Z mass),
          lower_to x_last (Axis_GetBinUpEdge a i / inject_Z mass)).
Proof.
  intros H1 H2. unfold ratio_window; cbv zeta.
  apply Qltb_true in H1, H2. now rewrite H1, H2.
Qed.

Lemma ratio_window_not_inside (x_first x_last : Q) (mass : Z) (a : TAxis) (i : Z) :
  ~ ((x_first < Axis_GetBinCenter a i / inject_Z mass)%Q /\
     (Axis_GetBinCenter a i / inject_Z mass < x_last)%Q) ->
  ratio_window x_first x_last mass a i = None.
Proof.
  intro H. unfold ratio_window; cbv zeta.
  destruct (Qltb x_first _) eqn:E1; [|reflexivity].
  destruct (Qltb _ x_last) eqn:E2; [|reflexivity].
  exfalso. apply H. split; now apply Qltb_true.
Qed.

Lemma ratio_window_beyond (x_first x_last : Q) (mass : Z) (a : TAxis) (i : Z) :
  mass <> 0 ->
  ((Axis_GetBinLowEdge a i / inject_Z mass < x_first)%Q /\
   (Axis_GetBinUpEdge a i / inject_Z mass < x_first)%Q) \/
  ((x_last < Axis_GetBinLowEdge a i / inject_Z mass)%Q /\
   (x_last < Axis_GetBinUpEdge a i / inject_Z mass)%Q) ->
  ratio_window x_first x_last mass a i = None.
Proof.
  intros Hm H. apply ratio_window_not_inside.
  assert (Hmid : (Axis_GetBinCenter a i / inject_Z mass
                  == (Axis_GetBinLowEdge a i / inject_Z mass
                      + Axis_GetBinUpEdge a i / inject_Z mass) * half)%Q).
  { rewrite axis_center_midpoint. unfold half. field.
    intro H0. change 0%Q with (inject_Z 0) in H0.
    apply (proj1 (inject_Z_injective _ _)) in H0. contradiction. }
  rewrite Hmid. unfold half. intros [H1 H2].
  destruct H as [[Ha Hb]|[Ha Hb]]; lra.
Qed.

Lemma LineShapePDF_returns Integ st mass h h' :
  result (LineShapePDF Integ st mass h) = Return h' ->
  exists y h1, result (interpolate st mass) = Return y /\
               result (fill_bins Integ st y mass h) = Return h1 /\
               result (normalize h1) = Return h'.
Proof.
  intro H. unfold LineShapePDF in H.
  apply bind_returns in H. destruct H as (y & Hy & H).
  apply bind_returns in H. destruct H as (h1 & Hh1 & H).
  eauto.
Qed.

Lemma ret_returns {A} (a b : A) : result (ret a) = Return b -> a = b.
Proof. simpl. congruence. Qed.

(** C3: for a bin [i] of the target histogram, with [xcenter] the bin
    centre divided by the mass and [x_first], [x_last] the ends of the
    grid.  When [xcenter] is not inside the open interval from [x_first]
    to [x_last] the bin has no window (no integral is taken, whatever the
    integrator) and is set to 0.  Otherwise the window is the pair of bin
    edges divided by the mass, the lower one raised to [x_first] and the
    upper one lowered to [x_last], and the bin is set from the integral
    over it.  A bin whose two ratio edges lie both below [x_first] or both
    above [x_last] holds 0 after the loop and after the normalisation. *)
Theorem bin_outside_grid_is_zero Integ (st : ShapeStorage) (y : ndarray)
    (mass : Z) (h : TH1D) (i : Z) :
  hist_wf h -> binxcenters st <> [] -> mass <> 0 -> 1 <= i <= GetNbinsX h ->
  let x_first := hd 0%Q (binxcenters st) in
  let x_last := last (binxcenters st) 0%Q in
  let xcenter := (GetBinCenter h i / inject_Z mass)%Q in
  let xlow := (GetBinLowEdge h i / inject_Z mass)%Q in
  let xhigh := (GetBinUpEdge h i / inject_Z mass)%Q in
  (~ ((x_first < xcenter)%Q /\ (xcenter < x_last)%Q) ->
     bin_window st mass h i = mkPy [] (Return None) /\
     fill_bin Integ st y mass i h = mkPy [] (Return (SetBinContent h i 0)) /\
     GetBinContent (SetBinContent h i 0) i = 0%Q)
  /\
  ((x_first < xcenter)%Q /\ (xcenter < x_last)%Q ->
     bin_window st mass h i
       = mkPy [] (Return (Some (raise_to x_first xlow, lower_to x_last xhigh))) /\
     fill_bin Integ st y mass i h
       = mkPy [] (Return (SetBinContent h i
            (floor0 (Integ (binxcenters st) y
                       (raise_to x_first xlow) (lower_to x_last xhigh))))))
  /\
  (((xlow < x_first)%Q /\ (xhigh < x_first)%Q) \/
   ((x_last < xlow)%Q /\ (x_last < xhigh)%Q) ->
     (forall h1, result (fill_bins Integ st y mass h) = Return h1 ->
                 GetBinContent h1 i = 0%Q) /\
     (forall h', result (LineShapePDF Integ st mass h) = Return h' ->
                 (GetBinContent h' i == 0)%Q)).
Proof.
  intros Hwf Hx Hm Hi x_first x_last xcenter xlow xhigh.
  pose proof (hist_wf_bin h i Hwf Hi) as Hcell.
  split; [|split].
  - intro Hout.
    pose proof (ratio_window_not_inside x_first x_last mass (fXaxis h) i Hout) as Hw.
    split; [|split].
    + rewrite bin_window_spec by assumption. fold x_first x_last. now rewrite Hw.
    + rewrite fill_bin_spec by assumption. unfold bin_value; cbv zeta.
      fold x_first x_last. now rewrite Hw.
    + now apply GetBinContent_set_eq.
  - intros [H1 H2].
    pose proof (ratio_window_inside x_first x_last mass (fXaxis h) i H1 H2) as Hw.
    split.
    + rewrite bin_window_spec by assumption. fold x_first x_last. now rewrite Hw.
    + rewrite fill_bin_spec by assumption. unfold bin_value; cbv zeta.
      fold x_first x_last. now rewrite Hw.
  - intro Hbeyond.
    pose proof (ratio_window_beyond x_first x_last mass (fXaxis h) i Hm Hbeyond) as Hw.
    assert (Hzero : forall y1, bin_value Integ st y1 mass (fXaxis h) i = 0%Q).
    { intro y1. unfold bin_value; cbv zeta. fold x_first x_last. now rewrite Hw. }
    split.
    + intros h1 Hh1. rewrite fill_bins_spec in Hh1 by assumption.
      apply ret_returns in Hh1. subst h1.
      rewrite filled_bin by assumption. apply Hzero.
    + intros h' Hh'. apply LineShapePDF_returns in Hh'.
      destruct Hh' as (y1 & h1 & _ & Hh1 & Hn).
      rewrite fill_bins_spec in Hh1 by assumption.
      apply ret_returns in Hh1.
      assert (Hc1 : GetBinContent h1 i = 0%Q).
      { subst h1. rewrite filled_bin by assumption. apply Hzero. }
      assert (Hcells : 0 < fNcells h1).
      { subst h1. rewrite set_bins_cells. now apply hist_wf_cells. }
      destruct (normalize_cases h1) as [[_ Hn']|[_ Hn']];
        rewrite Hn' in Hn; apply ret_returns in Hn; subst h'.
      * rewrite GetBinContent_Scale by assumption. rewrite Hc1. ring.
      * rewrite Hc1. reflexivity.
Qed.

(** C3 on the scenario at mass 1500: the bin from 1000 to 2000 has its
    centre at ratio 1 and is set to 0 without a window; the bin from 500
    to 1000 has its centre at ratio 0.5 and is integrated over the clamped
    window; the bin from 2000 to 3000 lies beyond the grid and holds 0. *)
Lemma bin_outside_grid_is_zero_witness :
  (bin_window ex_storage 1500 ex_hist 3 = mkPy [] (Return None) /\
   fill_bin ex_Integ ex_storage [1; 1; 1]%Q 1500 3 ex_hist
     = mkPy [] (Return (SetBinContent ex_hist 3 0)) /\
   GetBinContent (SetBinContent ex_hist 3 0) 3 = 0%Q)
  /\
  (bin_window ex_storage 1500 ex_hist 2
     = mkPy [] (Return (Some
         (raise_to (1 # 10) (GetBinLowEdge ex_hist 2 / inject_Z 1500),
          lower_to (9 # 10) (GetBinUpEdge ex_hist 2 / inject_Z 1500)))) /\
   fill_bin ex_Integ ex_storage [1; 1; 1]%Q 1500 2 ex_hist
     = mkPy [] (Return (SetBinContent ex_hist 2
          (floor0 (ex_Integ ex_centers [1; 1; 1]%Q
             (raise_to (1 # 10) (GetBinLowEdge ex_hist 2 / inject_Z 1500))
             (lower_to (9 # 10) (GetBinUpEdge ex_hist 2 / inject_Z 1500)))))))
  /\
  ((forall h1, result (fill_bins ex_Integ ex_storage [1; 1; 1]%Q 1500 ex_far_hist)
               = Return h1 -> GetBinContent h1 1 = 0%Q) /\
   (forall h', result (LineShapePDF ex_Integ ex_storage 1500 ex_far_hist) = Return h' ->
               (GetBinContent h' 1 == 0)%Q)).
Proof.
  assert (Hx : binxcenters ex_storage <> []) by discriminate.
  assert (Hm : 1500 <> 0) by lia.
  split; [|split].
  - assert (Hi : 1 <= 3 <= GetNbinsX ex_hist) by (unfold GetNbinsX; simpl; lia).
    apply (proj1 (bin_outside_grid_is_zero ex_Integ ex_storage [1; 1; 1]%Q 1500
                    ex_hist 3 ex_hist_wf Hx Hm Hi)).
    intros [_ H]. revert H. apply Qle_not_lt. vm_compute. discriminate.
  - assert (Hi : 1 <= 2 <= GetNbinsX ex_hist) by (unfold GetNbinsX; simpl; lia).
    apply (proj1 (proj2 (bin_outside_grid_is_zero ex_Integ ex_storage [1; 1; 1]%Q 1500
                    ex_hist 2 ex_hist_wf Hx Hm Hi))).
    split; vm_compute; reflexivity.
  - assert (Hi : 1 <= 1 <= GetNbinsX ex_far_hist) by (unfold GetNbinsX; simpl; lia).
    apply (proj2 (proj2 (bin_outside_grid_is_zero ex_Integ ex_storage [1; 1; 1]%Q 1500
                    ex_far_hist 1 ex_far_hist_wf Hx Hm Hi))).
    right. split; vm_compute; reflexivity.
Defined.





(** ** The fine unit grid *)

Lemma Qtrunc_nonneg (q : Q) : (0 <= q)%Q -> Qtrunc q = Qfloor q.
Proof.
  destruct q as [n d]. unfold Qle, Qtrunc, Qfloor; simpl. intro H.
  apply Z.quot_div_nonneg; lia.
Qed.

Lemma Qfloor_unique (q : Q) (k : Z) :
  (inject_Z k <= q)%Q -> (q < inject_Z (k + 1))%Q -> Qfloor q = k.
Proof.
  intros Hlo Hhi.
  assert (H1 : k <= Qfloor q).
  { rewrite <- (Qfloor_Z k). now apply Qfloor_resp_le. }
  assert (H2 : Qfloor q < k + 1).
  { rewrite Zlt_Qlt. eapply Qle_lt_trans; [apply Qfloor_le | exact Hhi]. }
  lia.
Qed.

Lemma inject_Z_nonzero (n : Z) : n <> 0 -> ~ (inject_Z n == 0)%Q.
Proof.
  intros Hn H0. change 0%Q with (inject_Z 0) in H0.
  apply (proj1 (inject_Z_injective _ _)) in H0. contradiction.
Qed.

Lemma unit_grid_axis (n : Z) : fXaxis (unit_grid n) = TAxis_fix n 0 (inject_Z n).
Proof. reflexivity. Qed.

Lemma new_TH1D_wf (a : TAxis) : 0 <= fNbins a -> hist_wf (new_TH1D a).
Proof.
  intro H. split; [exact H|].
  unfold fNcells, GetNbinsX, new_TH1D; simpl. rewrite repeat_length. lia.
Qed.

Lemma unit_grid_wf (n : Z) : 0 <= n -> hist_wf (unit_grid n).
Proof. intro H. now apply new_TH1D_wf. Qed.

Lemma unit_ratio (n : Z) (x : Q) :
  0 < n -> (inject_Z n * (x - 0) / (inject_Z n - 0) == x)%Q.
Proof.
  intro H. field. intro H0.
  apply (inject_Z_nonzero n); [lia | lra].
Qed.

Lemma Axis_FindBin_fix (n : Z) (a b x : Q) :
  Axis_FindBin (TAxis_fix n a b) x
  = if Qltb x a then 0
    else if negb (Qltb x b) then n + 1
    else 1 + Qtrunc (inject_Z n * (x - a) / (b - a)).
Proof. reflexivity. Qed.

(** On the unit grid [FindBin] stays within the cells. *)
Lemma FindBin_unit_range (n : Z) (x : Q) :
  0 < n -> 0 <= Axis_FindBin (TAxis_fix n 0 (inject_Z n)) x <= n + 1.
Proof.
  intro Hn. rewrite Axis_FindBin_fix.
  destruct (Qltb x 0) eqn:E0; [lia|].
  destruct (Qltb x (inject_Z n)) eqn:E1; cbn [negb]; cbv iota; [|lia].
  apply Qltb_false in E0. apply Qltb_true in E1.
  pose proof (unit_ratio n x Hn) as Hr.
  rewrite Qtrunc_nonneg by (rewrite Hr; exact E0).
  rewrite Hr.
  assert (0 <= Qfloor x).
  { rewrite <- (Qfloor_Z 0). now apply Qfloor_resp_le. }
  assert (Qfloor x < n).
  { rewrite Zlt_Qlt. eapply Qle_lt_trans; [apply Qfloor_le | exact E1]. }
  lia.
Qed.

(** The bin of the unit grid that holds [k + 1/2] is bin [k + 1]. *)
Lemma FindBin_unit_half (n k : Z) (x : Q) :
  0 <= k < n -> (x == inject_Z k + half)%Q ->
  Axis_FindBin (TAxis_fix n 0 (inject_Z n)) x = k + 1.
Proof.
  intros Hk Hx. rewrite Axis_FindBin_fix.
  assert (Hk0 : (inject_Z 0 <= inject_Z k)%Q) by (rewrite <- Zle_Qle; lia).
  assert (Hk1 : (inject_Z (k + 1) <= inject_Z n)%Q) by (rewrite <- Zle_Qle; lia).
  assert (Hk2 : (inject_Z (k + 1) == inject_Z k + 1)%Q) by (unfold Qeq; simpl; lia).
  change (inject_Z 0) with 0%Q in Hk0. unfold half in Hx.
  assert (E0 : Qltb x 0 = false) by (apply Qltb_false; lra).
  assert (E1 : Qltb x (inject_Z n) = true) by (apply Qltb_true; lra).
  rewrite E0, E1. cbn [negb]; cbv iota.
  pose proof (unit_ratio n x ltac:(lia)) as Hr.
  rewrite Qtrunc_nonneg by (rewrite Hr; lra).
  rewrite Hr, (Qfloor_unique x k); [lia | lra | lra].
Qed.

Lemma unit_edges (n i : Z) :
  0 < n ->
  (Axis_GetBinLowEdge (TAxis_fix n 0 (inject_Z n)) i + half == inject_Z (i - 1) + half)%Q /\
  (Axis_GetBinUpEdge (TAxis_fix n 0 (inject_Z n)) i - half == inject_Z (i - 1) + half)%Q.
Proof.
  intro Hn.
  assert (Hne : ~ (inject_Z n == 0)%Q) by (apply inject_Z_nonzero; lia).
  unfold Axis_GetBinLowEdge, Axis_GetBinUpEdge, fix_binwidth, TAxis_fix, is_fix, half;
    simpl; cbv iota.
  split.
  - field. exact Hne.
  - rewrite inject_Z_pred. field. exact Hne.
Qed.

(** On the unit grid the window of fine bin [i] is the bin itself. *)
Lemma unit_window (n i : Z) (hp hc : TH1D) :
  0 < n -> 1 <= i <= n ->
  fXaxis hp = TAxis_fix n 0 (inject_Z n) ->
  fXaxis hc = TAxis_fix n 0 (inject_Z n) ->
  fine_min hp hc i = i /\ fine_max hp hc i = i.
Proof.
  intros Hn Hi Hp Hc.
  unfold fine_min, fine_max, FindBin, GetBinLowEdge, GetBinUpEdge.
  rewrite Hp, Hc. destruct (unit_edges n i Hn) as [Hlo Hup].
  split.
  - rewrite (FindBin_unit_half n (i - 1)); [lia | lia | exact Hlo].
  - rewrite (FindBin_unit_half n (i - 1)); [lia | lia | exact Hup].
Qed.

(** ** Lines 250 to 256: the PDF loop *)

Lemma range_app (a b c : Z) : a <= b <= c -> range a c = range a b ++ range b c.
Proof.
  intro H. replace c with (b + Z.of_nat (Z.to_nat (c - b))) by lia.
  induction (Z.to_nat (c - b)) as [|m IH].
  - rewrite Z.add_0_r, (range_empty b b) by lia. now rewrite app_nil_r.
  - replace (b + Z.of_nat (S m)) with (b + Z.of_nat m + 1) by lia.
    rewrite !range_snoc by lia. rewrite IH. now rewrite app_assoc.
Qed.

Lemma pdf_bin_set_bins (h_shape hp hp0 : TH1D) (i : Z) :
  fXaxis hp = fXaxis hp0 ->
  pdf_bin h_shape i hp
  = set_bins (fun _ => pdf_val hp0 h_shape i)
      (range (fine_min hp0 h_shape i) (fine_max hp0 h_shape i + 1)) hp.
Proof.
  intro Ha. unfold pdf_bin, set_bins, pdf_val, pdf_width, fine_min, fine_max, FindBin.
  cbv zeta. now rewrite Ha.
Qed.

Lemma pdf_bin_axis (h_shape hp : TH1D) (i : Z) : fXaxis (pdf_bin h_shape i hp) = fXaxis hp.
Proof. rewrite (pdf_bin_set_bins h_shape hp hp i eq_refl). apply set_bins_axis. Qed.

Lemma pdf_bin_cells (h_shape hp : TH1D) (i : Z) : fNcells (pdf_bin h_shape i hp) = fNcells hp.
Proof. rewrite (pdf_bin_set_bins h_shape hp hp i eq_refl). apply set_bins_cells. Qed.

Lemma pdf_loop_axis (h_shape hp : TH1D) (l : list Z) :
  fXaxis (fold_left (fun h i => pdf_bin h_shape i h) l hp) = fXaxis hp /\
  fNcells (fold_left (fun h i => pdf_bin h_shape i h) l hp) = fNcells hp.
Proof.
  revert hp. induction l as [|i l IH]; intro hp; simpl; [split; reflexivity|].
  destruct (IH (pdf_bin h_shape i hp)) as [-> ->].
  split; [apply pdf_bin_axis | apply pdf_bin_cells].
Qed.

(** Coarse bins whose window does not hold [b] leave fine bin [b] alone. *)
Lemma pdf_loop_untouched (h_shape hp0 hp : TH1D) (l : list Z) (b : Z) :
  fXaxis hp = fXaxis hp0 -> 0 <= b < fNcells hp ->
  (forall k, In k l -> ~ (fine_min hp0 h_shape k <= b <= fine_max hp0 h_shape k)) ->
  GetBinContent (fold_left (fun h i => pdf_bin h_shape i h) l hp) b
  = GetBinContent hp b.
Proof.
  revert hp. induction l as [|i l IH]; intros hp Ha Hb Hout; simpl; [reflexivity|].
  rewrite IH.
  - rewrite (pdf_bin_set_bins h_shape hp hp0 i Ha).
    apply set_bins_notin; [assumption|].
    intro Hin. apply In_range in Hin. apply (Hout i); [now left | lia].
  - now rewrite pdf_bin_axis.
  - now rewrite pdf_bin_cells.
  - intros k Hk. apply Hout. now right.
Qed.

(** C9: with [h_pdf] the fine unit grid, [b_lo] and [b_hi] the fine bins
    that hold the lower edge of coarse bin [i] plus one half and its upper
    edge minus one half, and [width = max(1, b_hi - b_lo + 1)]: right
    after the iteration of the loop for coarse bin [i], every fine bin
    from [b_lo] to [b_hi] holds [content[i] / width]; it still holds that
    value when the loop ends unless the window of a later coarse bin
    covers it too. *)
Theorem pdf_spreads_coarse_bin (h_shape : TH1D) (nfine i b : Z) :
  0 < nfine -> 1 <= i <= GetNbinsX h_shape ->
  let h_pdf := unit_grid nfine in
  let b_lo := FindBin h_pdf (GetBinLowEdge h_shape i + half)%Q in
  let b_hi := FindBin h_pdf (GetBinUpEdge h_shape i - half)%Q in
  let width := Z.max 1 (b_hi - b_lo + 1) in
  b_lo <= b <= b_hi ->
  GetBinContent
    (fold_left (fun h k => pdf_bin h_shape k h) (range 1 (i + 1)) h_pdf) b
  = (GetBinContent h_shape i / inject_Z width)%Q
  /\
  ((forall k, i < k <= GetNbinsX h_shape ->
      ~ (FindBin h_pdf (GetBinLowEdge h_shape k + half)%Q <= b
         <= FindBin h_pdf (GetBinUpEdge h_shape k - half)%Q)) ->
   GetBinContent (fill_pdf h_shape h_pdf) b
   = (GetBinContent h_shape i / inject_Z width)%Q).
Proof.
  intros Hn Hi h_pdf b_lo b_hi width Hb.
  assert (Hcells : fNcells h_pdf = nfine + 2).
  { apply (unit_grid_wf nfine). lia. }
  assert (Hrange : 0 <= b < fNcells h_pdf).
  { pose proof (FindBin_unit_range nfine (GetBinLowEdge h_shape i + half)%Q Hn) as H1.
    pose proof (FindBin_unit_range nfine (GetBinUpEdge h_shape i - half)%Q Hn) as H2.
    pose proof Hb as Hb'. unfold b_lo, b_hi, FindBin, h_pdf in Hb'.
    rewrite unit_grid_axis in Hb'. lia. }
  set (prev := fold_left (fun h k => pdf_bin h_shape k h) (range 1 i) h_pdf).
  destruct (pdf_loop_axis h_shape h_pdf (range 1 i)) as [Hpa Hpc]. fold prev in Hpa, Hpc.
  assert (Hstep : GetBinContent
            (fold_left (fun h k => pdf_bin h_shape k h) (range 1 (i + 1)) h_pdf) b
          = (GetBinContent h_shape i / inject_Z width)%Q).
  { rewrite range_snoc by lia. rewrite fold_left_app. fold prev. simpl fold_left.
    rewrite (pdf_bin_set_bins h_shape prev h_pdf i Hpa).
    rewrite set_bins_In; [reflexivity | now rewrite Hpc |].
    apply In_range. change (b_lo <= b < b_hi + 1). lia. }
  split; [exact Hstep|].
  intro Hlater. unfold fill_pdf.
  rewrite (range_app 1 (i + 1) (GetNbinsX h_shape + 1)) by lia.
  rewrite fold_left_app.
  destruct (pdf_loop_axis h_shape h_pdf (range 1 (i + 1))) as [Hqa Hqc].
  rewrite (pdf_loop_untouched h_shape h_pdf); [exact Hstep | exact Hqa | now rewrite Hqc |].
  intros k Hk. apply In_range in Hk. apply Hlater. lia.
Qed.

(** C9 on a coarse histogram with bins from 1 to 3 and from 3 to 6 and a
    fine grid of 8 unit bins: fine bin 2 lies in the window of coarse bin 1
    and holds its content 1/4 over the width 2. *)
Lemma pdf_spreads_coarse_bin_witness :
  GetBinContent
    (fold_left (fun h k => pdf_bin ex_coarse k h) (range 1 (1 + 1)) (unit_grid 8)) 2
  = (GetBinContent ex_coarse 1 / inject_Z 2)%Q
  /\
  GetBinContent (fill_pdf ex_coarse (unit_grid 8)) 2
  = (GetBinContent ex_coarse 1 / inject_Z 2)%Q.
Proof.
  assert (Hi : 1 <= 1 <= GetNbinsX ex_coarse) by (vm_compute; split; discriminate).
  assert (Hb : FindBin (unit_grid 8) (GetBinLowEdge ex_coarse 1 + half)%Q <= 2
               <= FindBin (unit_grid 8) (GetBinUpEdge ex_coarse 1 - half)%Q)
    by (vm_compute; split; discriminate).
  destruct (pdf_spreads_coarse_bin ex_coarse 8 1 2 eq_refl Hi Hb) as [H1 H2].
  split; [exact H1|]. apply H2.
  intros k Hk. assert (k = 2) by (unfold GetNbinsX in Hk; simpl in Hk; lia). subst k.
  vm_compute. intros [H _]. apply H. reflexivity.
Defined.

(** ** Lines 259 to 266: the CDF loop *)

Lemma list_set_Forall {A} (P : A -> Prop) (l : list A) (n : nat) (v : A) :
  Forall P l -> P v -> Forall P (list_set l n v).
Proof.
  intros Hl Hv. revert n. induction Hl as [|a l Ha Hl IH]; intros [|n]; simpl;
    constructor; auto.
Qed.

Lemma SetBinContent_nonneg (h : TH1D) (i : Z) (v : Q) :
  Forall (Qle 0) (fArray h) -> (0 <= v)%Q ->
  Forall (Qle 0) (fArray (SetBinContent h i v)).
Proof.
  intros Hh Hv. unfold SetBinContent.
  destruct ((i <? 0) || (fNcells h <=? i)); [assumption|].
  simpl. now apply list_set_Forall.
Qed.

Lemma set_bins_nonneg (f : Z -> Q) (l : list Z) (h : TH1D) :
  Forall (Qle 0) (fArray h) -> (forall j, In j l -> (0 <= f j)%Q) ->
  Forall (Qle 0) (fArray (set_bins f l h)).
Proof.
  unfold set_bins. revert h. induction l as [|i l IH]; intros h Hh Hf; simpl; [assumption|].
  apply IH; [|intros; apply Hf; now right].
  apply SetBinContent_nonneg; [assumption | apply Hf; now left].
Qed.

Lemma GetBinContent_nonneg (h : TH1D) (j : Z) :
  Forall (Qle 0) (fArray h) -> (0 <= GetBinContent h j)%Q.
Proof.
  intro Hh. unfold GetBinContent.
  match goal with |- (0 <= nth ?n _ _)%Q =>
    destruct (nth_in_or_default n (fArray h) 0%Q) as [Hin| ->] end;
    [|apply Qle_refl].
  rewrite Forall_forall in Hh. now apply Hh.
Qed.

Lemma pdf_val_nonneg (hp h_shape : TH1D) (i : Z) :
  (0 <= GetBinContent h_shape i)%Q -> (0 <= pdf_val hp h_shape i)%Q.
Proof.
  intro H. unfold pdf_val.
  assert (Hw : (0 < inject_Z (pdf_width hp h_shape i))%Q).
  { change 0%Q with (inject_Z 0). rewrite <- Zlt_Qlt. unfold pdf_width. lia. }
  apply Qle_shift_div_l; [exact Hw|]. lra.
Qed.

Lemma fill_pdf_nonneg (h_shape hp : TH1D) :
  Forall (Qle 0) (fArray hp) ->
  (forall i, 1 <= i <= GetNbinsX h_shape -> (0 <= GetBinContent h_shape i)%Q) ->
  Forall (Qle 0) (fArray (fill_pdf h_shape hp)).
Proof.
  intros Hp Hs. unfold fill_pdf.
  assert (Hl : forall i, In i (range 1 (GetNbinsX h_shape + 1)) ->
                 (0 <= GetBinContent h_shape i)%Q).
  { intros i Hin. apply In_range in Hin. apply Hs. lia. }
  revert hp Hp. induction (range 1 (GetNbinsX h_shape + 1)) as [|i l IH];
    intros hp Hp; simpl; [assumption|].
  apply IH; [intros; apply Hl; now right|].
  rewrite (pdf_bin_set_bins h_shape hp hp i eq_refl).
  apply set_bins_nonneg; [assumption|].
  intros _ _. apply pdf_val_nonneg. apply Hl. now left.
Qed.

Lemma unit_grid_nonneg (n : Z) : Forall (Qle 0) (fArray (unit_grid n)).
Proof.
  apply Forall_forall. intros v Hv. apply repeat_spec in Hv. subst v. apply Qle_refl.
Qed.

Lemma cdf_bin_unit (n i : Z) (hp hc : TH1D) :
  0 < n -> 1 <= i <= n ->
  fXaxis hp = TAxis_fix n 0 (inject_Z n) ->
  fXaxis hc = TAxis_fix n 0 (inject_Z n) ->
  cdf_bin hp i hc
  = SetBinContent hc i (GetBinContent hc (i - 1) + (0 + GetBinContent hp i))%Q.
Proof.
  intros Hn Hi Hp Hc. unfold cdf_bin; cbv zeta.
  destruct (unit_window n i hp hc Hn Hi Hp Hc) as [-> ->].
  rewrite range_cons, range_empty by lia. reflexivity.
Qed.

(** The CDF histogram after the first [m] iterations. *)
Lemma cdf_prefix (n : Z) (hp hc0 : TH1D) (m : nat) :
  0 < n -> Z.of_nat m <= n ->
  fXaxis hp = TAxis_fix n 0 (inject_Z n) ->
  fXaxis hc0 = TAxis_fix n 0 (inject_Z n) ->
  fNcells hc0 = n + 2 ->
  let H := fold_left (fun h i => cdf_bin hp i h) (range 1 (Z.of_nat m + 1)) hc0 in
  fXaxis H = fXaxis hc0 /\ fNcells H = fNcells hc0 /\
  GetBinContent H 0 = GetBinContent hc0 0 /\
  (forall j, 1 <= j <= Z.of_nat m ->
     GetBinContent H j = (GetBinContent H (j - 1) + (0 + GetBinContent hp j))%Q) /\
  (GetBinContent H (Z.of_nat m)
   == GetBinContent hc0 0
      + fold_left Qplus (map (GetBinContent hp) (range 1 (Z.of_nat m + 1))) 0)%Q.
Proof.
  intros Hn Hm Hp Hc Hcells. induction m as [|m IH]; cbv zeta.
  - simpl. repeat split; try reflexivity; [intros; lia | ring].
  - replace (Z.of_nat (S m)) with (Z.of_nat m + 1) by lia.
    rewrite (range_snoc 1 (Z.of_nat m + 1)) by lia.
    rewrite fold_left_app. cbv zeta in IH.
    destruct IH as (Ha & Hc' & H0 & Hstep & Hsum); [lia|].
    set (H := fold_left (fun h i => cdf_bin hp i h) (range 1 (Z.of_nat m + 1)) hc0) in *.
    cbn [fold_left].
    rewrite (cdf_bin_unit n (Z.of_nat m + 1) hp H) by (try lia; congruence).
    set (v := (GetBinContent H (Z.of_nat m + 1 - 1) + (0 + GetBinContent hp (Z.of_nat m + 1)))%Q).
    assert (Hcell : forall j, 0 <= j <= Z.of_nat m + 1 -> 0 <= j < fNcells H) by (intros; lia).
    repeat split.
    + rewrite SetBinContent_axis. exact Ha.
    + rewrite SetBinContent_cells. exact Hc'.
    + rewrite GetBinContent_set_neq by (try apply Hcell; lia). exact H0.
    + intros j Hj. destruct (Z.eq_dec j (Z.of_nat m + 1)) as [->|Hne].
      * rewrite GetBinContent_set_eq by (apply Hcell; lia).
        rewrite GetBinContent_set_neq by (try apply Hcell; lia). reflexivity.
      * rewrite !GetBinContent_set_neq by (try apply Hcell; lia).
        apply Hstep. lia.
    + rewrite GetBinContent_set_eq by (apply Hcell; lia). unfold v.
      replace (Z.of_nat m + 1 - 1) with (Z.of_nat m) by lia.
      rewrite map_app. cbn [map]. rewrite Qsum_snoc, Hsum. ring.
Qed.

Lemma unit_grid_zero (n j : Z) : GetBinContent (unit_grid n) j = 0%Q.
Proof. unfold GetBinContent, unit_grid, TH1D_fix, new_TH1D; simpl fArray. apply nth_repeat. Qed.

(** The histogram that [LineShapePDF] returns has no negative bin. *)
Lemma LineShapePDF_bins_nonneg Integ (st : ShapeStorage) (mass : Z) (h h' : TH1D) :
  hist_wf h -> result (LineShapePDF Integ st mass h) = Return h' ->
  GetNbinsX h' = GetNbinsX h /\
  forall i, 1 <= i <= GetNbinsX h -> (0 <= GetBinContent h' i)%Q.
Proof.
  intros Hwf Hrun. apply LineShapePDF_returns in Hrun.
  destruct Hrun as (y & h1 & _ & Hfill & Hnorm).
  assert (H1 : GetNbinsX h1 = GetNbinsX h /\ 0 < fNcells h1 /\
               forall i, 1 <= i <= GetNbinsX h -> (0 <= GetBinContent h1 i)%Q).
  { destruct (fill_bins_returns Integ st y mass h h1 Hfill) as [Hn|[Hx Hm]].
    - unfold fill_bins in Hfill. rewrite range_empty in Hfill by lia.
      apply ret_returns in Hfill. subst h1.
      repeat split; [now apply hist_wf_cells | intros; lia].
    - rewrite fill_bins_spec in Hfill by assumption.
      apply ret_returns in Hfill. subst h1. repeat split.
      + apply set_bins_nbins.
      + rewrite set_bins_cells. now apply hist_wf_cells.
      + intros i Hi. rewrite filled_bin by assumption. apply bin_value_nonneg. }
  destruct H1 as (Hn1 & Hcells & Hpos).
  destruct (normalize_cases h1) as [[HT Hn]|[_ Hn]];
    rewrite Hn in Hnorm; apply ret_returns in Hnorm; subst h'.
  - split; [exact Hn1|]. intros i Hi.
    rewrite GetBinContent_Scale by assumption.
    apply Qmult_le_0_compat; [|now apply Hpos].
    apply Qle_shift_div_l; [exact HT | lra].
  - split; assumption.
Qed.

(** The CDF of a coarse histogram without negative bins. *)
Lemma cdf_of_nonneg_shape (h_shape : TH1D) (nfine : Z) :
  0 < nfine ->
  (forall i, 1 <= i <= GetNbinsX h_shape -> (0 <= GetBinContent h_shape i)%Q) ->
  let h_pdf := fill_pdf h_shape (unit_grid nfine) in
  let h_cdf := fill_cdf h_pdf (unit_grid nfine) in
  GetBinContent h_cdf 0 = 0%Q /\
  (forall i, 1 <= i <= nfine ->
     (GetBinContent h_cdf (i - 1) <= GetBinContent h_cdf i)%Q) /\
  (GetBinContent h_cdf nfine == Integral h_pdf)%Q.
Proof.
  intros Hn Hpos h_pdf h_cdf.
  destruct (pdf_loop_axis h_shape (unit_grid nfine) (range 1 (GetNbinsX h_shape + 1)))
    as [Hpa _].
  fold (fill_pdf h_shape (unit_grid nfine)) in Hpa. fold h_pdf in Hpa.
  rewrite unit_grid_axis in Hpa.
  assert (Hnn : Forall (Qle 0) (fArray h_pdf)).
  { apply fill_pdf_nonneg; [apply unit_grid_nonneg | exact Hpos]. }
  assert (Hcells : fNcells (unit_grid nfine) = nfine + 2).
  { apply (unit_grid_wf nfine). lia. }
  pose proof (cdf_prefix nfine h_pdf (unit_grid nfine) (Z.to_nat nfine) Hn
                ltac:(lia) Hpa (unit_grid_axis nfine) Hcells) as Hcdf.
  cbv zeta in Hcdf. rewrite Z2Nat.id in Hcdf by lia.
  change (fold_left (fun h i => cdf_bin h_pdf i h) (range 1 (nfine + 1)) (unit_grid nfine))
    with h_cdf in Hcdf.
  destruct Hcdf as (_ & _ & H0 & Hstep & Hsum).
  rewrite unit_grid_zero in H0, Hsum.
  split; [exact H0|]. split.
  - intros i Hi. rewrite (Hstep i Hi).
    pose proof (GetBinContent_nonneg h_pdf i Hnn). lra.
  - rewrite Hsum. unfold Integral, GetNbinsX. rewrite Hpa. simpl fNbins. ring.
Qed.

(** C8: for the histogram [h_shape] that [LineShapePDF] returned and a
    fine unit grid of [nfine] bins ([main] has 14000), the CDF starts from
    0 below the first bin, never decreases from one bin to the next, and
    ends on the sum of the bins of the PDF it was built from. *)
Theorem cdf_nondecreasing Integ (st : ShapeStorage) (mass : Z) (h h_shape : TH1D)
    (nfine : Z) :
  hist_wf h -> 0 < nfine ->
  result (LineShapePDF Integ st mass h) = Return h_shape ->
  let h_pdf := fill_pdf h_shape (unit_grid nfine) in
  let h_cdf := fill_cdf h_pdf (unit_grid nfine) in
  GetBinContent h_cdf 0 = 0%Q /\
  (forall i, 1 <= i <= nfine ->
     (GetBinContent h_cdf i >= GetBinContent h_cdf (i - 1))%Q) /\
  (GetBinContent h_cdf nfine == Integral h_pdf)%Q.
Proof.
  intros Hwf Hn Hrun.
  destruct (LineShapePDF_bins_nonneg Integ st mass h h_shape Hwf Hrun) as [Hnb Hpos].
  apply cdf_of_nonneg_shape; [exact Hn|]. rewrite Hnb. exact Hpos.
Qed.

(** C8 on the scenario: the shape at mass 1500 on three bins, spread on a
    fine grid of 8 unit bins. *)
Lemma cdf_nondecreasing_witness :
  exists h_shape,
    result (LineShapePDF ex_Integ ex_storage 1500 ex_hist) = Return h_shape /\
    let h_pdf := fill_pdf h_shape (unit_grid 8) in
    let h_cdf := fill_cdf h_pdf (unit_grid 8) in
    GetBinContent h_cdf 0 = 0%Q /\
    (forall i, 1 <= i <= 8 ->
       (GetBinContent h_cdf i >= GetBinContent h_cdf (i - 1))%Q) /\
    (GetBinContent h_cdf 8 == Integral h_pdf)%Q.
Proof.
  eexists. split; [vm_compute; reflexivity|].
  apply (cdf_nondecreasing ex_Integ ex_storage 1500 ex_hist _ 8).
  - exact ex_hist_wf.
  - reflexivity.
  - vm_compute; reflexivity.
Defined.

Lemma new_h_shape_wf (fineBinning : bool) : hist_wf (new_h_shape fineBinning).
Proof.
  destruct fineBinning; apply new_TH1D_wf; simpl; lia.
Qed.

Lemma Return_triple_inj {A B C} (a a' : A) (b b' : B) (c c' : C) :
  Return (a, b, c) = Return (a', b', c') -> a = a' /\ b = b' /\ c = c'.
Proof. intro H. injection H. auto. Qed.

(** The same for one mass of [main], with its grid of 14000 unit bins. *)
Corollary shape_pdf_cdf_nondecreasing Integ (storage : ShapeStorage) (mass : Z)
    (fineBinning : bool) (h_shape h_pdf h_cdf : TH1D) :
  result (shape_pdf_cdf Integ storage mass fineBinning)
    = Return (h_shape, h_pdf, h_cdf) ->
  GetBinContent h_cdf 0 = 0%Q /\
  (forall i, 1 <= i <= 14000 ->
     (GetBinContent h_cdf (i - 1) <= GetBinContent h_cdf i)%Q) /\
  (GetBinContent h_cdf 14000 == Integral h_pdf)%Q.
Proof.
  intro Hrun. unfold shape_pdf_cdf in Hrun.
  apply bind_returns in Hrun. destruct Hrun as (hs & Hs & Hret).
  cbv beta zeta in Hret. unfold ret in Hret. cbn [result] in Hret.
  apply Return_triple_inj in Hret. destruct Hret as (E1 & E2 & E3).
  rewrite <- E3, <- E2.
  destruct (LineShapePDF_bins_nonneg Integ storage mass _ hs
              (new_h_shape_wf fineBinning) Hs) as [Hnb Hpos].
  pose proof (cdf_of_nonneg_shape hs 14000) as HH. cbv zeta in HH.
  apply HH; [lia|]. rewrite Hnb. exact Hpos.
Qed.

(** * Further properties of the script *)

(** ** Lines 204 to 208: the mass list *)

Lemma StronglySorted_snoc {A} (R : A -> A -> Prop) (l : list A) (x : A) :
  StronglySorted R l -> Forall (fun y => R y x) l -> StronglySorted R (l ++ [x]).
Proof.
  induction l as [|a l IH]; intros Hs Hall; simpl.
  - repeat constructor.
  - apply StronglySorted_inv in Hs. destruct Hs as [Hs Ha].
    inversion Hall as [|? ? Hax Hall']; subst.
    constructor; [now apply IH|].
    apply Forall_app. split; [assumption | now constructor].
Qed.

Lemma progression_In (a s : Z) (n : nat) (x : Z) :
  In x (map (fun k => a + s * Z.of_nat k) (seq 0 n)) <->
  exists k, 0 <= k < Z.of_nat n /\ x = a + s * k.
Proof.
  rewrite in_map_iff. split.
  - intros (k & <- & Hk). apply in_seq in Hk. exists (Z.of_nat k). split; [lia | reflexivity].
  - intros (k & Hk & ->). exists (Z.to_nat k).
    split; [rewrite Z2Nat.id by lia; reflexivity|].
    apply in_seq. lia.
Qed.

Lemma progression_sorted (a s : Z) (n : nat) :
  0 < s -> StronglySorted Z.lt (map (fun k => a + s * Z.of_nat k) (seq 0 n)).
Proof.
  intro Hs. induction n as [|n IH]; [constructor|].
  rewrite seq_S, map_app. simpl map. apply StronglySorted_snoc; [exact IH|].
  apply Forall_forall. intros x Hx. apply progression_In in Hx.
  destruct Hx as (k & Hk & ->). nia.
Qed.

Lemma lowest_and_highest (st : ShapeStorage) :
  constructed st ->
  exists lo hi,
    py_index (sorted (keys (shapes st))) 0 = ret lo /\
    py_index (sorted (keys (shapes st))) (-1) = ret hi /\
    In lo (keys (shapes st)) /\ In hi (keys (shapes st)) /\ lo < hi /\
    forall k, In k (keys (shapes st)) -> lo <= k <= hi.
Proof.
  intro Hc.
  destruct (two_lowest st Hc) as (lo & l1 & rest & Hlow & Hlo & Hl1 & Hl01 & Hlowest).
  destruct (two_highest st Hc) as (h0 & hi & front & Hhigh & Hh0 & Hhi & Hh01 & Hhighest).
  exists lo, hi. split; [rewrite Hlow; apply py_index_0|].
  split.
  { rewrite Hhigh. change (front ++ [h0; hi]) with (front ++ [h0] ++ [hi]).
    rewrite app_assoc. now apply py_index_from_end. }
  assert (Hbounds : forall k, In k (keys (shapes st)) -> lo <= k <= hi).
  { intros k Hk. destruct (Hlowest k Hk), (Hhighest k Hk); lia. }
  repeat split; try assumption; try (now apply Hbounds).
  destruct (Hhighest l1 Hl1); specialize (Hbounds lo Hlo); lia.
Qed.

Lemma range_step_positive (a b step : Z) :
  0 < step -> a <= b ->
  range_step a (b + 1) step
  = ret (map (fun k => a + step * Z.of_nat k) (seq 0 (Z.to_nat ((b - a) / step)))
         ++ [a + step * ((b - a) / step)]).
Proof.
  intros Hs Hab. unfold range_step.
  destruct (Z.eqb_spec step 0) as [|_]; [lia|].
  destruct (Z.ltb_spec 0 step) as [_|]; [|lia]. cbv zeta.
  assert (Hq : 0 <= (b - a) / step) by (apply Z.div_pos; lia).
  replace ((b + 1 - a + step - 1) / step) with ((b - a) / step + 1).
  2:{ replace (b + 1 - a + step - 1) with ((b - a) + 1 * step) by lia.
      rewrite Z.div_add by lia. reflexivity. }
  replace (Z.to_nat ((b - a) / step + 1)) with (S (Z.to_nat ((b - a) / step))) by lia.
  rewrite seq_S, map_app. simpl map. do 3 f_equal. lia.
Qed.

Lemma mass_list_positive_step (st : ShapeStorage) (step lo hi : Z) :
  py_index (sorted (keys (shapes st))) 0 = ret lo ->
  py_index (sorted (keys (shapes st))) (-1) = ret hi ->
  0 < step -> lo <= hi ->
  let front := map (fun k => lo + step * Z.of_nat k)
                 (seq 0 (Z.to_nat ((hi - lo) / step))) in
  let top := lo + step * ((hi - lo) / step) in
  mass_list st step
  = ret (if top =? hi then front ++ [top] else (front ++ [top]) ++ [hi]).
Proof.
  intros Hlo Hhi Hs Hle front top. unfold mass_list; cbv zeta.
  rewrite Hlo, bind_ret_l, Hhi, bind_ret_l.
  rewrite range_step_positive, bind_ret_l by assumption.
  fold front top. rewrite (py_index_from_end front [] top) by reflexivity.
  rewrite bind_ret_l. now destruct (top =? hi).
Qed.

Lemma mass_list_in_range (st : ShapeStorage) (step : Z) :
  constructed st -> 0 < step ->
  exists lo hi ms,
    In lo (keys (shapes st)) /\ In hi (keys (shapes st)) /\
    (forall k, In k (keys (shapes st)) -> lo <= k <= hi) /\
    mass_list st step = mkPy [] (Return ms) /\
    (exists tl, ms = lo :: tl) /\ last ms 0 = hi /\
    StronglySorted Z.lt ms /\
    forall m, In m ms ->
      lo <= m <= hi /\ (m = hi \/ exists k, 0 <= k /\ m = lo + step * k).
Proof.
  intros Hc Hs.
  destruct (lowest_and_highest st Hc) as (lo & hi & Hlo & Hhi & Hinlo & Hinhi & Hlt & Hb).
  pose proof (mass_list_positive_step st step lo hi Hlo Hhi Hs ltac:(lia)) as Hml.
  cbv zeta in Hml.
  set (q := (hi - lo) / step) in *.
  assert (Hq : 0 <= q) by (apply Z.div_pos; lia).
  assert (Hqle : step * q <= hi - lo) by (apply Z.mul_div_le; lia).
  set (prog := map (fun k => lo + step * Z.of_nat k) (seq 0 (Z.to_nat q))
               ++ [lo + step * q]) in *.
  assert (Hprog : prog = map (fun k => lo + step * Z.of_nat k) (seq 0 (S (Z.to_nat q)))).
  { unfold prog. rewrite seq_S, map_app. simpl map. do 3 f_equal. lia. }
  assert (Hprog_in : forall m, In m prog ->
            lo <= m <= lo + step * q /\ exists k, 0 <= k /\ m = lo + step * k).
  { intros m Hm. rewrite Hprog in Hm. apply progression_In in Hm.
    destruct Hm as (k & Hk & ->). split; [nia | exists k; split; [lia | reflexivity]]. }
  assert (Hprog_sorted : StronglySorted Z.lt prog).
  { rewrite Hprog. now apply progression_sorted. }
  assert (Hprog_hd : exists tl, prog = lo :: tl).
  { rewrite Hprog. rewrite <- cons_seq. simpl map. eexists. f_equal. lia. }
  exists lo, hi.
  destruct (Z.eqb_spec (lo + step * q) hi) as [Htop|Htop].
  - exists prog.
    split; [exact Hinlo|]. split; [exact Hinhi|]. split; [exact Hb|].
    split; [exact Hml|]. split; [exact Hprog_hd|].
    split; [unfold prog; rewrite last_last; exact Htop|].
    split; [exact Hprog_sorted|].
    intros m Hm. apply Hprog_in in Hm. destruct Hm as [Hm Hk].
    split; [lia | now right].
  - exists (prog ++ [hi]).
    split; [exact Hinlo|]. split; [exact Hinhi|]. split; [exact Hb|].
    split; [exact Hml|].
    split; [destruct Hprog_hd as [tl ->]; now exists (tl ++ [hi])|].
    split; [apply last_last|].
    split.
    + apply StronglySorted_snoc; [assumption|].
      apply Forall_forall. intros m Hm. apply Hprog_in in Hm. lia.
    + intros m Hm. apply in_app_or in Hm. destruct Hm as [Hm|[<-|[]]].
      * apply Hprog_in in Hm. destruct Hm as [Hm Hk]. split; [lia | now right].
      * split; [lia | now left].
Qed.

(** X1: for a constructed storage and a positive step, the mass list of
    [main] is built without error; it starts at the lowest known mass [lo],
    ends at the highest known mass [hi], is strictly increasing, and each
    of its masses lies between [lo] and [hi] and is either [hi] or [lo]
    plus a multiple of the step. *)
Theorem mass_list_spans_known_masses (st : ShapeStorage) (step : Z) :
  constructed st -> 0 < step ->
  exists lo hi ms,
    In lo (keys (shapes st)) /\ In hi (keys (shapes st)) /\
    (forall k, In k (keys (shapes st)) -> lo <= k <= hi) /\
    mass_list st step = mkPy [] (Return ms) /\
    (exists tl, ms = lo :: tl) /\ last ms 0 = hi /\
    StronglySorted Z.lt ms /\
    forall m, In m ms ->
      lo <= m <= hi /\ (m = hi \/ exists k, 0 <= k /\ m = lo + step * k).
Proof. exact (mass_list_in_range st step). Qed.

Lemma mass_list_spans_known_masses_witness :
  exists lo hi ms,
    In lo (keys ex_shapes) /\ In hi (keys ex_shapes) /\
    (forall k, In k (keys ex_shapes) -> lo <= k <= hi) /\
    mass_list ex_storage 300 = mkPy [] (Return ms) /\
    (exists tl, ms = lo :: tl) /\ last ms 0 = hi /\
    StronglySorted Z.lt ms /\
    forall m, In m ms ->
      lo <= m <= hi /\ (m = hi \/ exists k, 0 <= k /\ m = lo + 300 * k).
Proof.
  apply (mass_list_spans_known_masses ex_storage 300 ex_storage_constructed).
  lia.
Defined.

(** X2: for a constructed storage a step of 0 ends the mass list with
    [ValueError] (from [range]) and a negative step with [IndexError]
    (from [masses[-1]] on the empty range); nothing is printed. *)
Theorem mass_list_bad_step (st : ShapeStorage) (step : Z) :
  constructed st ->
  (step = 0 -> mass_list st step = mkPy [] (Raise ValueError)) /\
  (step < 0 -> mass_list st step = mkPy [] (Raise IndexError)).
Proof.
  intro Hc.
  destruct (lowest_and_highest st Hc) as (lo & hi & Hlo & Hhi & _ & _ & Hlt & _).
  split; intro Hs; unfold mass_list; cbv zeta;
    rewrite Hlo, bind_ret_l, Hhi, bind_ret_l; unfold range_step.
  - subst step. reflexivity.
  - destruct (Z.eqb_spec step 0) as [|_]; [lia|].
    destruct (Z.ltb_spec 0 step) as [|_]; [lia|]. cbv zeta.
    assert (Hn : (lo - (hi + 1) - step - 1) / - step <= 0).
    { assert ((lo - (hi + 1) - step - 1) / - step < 1); [|lia].
      apply Z.div_lt_upper_bound; lia. }
    replace (Z.to_nat ((lo - (hi + 1) - step - 1) / - step)) with 0%nat by lia.
    reflexivity.
Qed.

Lemma mass_list_bad_step_witness :
  mass_list ex_storage 0 = mkPy [] (Raise ValueError) /\
  mass_list ex_storage (-100) = mkPy [] (Raise IndexError).
Proof.
  split.
  - now apply (proj1 (mass_list_bad_step ex_storage 0 ex_storage_constructed)).
  - apply (proj2 (mass_list_bad_step ex_storage (-100) ex_storage_constructed)). lia.
Defined.

(** ** Warnings and the range of known masses *)

Lemma interpolate_within_range (st : ShapeStorage) (mass a b : Z) :
  constructed st ->
  In a (keys (shapes st)) -> In b (keys (shapes st)) -> a <= mass <= b ->
  exists y, interpolate st mass = mkPy [] (Return y) /\
            length y = length (binxcenters st).
Proof.
  intros Hc Ha Hb Hab.
  destruct (dict_find (shapes st) mass) as [v|] eqn:Hfind.
  - exists v. split; [now apply interpolate_known|].
    apply (proj2 (constructed_inv st Hc) mass v). now apply dict_find_Some_In.
  - pose proof (dict_find_None_keys _ _ Hfind) as Hnotin.
    assert (Hstrict : a < mass < b).
    { assert (mass <> a) by (intros ->; contradiction).
      assert (mass <> b) by (intros ->; contradiction). lia. }
    destruct (bracket_inside st mass a b Ha Hb Hstrict)
      as (ml & mh & Hbr & Hml & Hmllt & _ & Hmh & Hmhlt & _).
    destruct (interpolate_blend st mass ml mh [] Hc Hfind Hbr Hml Hmh)
      as (yl & yh & y & _ & _ & Hy & Hlen & _); [lia|].
    eauto.
Qed.

(** X3: [LineShapePDF] prints a warning exactly when the target mass lies
    outside the known masses: for a constructed storage, a mass other than
    0 and any histogram it returns, and its output is empty if and only if
    the mass lies between the lowest and the highest known mass. *)
Theorem warning_iff_outside_known_masses Integ (st : ShapeStorage) (mass : Z) (h : TH1D) :
  constructed st -> mass <> 0 ->
  exists lo hi out h',
    In lo (keys (shapes st)) /\ In hi (keys (shapes st)) /\
    (forall k, In k (keys (shapes st)) -> lo <= k <= hi) /\
    LineShapePDF Integ st mass h = mkPy out (Return h') /\
    (out = [] <-> lo <= mass <= hi) /\
    (out = [WarnExtrapolateBelow] <-> mass < lo) /\
    (out = [WarnExtrapolateAbove] <-> hi < mass).
Proof.
  intros Hc Hm. pose proof (constructed_grid_nonempty st Hc) as Hx.
  destruct (two_lowest st Hc) as (lo & l1 & rest & Hlow & Hlo & Hl1 & Hl01 & Hlowest).
  destruct (two_highest st Hc) as (h0 & hi & front & Hhigh & Hh0 & Hhi & Hh01 & Hhighest).
  assert (Hbounds : forall k, In k (keys (shapes st)) -> lo <= k <= hi).
  { intros k Hk. destruct (Hlowest k Hk), (Hhighest k Hk); lia. }
  assert (Hrun : forall out y, interpolate st mass = mkPy out (Return y) ->
            exists h', LineShapePDF Integ st mass h = mkPy out (Return h')).
  { intros out y Hy.
    rewrite (LineShapePDF_spec Integ st mass h out y) by assumption.
    match goal with |- context [normalize ?h1] =>
      destruct (normalize_cases h1) as [[_ ->]|[_ ->]] end; simpl; eauto. }
  assert (Hnone : ~ (lo <= mass <= hi) -> dict_find (shapes st) mass = None).
  { intro Hout. destruct (dict_find (shapes st) mass) as [v|] eqn:E; [|reflexivity].
    apply dict_find_Some_In, (in_map fst) in E. apply Hbounds in E. simpl in E. lia. }
  assert (Hlohi : lo <= hi) by (specialize (Hbounds lo Hlo); lia).
  exists lo, hi.
  destruct (Z_lt_dec mass lo) as [Hlt|Hge]; [|destruct (Z_lt_dec hi mass) as [Hgt|Hle]].
  - destruct (interpolate_blend st mass lo l1 [WarnExtrapolateBelow] Hc)
      as (yl & yh & y & _ & _ & Hy & _); try assumption; try lia.
    { apply Hnone. lia. }
    { now apply (bracket_below st mass lo l1 rest). }
    destruct (Hrun _ y Hy) as [h' Hh']. exists [WarnExtrapolateBelow], h'.
    split; [exact Hlo|]. split; [exact Hhi|]. split; [exact Hbounds|].
    split; [exact Hh'|].
    repeat split; intros; try discriminate; try reflexivity; lia.
  - destruct (interpolate_blend st mass h0 hi [WarnExtrapolateAbove] Hc)
      as (yl & yh & y & _ & _ & Hy & _); try assumption; try lia.
    { apply Hnone. lia. }
    { now apply (bracket_above st mass h0 hi front). }
    destruct (Hrun _ y Hy) as [h' Hh']. exists [WarnExtrapolateAbove], h'.
    split; [exact Hlo|]. split; [exact Hhi|]. split; [exact Hbounds|].
    split; [exact Hh'|].
    repeat split; intros; try discriminate; try reflexivity; lia.
  - destruct (interpolate_within_range st mass lo hi Hc Hlo Hhi ltac:(lia)) as (y & Hy & _).
    destruct (Hrun _ y Hy) as [h' Hh']. exists [], h'.
    split; [exact Hlo|]. split; [exact Hhi|]. split; [exact Hbounds|].
    split; [exact Hh'|].
    repeat split; intros; try discriminate; try reflexivity; lia.
Qed.

Lemma warning_iff_outside_known_masses_witness :
  exists lo hi out h',
    In lo (keys ex_shapes) /\ In hi (keys ex_shapes) /\
    (forall k, In k (keys ex_shapes) -> lo <= k <= hi) /\
    LineShapePDF ex_Integ ex_storage 1500 ex_hist = mkPy out (Return h') /\
    (out = [] <-> lo <= 1500 <= hi) /\
    (out = [WarnExtrapolateBelow] <-> 1500 < lo) /\
    (out = [WarnExtrapolateAbove] <-> hi < 1500).
Proof.
  apply (warning_iff_outside_known_masses ex_Integ ex_storage 1500 ex_hist
           ex_storage_constructed).
  lia.
Defined.

(** X4: [main] never extrapolates: for a constructed storage with
    positive masses and a positive step, every mass of the mass list is
    processed by [LineShapePDF] without a warning and without an
    exception, whatever the target histogram. *)
Theorem main_masses_never_extrapolate Integ (st : ShapeStorage) (step : Z) (h : TH1D) :
  constructed st -> 0 < step ->
  (forall k, In k (keys (shapes st)) -> 0 < k) ->
  exists ms,
    mass_list st step = mkPy [] (Return ms) /\ ms <> [] /\
    forall m, In m ms ->
      exists h', LineShapePDF Integ st m h = mkPy [] (Return h').
Proof.
  intros Hc Hs Hpos. pose proof (constructed_grid_nonempty st Hc) as Hx.
  destruct (mass_list_in_range st step Hc Hs)
    as (lo & hi & ms & Hlo & Hhi & Hb & Hml & [tl Hhd] & _ & _ & Hin).
  exists ms. split; [exact Hml|]. split; [rewrite Hhd; discriminate|].
  intros m Hm. destruct (Hin m Hm) as [Hrange _].
  assert (Hm0 : m <> 0) by (specialize (Hpos lo Hlo); lia).
  destruct (interpolate_within_range st m lo hi Hc Hlo Hhi Hrange) as (y & Hy & _).
  rewrite (LineShapePDF_spec Integ st m h [] y) by assumption.
  match goal with |- context [normalize ?h1] =>
    destruct (normalize_cases h1) as [[_ ->]|[_ ->]] end; simpl; eauto.
Qed.

Lemma main_masses_never_extrapolate_witness :
  exists ms,
    mass_list ex_storage 300 = mkPy [] (Return ms) /\ ms <> [] /\
    forall m, In m ms ->
      exists h', LineShapePDF ex_Integ ex_storage m ex_hist = mkPy [] (Return h').
Proof.
  apply (main_masses_never_extrapolate ex_Integ ex_storage 300 ex_hist
           ex_storage_constructed).
  - lia.
  - simpl. intros k [<-|[<-|[]]]; lia.
Defined.

(** X5: a target mass of 0 makes [LineShapePDF] raise
    [ZeroDivisionError] at the first bin, for a constructed storage and a
    histogram with at least one bin. *)
Theorem LineShapePDF_zero_mass_raises Integ (st : ShapeStorage) (h : TH1D) :
  constructed st -> 1 <= GetNbinsX h ->
  exists out, LineShapePDF Integ st 0 h = mkPy out (Raise ZeroDivisionError).
Proof.
  intros Hc Hn. destruct (interpolate_total st 0 Hc) as (out & y & Hy & _).
  exists out. unfold LineShapePDF. rewrite Hy, bind_returned.
  unfold fill_bins. rewrite range_cons by lia. simpl for_each.
  unfold fill_bin at 1. unfold bin_window; cbv zeta. rewrite py_div_zero.
  simpl. now rewrite app_nil_r.
Qed.

Lemma LineShapePDF_zero_mass_raises_witness :
  exists out, LineShapePDF ex_Integ ex_storage 0 ex_hist
              = mkPy out (Raise ZeroDivisionError).
Proof.
  apply (LineShapePDF_zero_mass_raises ex_Integ ex_storage ex_hist
           ex_storage_constructed).
  unfold GetNbinsX; simpl; lia.
Defined.

(** ** The sum of the interpolated curve *)

Lemma py_sum_combine (f : Q -> Q -> Q) (sgn : Q) (a b : list Q) :
  (forall u v, f u v == u + sgn * v)%Q -> length a = length b ->
  (py_sum (map (fun p => f (fst p) (snd p)) (combine a b))
   == py_sum a + sgn * py_sum b)%Q.
Proof.
  intros Hf. unfold py_sum. revert b.
  induction a as [|x a IH]; intros [|y b] Hlen; simpl in Hlen; try lia.
  - simpl. ring.
  - simpl combine. rewrite map_cons. cbn [fst snd].
    rewrite !Qsum_cons, IH, Hf by lia. ring.
Qed.

Lemma py_sum_map_mult (c : Q) (l : list Q) :
  (py_sum (map (fun u => u * c) l) == py_sum l * c)%Q.
Proof.
  unfold py_sum. induction l as [|x l IH]; [simpl; ring|].
  rewrite map_cons, !Qsum_cons, IH. ring.
Qed.

(** The sum of the blend is the blend of the sums. *)
Lemma blend_sum (yl yh : ndarray) (ml mh mass : Z) :
  length yl = length yh ->
  exists y, blend yl yh ml mh mass = ret y /\
    (py_sum y == (py_sum yh - py_sum yl) / inject_Z (mh - ml) * inject_Z (mass - ml)
                 + py_sum yl)%Q.
Proof.
  intro Hlen. unfold blend, np_sub, np_add.
  rewrite np_binop_same_length by congruence. rewrite bind_ret_l.
  set (d := map (fun p => (fst p - snd p)%Q) (combine yh yl)).
  assert (Hd : length d = length yl).
  { unfold d. rewrite (length_map_combine Qminus) by congruence. congruence. }
  rewrite np_binop_same_length
    by (unfold np_mul_scalar, np_div_scalar; now rewrite !length_map).
  eexists. split; [reflexivity|].
  rewrite (py_sum_combine Qplus 1) by
    (try (intros; ring); unfold np_mul_scalar, np_div_scalar; now rewrite !length_map).
  unfold np_mul_scalar, np_div_scalar.
  rewrite py_sum_map_mult. unfold Qdiv at 1. rewrite py_sum_map_mult.
  unfold d. rewrite (py_sum_combine Qminus (-1)) by (try (intros; ring); congruence).
  unfold Qdiv. ring.
Qed.

Lemma interpolate_blend_sum (st : ShapeStorage) (mass ml mh : Z) (out : list message) :
  constructed st ->
  dict_find (shapes st) mass = None ->
  bracket st mass = mkPy out (Return (ml, mh)) ->
  In ml (keys (shapes st)) -> In mh (keys (shapes st)) ->
  exists yl yh y,
    In (ml, yl) (shapes st) /\ In (mh, yh) (shapes st) /\
    interpolate st mass = mkPy out (Return y) /\
    (py_sum y == (py_sum yh - py_sum yl) / inject_Z (mh - ml) * inject_Z (mass - ml)
                 + py_sum yl)%Q.
Proof.
  intros Hc Hnone Hbr Hml Hmh.
  destruct (constructed_inv st Hc) as [_ Hshape].
  destruct (dict_find_keys _ _ Hml) as [yl Hyl].
  destruct (dict_find_keys _ _ Hmh) as [yh Hyh].
  pose proof (dict_find_Some_In _ _ _ Hyl) as Hinl.
  pose proof (dict_find_Some_In _ _ _ Hyh) as Hinh.
  destruct (Hshape _ _ Hinl) as [_ Hlenl].
  destruct (Hshape _ _ Hinh) as [_ Hlenh].
  destruct (blend_sum yl yh ml mh mass) as (y & Hy & Hsum); [congruence|].
  exists yl, yh, y. repeat split; try assumption.
  unfold interpolate, dict_mem. rewrite Hnone, Hbr, bind_returned.
  simpl fst; simpl snd. unfold dict_get. rewrite Hyl, bind_ret_l.
  rewrite Hyh, bind_ret_l. unfold np_array. rewrite Hy. simpl.
  now rewrite app_nil_r.
Qed.

Lemma convex_within_tolerance (sl sh c d e : Q) :
  (0 < c)%Q -> (c < d)%Q ->
  (Qabs (sl - 1) <= e)%Q -> (Qabs (sh - 1) <= e)%Q ->
  (Qabs ((sh - sl) / d * c + sl - 1) <= e)%Q.
Proof.
  intros Hc Hcd Hl Hh.
  apply Qabs_Qle_condition in Hl. apply Qabs_Qle_condition in Hh.
  apply Qabs_Qle_condition.
  set (t := (c / d)%Q).
  assert (Hd : (0 < d)%Q) by lra.
  assert (Ht0 : (0 <= t)%Q) by (unfold t; apply Qle_shift_div_l; lra).
  assert (Ht1 : (t <= 1)%Q) by (unfold t; apply Qle_shift_div_r; lra).
  assert (Heq : ((sh - sl) / d * c + sl - 1 == (1 - t) * (sl - 1) + t * (sh - 1))%Q).
  { unfold t. field. lra. }
  rewrite Heq.
  assert (H1 : (0 <= (1 - t) * (e - (sl - 1)))%Q) by (apply Qmult_le_0_compat; lra).
  assert (H2 : (0 <= t * (e - (sh - 1)))%Q) by (apply Qmult_le_0_compat; lra).
  assert (H3 : (0 <= (1 - t) * (e + (sl - 1)))%Q) by (apply Qmult_le_0_compat; lra).
  assert (H4 : (0 <= t * (e + (sh - 1)))%Q) by (apply Qmult_le_0_compat; lra).
  split; lra.
Qed.

(** X6: for a constructed storage and a target mass between the lowest
    and the highest known mass, the curve handed to the integrator sums to
    1 within the tolerance 0.01 of the constructor: a stored shape as it
    is, a blend as a convex combination of two stored shapes. *)
Theorem interpolate_keeps_normalisation (st : ShapeStorage) (mass a b : Z) :
  constructed st ->
  In a (keys (shapes st)) -> In b (keys (shapes st)) -> a <= mass <= b ->
  exists y, interpolate st mass = mkPy [] (Return y) /\
            (Qabs (py_sum y - 1) <= 1 # 100)%Q.
Proof.
  intros Hc Ha Hb Hab.
  assert (Hnorm : forall k v, In (k, v) (shapes st) -> (Qabs (py_sum v - 1) <= 1 # 100)%Q).
  { intros k v Hin. apply Qnot_lt_le. apply (proj2 (constructed_inv st Hc) k v Hin). }
  destruct (dict_find (shapes st) mass) as [v|] eqn:Hfind.
  - exists v. split; [now apply interpolate_known|].
    apply (Hnorm mass). now apply dict_find_Some_In.
  - pose proof (dict_find_None_keys _ _ Hfind) as Hnotin.
    assert (Hstrict : a < mass < b).
    { assert (mass <> a) by (intros ->; contradiction).
      assert (mass <> b) by (intros ->; contradiction). lia. }
    destruct (bracket_inside st mass a b Ha Hb Hstrict)
      as (ml & mh & Hbr & Hml & Hmllt & _ & Hmh & Hmhlt & _).
    destruct (interpolate_blend_sum st mass ml mh [] Hc Hfind Hbr Hml Hmh)
      as (yl & yh & y & Hinl & Hinh & Hy & Hsum).
    exists y. split; [exact Hy|]. rewrite Hsum.
    apply convex_within_tolerance.
    + change 0%Q with (inject_Z 0). rewrite <- Zlt_Qlt. lia.
    + rewrite <- Zlt_Qlt. lia.
    + now apply (Hnorm ml).
    + now apply (Hnorm mh).
Qed.

Lemma interpolate_keeps_normalisation_witness :
  exists y, interpolate ex_storage 1300 = mkPy [] (Return y) /\
            (Qabs (py_sum y - 1) <= 1 # 100)%Q.
Proof.
  apply (interpolate_keeps_normalisation ex_storage 1300 1000 2000
           ex_storage_constructed).
  - simpl; auto.
  - simpl; auto.
  - lia.
Defined.

(** ** What [LineShapePDF] reads of its histogram *)

Lemma LineShapePDF_axis Integ (st : ShapeStorage) (mass : Z) (h h' : TH1D) :
  result (LineShapePDF Integ st mass h) = Return h' ->
  fXaxis h' = fXaxis h /\ fNcells h' = fNcells h.
Proof.
  intro Hrun. apply LineShapePDF_returns in Hrun.
  destruct Hrun as (y & h1 & _ & Hfill & Hnorm).
  assert (H1 : fXaxis h1 = fXaxis h /\ fNcells h1 = fNcells h).
  { destruct (fill_bins_returns Integ st y mass h h1 Hfill) as [Hn|[Hx Hm]].
    - unfold fill_bins in Hfill. rewrite range_empty in Hfill by lia.
      apply ret_returns in Hfill. now subst h1.
    - rewrite fill_bins_spec in Hfill by assumption.
      apply ret_returns in Hfill. subst h1.
      split; [apply set_bins_axis | apply set_bins_cells]. }
  destruct (normalize_cases h1) as [[_ Hn]|[_ Hn]];
    rewrite Hn in Hnorm; apply ret_returns in Hnorm; subst h'.
  - now rewrite Scale_axis, Scale_cells.
  - exact H1.
Qed.

(** X7: the bins that [LineShapePDF] returns do not depend on what the
    target histogram held before: two histograms on the same axis receive
    the same content in every bin. *)
Theorem LineShapePDF_ignores_prior_contents Integ (st : ShapeStorage) (mass : Z)
    (h1 h2 h1' h2' : TH1D) :
  hist_wf h1 -> hist_wf h2 -> fXaxis h1 = fXaxis h2 ->
  result (LineShapePDF Integ st mass h1) = Return h1' ->
  result (LineShapePDF Integ st mass h2) = Return h2' ->
  forall i, 1 <= i <= GetNbinsX h1 -> GetBinContent h1' i = GetBinContent h2' i.
Proof.
  intros Hwf1 Hwf2 Hax Hr1 Hr2 i Hi.
  assert (Hnb : GetNbinsX h2 = GetNbinsX h1) by (unfold GetNbinsX; now rewrite Hax).
  apply LineShapePDF_returns in Hr1, Hr2.
  destruct Hr1 as (y1 & g1 & Hy1 & Hf1 & Hn1).
  destruct Hr2 as (y2 & g2 & Hy2 & Hf2 & Hn2).
  assert (y2 = y1) by congruence. subst y2.
  destruct (fill_bins_returns Integ st y1 mass h1 g1 Hf1) as [Hn|[Hx Hm]]; [lia|].
  rewrite fill_bins_spec in Hf1, Hf2 by assumption.
  apply ret_returns in Hf1, Hf2. rewrite <- Hax, Hnb in Hf2.
  set (f := bin_value Integ st y1 mass (fXaxis h1)) in *.
  set (R := range 1 (GetNbinsX h1 + 1)) in *.
  assert (Hbins : forall j, 1 <= j <= GetNbinsX h1 ->
            GetBinContent g1 j = GetBinContent g2 j).
  { intros j Hj. subst g1 g2.
    rewrite !set_bins_In; try reflexivity; try (apply In_range; lia).
    - apply hist_wf_bin; [assumption | lia].
    - apply hist_wf_bin; assumption. }
  assert (HT : Integral g1 = Integral g2).
  { unfold Integral. f_equal.
    replace (GetNbinsX g2) with (GetNbinsX g1)
      by (subst g1 g2; rewrite !set_bins_nbins; lia).
    apply map_ext_in. intros j Hj. apply In_range in Hj. apply Hbins.
    subst g1. rewrite set_bins_nbins in Hj. lia. }
  assert (Hc1 : 0 < fNcells g1).
  { subst g1. rewrite set_bins_cells. now apply hist_wf_cells. }
  assert (Hc2 : 0 < fNcells g2).
  { subst g2. rewrite set_bins_cells. now apply hist_wf_cells. }
  destruct (normalize_cases g1) as [[HT1 Hn1']|[HT1 Hn1']];
    rewrite Hn1' in Hn1; apply ret_returns in Hn1; subst h1'.
  - rewrite (normalize_positive g2) in Hn2 by (now rewrite <- HT).
    apply ret_returns in Hn2. subst h2'.
    rewrite !GetBinContent_Scale by assumption. rewrite HT, (Hbins i Hi). reflexivity.
  - rewrite (normalize_degenerate g2) in Hn2 by (now rewrite <- HT).
    apply ret_returns in Hn2. subst h2'. now apply Hbins.
Qed.

Lemma LineShapePDF_ignores_prior_contents_witness :
  exists h1' h2',
    result (LineShapePDF ex_Integ ex_storage 1500 ex_hist) = Return h1' /\
    result (LineShapePDF ex_Integ ex_storage 1500 (SetBinContent ex_hist 3 (7 # 1)))
      = Return h2' /\
    forall i, 1 <= i <= GetNbinsX ex_hist -> GetBinContent h1' i = GetBinContent h2' i.
Proof.
  eexists. eexists.
  split; [vm_compute; reflexivity|]. split; [vm_compute; reflexivity|].
  apply (LineShapePDF_ignores_prior_contents ex_Integ ex_storage 1500
           ex_hist (SetBinContent ex_hist 3 (7 # 1))).
  - exact ex_hist_wf.
  - split; [unfold GetNbinsX; simpl; lia | reflexivity].
  - reflexivity.
  - vm_compute. reflexivity.
  - vm_compute. reflexivity.
Defined.

(** ** The total of the PDF *)

Lemma Qsum_app (l1 l2 : list Q) :
  (fold_left Qplus (l1 ++ l2) 0 == fold_left Qplus l1 0 + fold_left Qplus l2 0)%Q.
Proof.
  rewrite fold_left_app, fold_Qplus_acc. reflexivity.
Qed.

Lemma Qsum_map_ext (f g : Z -> Q) (l : list Z) :
  (forall b, In b l -> (f b == g b)%Q) ->
  (fold_left Qplus (map f l) 0 == fold_left Qplus (map g l) 0)%Q.
Proof.
  induction l as [|a l IH]; intro H; [reflexivity|].
  rewrite !map_cons, !Qsum_cons, IH by (intros; apply H; now right).
  rewrite (H a) by now left. reflexivity.
Qed.

Lemma Qsum_map_const (v : Q) (l : list Z) :
  (fold_left Qplus (map (fun _ => v) l) 0 == inject_Z (Z.of_nat (length l)) * v)%Q.
Proof.
  induction l as [|a l IH]; [simpl; ring|].
  rewrite map_cons, Qsum_cons, IH.
  replace (Z.of_nat (length (a :: l))) with (Z.of_nat (length l) + 1) by (simpl length; lia).
  rewrite inject_Z_plus. ring.
Qed.

Lemma length_range (a b : Z) : Z.of_nat (length (range a b)) = Z.max 0 (b - a).
Proof. unfold range. rewrite length_map, length_seq. lia. Qed.

(** Filling a window of empty bins with [v] adds [v] per bin to the
    total. *)
Lemma Integral_set_window (h : TH1D) (lo hi : Z) (v : Q) :
  fNcells h = GetNbinsX h + 2 ->
  1 <= lo -> lo <= hi + 1 -> hi <= GetNbinsX h ->
  (forall b, lo <= b <= hi -> GetBinContent h b = 0%Q) ->
  (Integral (set_bins (fun _ => v) (range lo (hi + 1)) h)
   == Integral h + inject_Z (hi - lo + 1) * v)%Q.
Proof.
  intros Hcells Hlo Hlohi Hhi Hzero. unfold Integral.
  rewrite set_bins_nbins.
  set (n := GetNbinsX h) in *.
  set (h' := set_bins (fun _ => v) (range lo (hi + 1)) h).
  rewrite (range_app 1 lo (n + 1)) by lia.
  rewrite (range_app lo (hi + 1) (n + 1)) by lia.
  rewrite !map_app, !Qsum_app.
  assert (Hout : forall b, 1 <= b <= n -> ~ (lo <= b <= hi) ->
            GetBinContent h' b = GetBinContent h b).
  { intros b Hb Hnot. unfold h'. apply set_bins_notin; [lia|].
    intro Hin. apply In_range in Hin. lia. }
  assert (Hin : forall b, lo <= b <= hi -> GetBinContent h' b = v).
  { intros b Hb. unfold h'. rewrite set_bins_In; [reflexivity | lia |].
    apply In_range. lia. }
  rewrite (Qsum_map_ext (GetBinContent h') (GetBinContent h) (range 1 lo)).
  2:{ intros b Hb. apply In_range in Hb. rewrite Hout by lia. reflexivity. }
  rewrite (Qsum_map_ext (GetBinContent h') (GetBinContent h) (range (hi + 1) (n + 1))).
  2:{ intros b Hb. apply In_range in Hb. rewrite Hout by lia. reflexivity. }
  rewrite (Qsum_map_ext (GetBinContent h') (fun _ => v) (range lo (hi + 1))).
  2:{ intros b Hb. apply In_range in Hb. rewrite Hin by lia. reflexivity. }
  rewrite (Qsum_map_ext (GetBinContent h) (fun _ => 0%Q) (range lo (hi + 1))).
  2:{ intros b Hb. apply In_range in Hb. rewrite Hzero by lia. reflexivity. }
  rewrite !Qsum_map_const, length_range.
  replace (Z.max 0 (hi + 1 - lo)) with (hi - lo + 1) by lia. ring.
Qed.

Section IntegerEdges.
Variables (h_shape : TH1D) (e : Z -> Z) (nfine : Z).
Hypothesis Hnfine : 0 < nfine.
Hypothesis Hedges : integer_edges h_shape e nfine.

Lemma edges_monotone (i j : Z) :
  0 <= i <= j -> j <= GetNbinsX h_shape -> e i <= e j.
Proof.
  intros Hij Hj. replace j with (i + Z.of_nat (Z.to_nat (j - i))) in * by lia.
  induction (Z.to_nat (j - i)) as [|m IH]; [rewrite Z.add_0_r; lia|].
  destruct Hedges as (_ & _ & Hstep).
  specialize (Hstep (i + Z.of_nat (S m)) ltac:(lia)).
  replace (i + Z.of_nat (S m) - 1) with (i + Z.of_nat m) in Hstep by lia.
  specialize (IH ltac:(lia) ltac:(lia)). lia.
Qed.

Lemma integer_window (hp : TH1D) (i : Z) :
  fXaxis hp = TAxis_fix nfine 0 (inject_Z nfine) ->
  1 <= i <= GetNbinsX h_shape ->
  fine_min hp h_shape i = e (i - 1) + 1 /\ fine_max hp h_shape i = e i.
Proof.
  intros Hax Hi.
  pose proof (edges_monotone 0 (i - 1) ltac:(lia) ltac:(lia)) as H0.
  pose proof (edges_monotone i (GetNbinsX h_shape) ltac:(lia) ltac:(lia)) as Hn.
  destruct Hedges as (He0 & Hen & Hstep).
  destruct (Hstep i Hi) as (Hlt & Hlow & Hup).
  unfold fine_min, fine_max, FindBin. rewrite Hax. split.
  - apply FindBin_unit_half; [lia|]. rewrite Hlow. reflexivity.
  - rewrite (FindBin_unit_half nfine (e i - 1)); [lia | lia |].
    rewrite Hup, inject_Z_pred. unfold half. field.
Qed.

Lemma pdf_bin_integer (hp : TH1D) (i : Z) :
  fXaxis hp = TAxis_fix nfine 0 (inject_Z nfine) ->
  1 <= i <= GetNbinsX h_shape ->
  pdf_bin h_shape i hp
  = set_bins (fun _ => (GetBinContent h_shape i / inject_Z (e i - e (i - 1)))%Q)
      (range (e (i - 1) + 1) (e i + 1)) hp.
Proof.
  intros Hax Hi. rewrite (pdf_bin_set_bins h_shape hp hp i eq_refl).
  unfold pdf_val, pdf_width.
  destruct (integer_window hp i Hax Hi) as [-> ->].
  destruct Hedges as (_ & _ & Hstep). destruct (Hstep i Hi) as (Hlt & _ & _).
  replace (Z.max 1 (e i - (e (i - 1) + 1) + 1)) with (e i - e (i - 1)) by lia.
  reflexivity.
Qed.

Lemma Integral_unit_grid : (Integral (unit_grid nfine) == 0)%Q.
Proof.
  unfold Integral.
  rewrite (Qsum_map_ext _ (fun _ => 0%Q)) by (intros; now rewrite unit_grid_zero).
  rewrite Qsum_map_const. ring.
Qed.

(** The PDF histogram after the first [k] coarse bins. *)
Lemma pdf_prefix_integer (k : nat) :
  Z.of_nat k <= GetNbinsX h_shape ->
  let P := fold_left (fun h i => pdf_bin h_shape i h) (range 1 (Z.of_nat k + 1))
             (unit_grid nfine) in
  fXaxis P = TAxis_fix nfine 0 (inject_Z nfine) /\ fNcells P = nfine + 2 /\
  (forall b, e (Z.of_nat k) < b <= nfine + 1 -> GetBinContent P b = 0%Q) /\
  (forall b, 0 <= b <= e 0 -> GetBinContent P b = 0%Q) /\
  (forall i b, 1 <= i <= Z.of_nat k -> e (i - 1) < b <= e i ->
     GetBinContent P b = (GetBinContent h_shape i / inject_Z (e i - e (i - 1)))%Q) /\
  (Integral P
   == fold_left Qplus (map (GetBinContent h_shape) (range 1 (Z.of_nat k + 1))) 0)%Q.
Proof.
  assert (Hcells0 : fNcells (unit_grid nfine) = nfine + 2).
  { apply (unit_grid_wf nfine). lia. }
  induction k as [|k IH]; intro Hk; cbv zeta.
  - simpl. repeat split; try assumption; try (intros; apply unit_grid_zero).
    + intros; lia.
    + apply Integral_unit_grid.
  - replace (Z.of_nat (S k)) with (Z.of_nat k + 1) in * by lia.
    rewrite (range_snoc 1 (Z.of_nat k + 1)) by lia.
    rewrite fold_left_app. cbv zeta in IH.
    destruct IH as (Hax & Hc & Hbeyond & Hbelow & Hbins & Hsum); [lia|].
    set (P := fold_left (fun h i => pdf_bin h_shape i h) (range 1 (Z.of_nat k + 1))
                (unit_grid nfine)) in *.
    cbn [fold_left].
    rewrite (pdf_bin_integer P (Z.of_nat k + 1) Hax) by lia.
    replace (Z.of_nat k + 1 - 1) with (Z.of_nat k) by lia.
    set (k1 := Z.of_nat k + 1) in *.
    set (v := (GetBinContent h_shape k1 / inject_Z (e k1 - e (Z.of_nat k)))%Q).
    pose proof (edges_monotone 0 (Z.of_nat k) ltac:(lia) ltac:(lia)) as Hm0.
    pose proof (edges_monotone k1 (GetNbinsX h_shape) ltac:(lia) ltac:(lia)) as Hmn.
    destruct Hedges as (He0 & Hen & Hstep).
    destruct (Hstep k1 ltac:(lia)) as (Hlt & _ & _).
    replace (k1 - 1) with (Z.of_nat k) in Hlt by lia.
    split; [rewrite set_bins_axis; exact Hax|].
    split; [rewrite set_bins_cells; exact Hc|].
    split; [|split; [|split]].
    + intros b Hb. rewrite set_bins_notin; [apply Hbeyond; lia | lia |].
      intro Hin. apply In_range in Hin. lia.
    + intros b Hb. rewrite set_bins_notin; [now apply Hbelow | lia |].
      intro Hin. apply In_range in Hin. lia.
    + intros i b Hi Hb. destruct (Z.eq_dec i k1) as [->|Hne].
      * replace (k1 - 1) with (Z.of_nat k) in * by lia.
        rewrite set_bins_In; [reflexivity | lia | apply In_range; lia].
      * pose proof (edges_monotone i (Z.of_nat k) ltac:(lia) ltac:(lia)) as Hik.
        pose proof (edges_monotone 0 (i - 1) ltac:(lia) ltac:(lia)) as H0i.
        rewrite set_bins_notin; [apply Hbins; lia | lia |].
        intro Hin. apply In_range in Hin. lia.
    + rewrite Integral_set_window; try lia.
      * rewrite map_app. cbn [map]. rewrite Qsum_snoc, Hsum.
        replace (e k1 - (e (Z.of_nat k) + 1) + 1) with (e k1 - e (Z.of_nat k)) by lia.
        unfold v. field. apply inject_Z_nonzero. lia.
      * unfold GetNbinsX. rewrite Hax. simpl fNbins. lia.
      * unfold GetNbinsX. rewrite Hax. simpl fNbins. lia.
      * intros b Hb. apply Hbeyond. lia.
Qed.
End IntegerEdges.

Lemma pdf_total_integer (h_shape : TH1D) (e : Z -> Z) (nfine : Z) :
  0 < nfine -> 0 <= GetNbinsX h_shape -> integer_edges h_shape e nfine ->
  let h_pdf := fill_pdf h_shape (unit_grid nfine) in
  (forall i b, 1 <= i <= GetNbinsX h_shape -> e (i - 1) < b <= e i ->
     GetBinContent h_pdf b
     = (GetBinContent h_shape i / inject_Z (e i - e (i - 1)%Z))%Q) /\
  (forall b, 0 <= b <= e 0 \/ e (GetNbinsX h_shape) < b <= nfine + 1 ->
     GetBinContent h_pdf b = 0%Q) /\
  (Integral h_pdf == Integral h_shape)%Q.
Proof.
  intros Hn Hnb He h_pdf.
  pose proof (pdf_prefix_integer h_shape e nfine Hn He (Z.to_nat (GetNbinsX h_shape))
                ltac:(lia)) as H.
  cbv zeta in H. rewrite Z2Nat.id in H by lia.
  change (fold_left (fun h i => pdf_bin h_shape i h) (range 1 (GetNbinsX h_shape + 1))
            (unit_grid nfine)) with h_pdf in H.
  destruct H as (_ & _ & Hbeyond & Hbelow & Hbins & Hsum).
  split; [exact Hbins|]. split; [|exact Hsum].
  intros b [Hb|Hb]; [now apply Hbelow | now apply Hbeyond].
Qed.

(** X8: when the bins of the coarse histogram have increasing integer
    edges [e 0 < e 1 < ...] inside the fine unit grid, the PDF loop gives
    every fine bin [b] with [e (i-1) < b <= e i] the content of coarse bin
    [i] divided by the bin width [e i - e (i-1)], leaves the fine bins
    outside all coarse bins at 0, and keeps the total: the bins of the PDF
    sum to the sum of the coarse bins. *)
Theorem pdf_preserves_total (h_shape : TH1D) (e : Z -> Z) (nfine : Z) :
  0 < nfine -> 0 <= GetNbinsX h_shape -> integer_edges h_shape e nfine ->
  let h_pdf := fill_pdf h_shape (unit_grid nfine) in
  (forall i b, 1 <= i <= GetNbinsX h_shape -> e (i - 1) < b <= e i ->
     GetBinContent h_pdf b
     = (GetBinContent h_shape i / inject_Z (e i - e (i - 1)%Z))%Q) /\
  (forall b, 0 <= b <= e 0 \/ e (GetNbinsX h_shape) < b <= nfine + 1 ->
     GetBinContent h_pdf b = 0%Q) /\
  (Integral h_pdf == Integral h_shape)%Q.
Proof. exact (pdf_total_integer h_shape e nfine). Qed.

Lemma increasing_nth (l : list Z) (m : nat) :
  increasing l = true -> (S m < length l)%nat -> nth m l 0 < nth (S m) l 0.
Proof.
  revert m. induction l as [|a l IH]; intros m Hinc Hm; [simpl in Hm; lia|].
  destruct l as [|b l]; [simpl in Hm; lia|].
  change (increasing (a :: b :: l)) with ((a <? b) && increasing (b :: l)) in Hinc.
  apply andb_true_iff in Hinc. destruct Hinc as [Hab Hinc].
  destruct m as [|m]; [simpl; now apply Z.ltb_lt|].
  change (nth (S m) (a :: b :: l) 0) with (nth m (b :: l) 0).
  change (nth (S (S m)) (a :: b :: l) 0) with (nth (S m) (b :: l) 0).
  apply IH; [assumption | simpl in *; lia].
Qed.

(** A histogram built on a list of increasing integer edges. *)
Lemma var_axis_integer_edges (h : TH1D) (es : list Z) (n nfine : Z) :
  fXaxis h = TAxis_var n (map inject_Z es) ->
  Z.of_nat (length es) = n + 1 -> 0 <= n ->
  increasing es = true -> 0 <= nth 0 es 0 -> nth (Z.to_nat n) es 0 <= nfine ->
  integer_edges h (fun i => nth (Z.to_nat i) es 0) nfine.
Proof.
  intros Hax Hlen Hn Hinc H0 Hlast.
  assert (Hnb : GetNbinsX h = n) by (unfold GetNbinsX; now rewrite Hax).
  assert (Hbins : fXbins (fXaxis h) = map inject_Z es).
  { rewrite Hax. unfold TAxis_var; simpl fXbins.
    apply firstn_all2. rewrite length_map. lia. }
  assert (Hnth : forall j, fArr (fXaxis h) j = inject_Z (nth (Z.to_nat j) es 0)).
  { intro j. unfold fArr. rewrite Hbins. change 0%Q with (inject_Z 0). apply map_nth. }
  assert (Hfix : is_fix (fXaxis h) = false).
  { unfold is_fix. rewrite Hbins. destruct es; [simpl in Hlen; lia | reflexivity]. }
  unfold integer_edges. rewrite Hnb. split; [exact H0|]. split; [exact Hlast|].
  intros i Hi. split; [|split].
  - replace (Z.to_nat i) with (S (Z.to_nat (i - 1))) by lia.
    apply increasing_nth; [assumption | lia].
  - unfold GetBinLowEdge, Axis_GetBinLowEdge. rewrite Hfix.
    replace (fNbins (fXaxis h)) with n by (now rewrite Hax).
    destruct (Z.ltb_spec 0 i); [|lia]. destruct (Z.leb_spec i n); [|lia].
    simpl. now rewrite Hnth.
  - unfold GetBinUpEdge, Axis_GetBinUpEdge. rewrite Hfix.
    replace (fNbins (fXaxis h)) with n by (now rewrite Hax).
    destruct (Z.ltb_spec i 1); [lia|]. destruct (Z.ltb_spec n i); [lia|].
    simpl. now rewrite Hnth.
Qed.

(** A histogram of unit bins from 0. *)
Lemma fix_axis_integer_edges (h : TH1D) (n : Z) :
  fXaxis h = TAxis_fix n 0 (inject_Z n) -> 0 < n ->
  integer_edges h (fun i => i) n.
Proof.
  intros Hax Hn.
  assert (Hnb : GetNbinsX h = n) by (unfold GetNbinsX; now rewrite Hax).
  unfold integer_edges. rewrite Hnb. split; [lia|]. split; [lia|].
  intros i Hi. split; [lia|].
  unfold GetBinLowEdge, GetBinUpEdge. rewrite Hax.
  destruct (unit_edges n i Hn) as [Hlo Hup].
  rewrite inject_Z_pred in *. unfold half in *. split; lra.
Qed.

Lemma ex_coarse_edges : integer_edges ex_coarse ex_coarse_edge 8.
Proof.
  apply (var_axis_integer_edges ex_coarse [1; 3; 6] 2 8); try reflexivity; simpl; lia.
Qed.

Lemma pdf_preserves_total_witness :
  let h_pdf := fill_pdf ex_coarse (unit_grid 8) in
  (forall i b, 1 <= i <= GetNbinsX ex_coarse ->
     ex_coarse_edge (i - 1) < b <= ex_coarse_edge i ->
     GetBinContent h_pdf b
     = (GetBinContent ex_coarse i
        / inject_Z (ex_coarse_edge i - ex_coarse_edge (i - 1)))%Q) /\
  (forall b, 0 <= b <= ex_coarse_edge 0 \/
             ex_coarse_edge (GetNbinsX ex_coarse) < b <= 8 + 1 ->
     GetBinContent h_pdf b = 0%Q) /\
  (Integral h_pdf == Integral ex_coarse)%Q.
Proof.
  apply (pdf_preserves_total ex_coarse ex_coarse_edge 8).
  - reflexivity.
  - unfold GetNbinsX; simpl; lia.
  - exact ex_coarse_edges.
Defined.

(** ** One mass of [main], end to end *)

Lemma new_h_shape_axis (fineBinning : bool) :
  fXaxis (new_h_shape fineBinning)
  = if fineBinning then TAxis_fix 14000 0 (inject_Z 14000)
    else TAxis_var 103 (map inject_Z binBoundaries).
Proof. destruct fineBinning; reflexivity. Qed.

Lemma new_h_shape_edges (fineBinning : bool) (h : TH1D) :
  fXaxis h = fXaxis (new_h_shape fineBinning) ->
  exists e, integer_edges h e 14000.
Proof.
  rewrite new_h_shape_axis. destruct fineBinning; intro Hax.
  - exists (fun i => i). apply fix_axis_integer_edges; [exact Hax | lia].
  - exists (fun i => nth (Z.to_nat i) binBoundaries 0).
    apply (var_axis_integer_edges h binBoundaries 103 14000);
      try assumption; try reflexivity; try lia; vm_compute; discriminate.
Qed.

(** The total of what [LineShapePDF] returns is 1 or 0. *)
Lemma LineShapePDF_total_one_or_zero Integ (st : ShapeStorage) (mass : Z) (h h' : TH1D) :
  hist_wf h -> result (LineShapePDF Integ st mass h) = Return h' ->
  (Integral h' == 1)%Q \/ (Integral h' == 0)%Q.
Proof.
  intros Hwf Hrun.
  destruct (LineShapePDF_bins_nonneg Integ st mass h h' Hwf Hrun) as [Hnb Hpos].
  destruct (LineShapePDF_axis Integ st mass h h' Hrun) as [_ Hcells].
  apply LineShapePDF_returns in Hrun. destruct Hrun as (y & h1 & _ & _ & Hnorm).
  destruct (normalize_cases h1) as [[HT Hn]|[HT Hn]];
    rewrite Hn in Hnorm; apply ret_returns in Hnorm; subst h'.
  - left. apply Integral_normalized; [|exact HT].
    rewrite Scale_cells in Hcells. rewrite Hcells. now apply hist_wf_cells.
  - right. assert (0 <= Integral h1)%Q; [|lra].
    unfold Integral. apply Qsum_nonneg. intros z Hz.
    apply in_map_iff in Hz. destruct Hz as (j & <- & Hj).
    apply In_range in Hj. apply Hpos. lia.
Qed.

(** X9: for one mass of [main], in either binning mode (the standard
    dijet binning or 14000 unit bins), whenever the shape, PDF and CDF
    histograms are produced: the PDF has the same total as the shape
    histogram, the last bin of the CDF holds that total, and the total
    is 1 or 0. *)
Theorem main_pdf_cdf_totals Integ (storage : ShapeStorage) (mass : Z)
    (fineBinning : bool) (h_shape h_pdf h_cdf : TH1D) :
  result (shape_pdf_cdf Integ storage mass fineBinning)
    = Return (h_shape, h_pdf, h_cdf) ->
  (Integral h_pdf == Integral h_shape)%Q /\
  (GetBinContent h_cdf 14000 == Integral h_shape)%Q /\
  ((Integral h_shape == 1)%Q \/ (Integral h_shape == 0)%Q).
Proof.
  intro Hrun. unfold shape_pdf_cdf in Hrun.
  apply bind_returns in Hrun. destruct Hrun as (hs & Hs & Hret).
  cbv beta zeta in Hret. unfold ret in Hret. cbn [result] in Hret.
  apply Return_triple_inj in Hret. destruct Hret as (E1 & E2 & E3).
  rewrite <- E3, <- E2, <- E1.
  pose proof (new_h_shape_wf fineBinning) as Hwf.
  destruct (LineShapePDF_bins_nonneg Integ storage mass _ hs Hwf Hs) as [Hnb Hpos].
  destruct (LineShapePDF_axis Integ storage mass _ hs Hs) as [Hax _].
  destruct (new_h_shape_edges fineBinning hs Hax) as [e He].
  assert (Hn0 : 0 <= GetNbinsX hs) by (rewrite Hnb; apply Hwf).
  pose proof (pdf_total_integer hs e 14000 ltac:(lia) Hn0 He) as Hpdf.
  cbv zeta in Hpdf. destruct Hpdf as (_ & _ & Htotal).
  pose proof (cdf_of_nonneg_shape hs 14000 ltac:(lia)) as Hcdf. cbv zeta in Hcdf.
  destruct Hcdf as (_ & _ & Hlast); [rewrite Hnb; exact Hpos|].
  split; [exact Htotal|]. split; [now rewrite Hlast|].
  now apply (LineShapePDF_total_one_or_zero Integ storage mass (new_h_shape fineBinning)).
Qed.

Lemma main_pdf_cdf_totals_witness :
  exists h_shape h_pdf h_cdf,
    result (shape_pdf_cdf ex_Integ ex_storage 1500 false)
      = Return (h_shape, h_pdf, h_cdf) /\
    (Integral h_pdf == Integral h_shape)%Q /\
    (GetBinContent h_cdf 14000 == Integral h_shape)%Q /\
    ((Integral h_shape == 1)%Q \/ (Integral h_shape == 0)%Q).
Proof.
  assert (Hm : 1500 <> 0) by lia.
  destruct (LineShapePDF_total ex_Integ ex_storage 1500 (new_h_shape false)
              ex_storage_constructed Hm) as (out & y & h1 & hs & _ & _ & _ & Hrun).
  assert (Hres : result (shape_pdf_cdf ex_Integ ex_storage 1500 false)
                 = Return (hs, fill_pdf hs (unit_grid 14000),
                           fill_cdf (fill_pdf hs (unit_grid 14000)) (unit_grid 14000))).
  { unfold shape_pdf_cdf. rewrite Hrun. reflexivity. }
  exists hs, (fill_pdf hs (unit_grid 14000)),
    (fill_cdf (fill_pdf hs (unit_grid 14000)) (unit_grid 14000)).
  split; [exact Hres|].
  exact (main_pdf_cdf_totals ex_Integ ex_storage 1500 false _ _ _ Hres).
Defined.

(** ** Group names and histogram names *)

Module NamesFacts.
Import Ascii String Names.
Local Open Scope string_scope.

Lemma is_space_lower_char (c : ascii) : is_space (lower_char c) = is_space c.
Proof.
  destruct c as [b0 b1 b2 b3 b4 b5 b6 b7].
  destruct b0, b1, b2, b3, b4, b5, b6, b7; reflexivity.
Qed.

Lemma lower_char_idem (c : ascii) : lower_char (lower_char c) = lower_char c.
Proof.
  destruct c as [b0 b1 b2 b3 b4 b5 b6 b7].
  destruct b0, b1, b2, b3, b4, b5, b6, b7; reflexivity.
Qed.

Lemma lower_idem (s : string) : lower (lower s) = lower s.
Proof.
  induction s as [|c s IH]; simpl; [reflexivity|].
  now rewrite lower_char_idem, IH.
Qed.

Lemma lstrip_lower (s : string) : lstrip (lower s) = lower (lstrip s).
Proof.
  induction s as [|c s IH]; simpl; [reflexivity|].
  rewrite is_space_lower_char. destruct (is_space c); [exact IH | reflexivity].
Qed.

Lemma rstrip_lower (s : string) : rstrip (lower s) = lower (rstrip s).
Proof.
  induction s as [|c s IH]; simpl; [reflexivity|].
  rewrite IH, is_space_lower_char.
  destruct (rstrip s); simpl; [destruct (is_space c)|]; reflexivity.
Qed.

Lemma strip_lower (s : string) : strip (lower s) = lower (strip s).
Proof. unfold strip. now rewrite lstrip_lower, rstrip_lower. Qed.

Lemma rstrip_all_space (ws : string) : all_space ws = true -> rstrip ws = "".
Proof.
  induction ws as [|c ws IH]; simpl; [reflexivity|].
  intro H. apply andb_true_iff in H. destruct H as [Hc Hws].
  now rewrite IH, Hc.
Qed.

Lemma lstrip_all_space (ws : string) : all_space ws = true -> lstrip ws = "".
Proof.
  induction ws as [|c ws IH]; simpl; [reflexivity|].
  intro H. apply andb_true_iff in H. destruct H as [Hc Hws].
  rewrite Hc. now apply IH.
Qed.

Lemma lstrip_pad (ws s : string) : all_space ws = true -> lstrip (ws ++ s) = lstrip s.
Proof.
  induction ws as [|c ws IH]; simpl; [reflexivity|].
  intro H. apply andb_true_iff in H. destruct H as [Hc Hws].
  rewrite Hc. now apply IH.
Qed.

Lemma rstrip_pad (s ws : string) : all_space ws = true -> rstrip (s ++ ws) = rstrip s.
Proof.
  intro H. induction s as [|c s IH]; simpl.
  - now apply rstrip_all_space.
  - now rewrite IH.
Qed.

Lemma strip_pad_right (s ws : string) : all_space ws = true -> strip (s ++ ws) = strip s.
Proof.
  intro H. unfold strip. induction s as [|c s IH]; simpl.
  - now rewrite (lstrip_all_space ws H).
  - destruct (is_space c); [exact IH|].
    change (String c (s ++ ws)) with (String c s ++ ws). now apply rstrip_pad.
Qed.

Lemma strip_pad (ws1 s ws2 : string) :
  all_space ws1 = true -> all_space ws2 = true -> strip (ws1 ++ s ++ ws2) = strip s.
Proof.
  intros H1 H2. unfold strip. rewrite lstrip_pad by assumption.
  now apply strip_pad_right.
Qed.

(** X10: the category of a group is "qq", "gg" or "qg"; it does not
    depend on the case of the letters of the name nor on whitespace around
    it. *)
Theorem infer_type_case_and_space_insensitive (s t ws1 ws2 : string) :
  all_space ws1 = true -> all_space ws2 = true ->
  (infer_type_from_group s = "qq" \/ infer_type_from_group s = "gg" \/
   infer_type_from_group s = "qg") /\
  (lower s = lower t -> infer_type_from_group s = infer_type_from_group t) /\
  infer_type_from_group (ws1 ++ s ++ ws2) = infer_type_from_group s.
Proof.
  intros H1 H2. split; [|split].
  - unfold infer_type_from_group; cbv zeta.
    destruct (startswith _ "rsgtoqq"); [now left|].
    destruct (startswith _ "rsgtogg"); [right; now left|].
    destruct (startswith _ "qstar"); [right; now right | now left].
  - intro Hl.
    assert (Hs : forall u, lower (strip u) = strip (lower u))
      by (intro u; symmetry; apply strip_lower).
    unfold infer_type_from_group; cbv zeta. now rewrite !Hs, Hl.
  - unfold infer_type_from_group; cbv zeta. now rewrite strip_pad.
Qed.

Lemma infer_type_case_and_space_insensitive_witness :
  (infer_type_from_group "RSGToGG_kMpl01" = "qq" \/
   infer_type_from_group "RSGToGG_kMpl01" = "gg" \/
   infer_type_from_group "RSGToGG_kMpl01" = "qg") /\
  (lower "RSGToGG_kMpl01" = lower "rsgtogg_KMPL01" ->
   infer_type_from_group "RSGToGG_kMpl01" = infer_type_from_group "rsgtogg_KMPL01") /\
  infer_type_from_group ("  " ++ "RSGToGG_kMpl01" ++ " ")
  = infer_type_from_group "RSGToGG_kMpl01".
Proof.
  apply (infer_type_case_and_space_insensitive
           "RSGToGG_kMpl01" "rsgtogg_KMPL01" "  " " "); reflexivity.
Defined.

(** *** [parse_group_names] *)

Lemma seen_mem (name : string) (seen : list string) :
  existsb (String.eqb name) seen = true <-> In name seen.
Proof.
  rewrite existsb_exists. split.
  - intros (x & Hx & Heq). apply String.eqb_eq in Heq. now subst.
  - intro H. exists name. split; [assumption | apply String.eqb_refl].
Qed.

Lemma parse_line_cases (raw : string) (names seen : list string) :
  (parse_line raw (names, seen) = (names, seen) /\
   forall n, group_header raw = Some n -> In n seen) \/
  (exists name, group_header raw = Some name /\ ~ In name seen /\
     parse_line raw (names, seen) = (names ++ [name], name :: seen)%list).
Proof.
  unfold parse_line. cbn [fst snd].
  destruct (group_header raw) as [name|]; [|left; split; [reflexivity | discriminate]].
  destruct (existsb (String.eqb name) seen) eqn:Hmem.
  - left. split; [reflexivity|]. intros n [= <-]. now apply seen_mem.
  - right. exists name. repeat split.
    intro H. apply seen_mem in H. congruence.
Qed.

Lemma parse_fold_spec (lines names seen : list string) :
  (forall n, In n seen <-> In n names) -> NoDup names ->
  (forall n, In n (snd (fold_left (fun st raw => parse_line raw st) lines (names, seen)))
             <-> In n (fst (fold_left (fun st raw => parse_line raw st) lines (names, seen))))
  /\ NoDup (fst (fold_left (fun st raw => parse_line raw st) lines (names, seen)))
  /\ (forall n,
        In n (fst (fold_left (fun st raw => parse_line raw st) lines (names, seen))) <->
        In n names \/ exists raw, In raw lines /\ group_header raw = Some n).
Proof.
  revert names seen. induction lines as [|raw lines IH]; intros names seen Hseen Hnd.
  - simpl. split; [exact Hseen|]. split; [exact Hnd|].
    intro n. split; [now left | intros [H|(raw & [] & _)]; exact H].
  - cbn [fold_left].
    destruct (parse_line_cases raw names seen) as [[-> Hold]|(name & Hh & Hnew & ->)].
    + destruct (IH names seen Hseen Hnd) as (H1 & H2 & H3).
      split; [exact H1|]. split; [exact H2|].
      intro n. rewrite H3. split.
      * intros [H|(r & Hr & Hn)]; [now left|]. right. exists r. split; [now right | exact Hn].
      * intros [H|(r & [<-|Hr] & Hn)]; [now left | | right; now exists r].
        left. apply Hseen. now apply Hold.
    + assert (Hnew' : ~ In name names) by (intro H; now apply Hseen in H).
      destruct (IH (names ++ [name])%list (name :: seen)) as (H1 & H2 & H3).
      { intro n. simpl. rewrite in_app_iff, Hseen. simpl. tauto. }
      { apply NoDup_app; [exact Hnd | repeat constructor; intros [] |].
        intros n Hn [<-|[]]. contradiction. }
      split; [exact H1|]. split; [exact H2|].
      intro n. rewrite H3, in_app_iff. simpl. split.
      * intros [[H|[<-|[]]]|(r & Hr & Hn)];
          [now left | right; exists raw; auto | right; exists r; auto].
      * intros [H|(r & [<-|Hr] & Hn)]; [now left; left | | right; now exists r].
        left; right; left. congruence.
Qed.

Lemma contains_drop_last (s : string) (c : ascii) :
  contains_char s c = false -> contains_char (drop_last s) c = false.
Proof.
  induction s as [|a s IH]; simpl; [reflexivity|].
  intro H. apply orb_false_iff in H. destruct H as [Ha Hs].
  destruct s; [reflexivity|]. cbn [contains_char]. rewrite Ha. now apply IH.
Qed.

Lemma contains_lstrip (s : string) (c : ascii) :
  contains_char s c = false -> contains_char (lstrip s) c = false.
Proof.
  induction s as [|a s IH]; simpl; [reflexivity|].
  intro H. destruct (is_space a); [|exact H].
  apply orb_false_iff in H. now apply IH.
Qed.

Lemma contains_rstrip (s : string) (c : ascii) :
  contains_char s c = false -> contains_char (rstrip s) c = false.
Proof.
  induction s as [|a s IH]; simpl; [reflexivity|].
  intro H. apply orb_false_iff in H. destruct H as [Ha Hs].
  specialize (IH Hs). destruct (rstrip s).
  - destruct (is_space a); simpl; [reflexivity | now rewrite Ha].
  - cbn [contains_char] in *. now rewrite Ha.
Qed.

Lemma group_header_name (raw name : string) :
  group_header raw = Some name ->
  name <> "" /\ contains_char name "/" = false.
Proof.
  unfold group_header; cbv zeta.
  destruct ((strip raw =? "") || startswith (strip raw) "#"); [discriminate|].
  destruct (endswith_char (strip raw) ":"); [|discriminate].
  destruct (contains_char (strip raw) "/") eqn:Hslash; [discriminate|]. simpl.
  destruct (String.eqb_spec (strip (drop_last (strip raw))) "") as [|Hne];
    [discriminate|].
  intro H. injection H as <-. split; [exact Hne|].
  unfold strip at 1. apply contains_rstrip, contains_lstrip, contains_drop_last.
  exact Hslash.
Qed.

(** X11: the group names read from the lines of a list file are pairwise
    distinct; a name is returned exactly when some line carries it as a
    header; and no returned name is empty or contains a slash. *)
Theorem parse_group_names_distinct_headers (lines : list string) :
  NoDup (parse_group_names lines) /\
  (forall n, In n (parse_group_names lines) <->
     exists raw, In raw lines /\ group_header raw = Some n) /\
  (forall n, In n (parse_group_names lines) ->
     n <> "" /\ contains_char n "/" = false).
Proof.
  destruct (parse_fold_spec lines [] []) as (_ & Hnd & Hin);
    [intro; reflexivity | constructor |].
  fold (parse_group_names lines) in Hnd, Hin.
  assert (Hiff : forall n, In n (parse_group_names lines) <->
            exists raw, In raw lines /\ group_header raw = Some n).
  { intro n. rewrite Hin. simpl. tauto. }
  split; [exact Hnd|]. split; [exact Hiff|].
  intros n Hn. apply Hiff in Hn. destruct Hn as (raw & _ & Hh).
  now apply (group_header_name raw).
Qed.

(** *** Header lines *)

Lemma lstrip_no_space (s : string) : no_space s = true -> lstrip s = s.
Proof.
  destruct s as [|c s]; simpl; [reflexivity|].
  intro H. apply andb_true_iff in H. destruct H as [Hc _].
  apply negb_true_iff in Hc. now rewrite Hc.
Qed.

Lemma rstrip_no_space (s : string) : no_space s = true -> rstrip s = s.
Proof.
  induction s as [|c s IH]; simpl; [reflexivity|].
  intro H. apply andb_true_iff in H. destruct H as [Hc Hs].
  apply negb_true_iff in Hc. rewrite (IH Hs), Hc. now destruct s.
Qed.

Lemma strip_no_space (s : string) : no_space s = true -> strip s = s.
Proof.
  intro H. unfold strip. rewrite lstrip_no_space by assumption.
  now apply rstrip_no_space.
Qed.

Lemma no_space_colon (s : string) : no_space s = true -> no_space (s ++ ":") = true.
Proof.
  induction s as [|c s IH]; simpl; [reflexivity|].
  intro H. apply andb_true_iff in H. destruct H as [-> Hs]. now apply IH.
Qed.

Lemma endswith_colon (s : string) : endswith_char (s ++ ":") ":" = true.
Proof.
  induction s as [|c s IH]; [reflexivity|].
  simpl. destruct (s ++ ":") eqn:E; [now destruct s | exact IH].
Qed.

Lemma drop_last_colon (s : string) : drop_last (s ++ ":") = s.
Proof.
  induction s as [|c s IH]; [reflexivity|].
  simpl. destruct (s ++ ":") eqn:E; [now destruct s|]. now rewrite IH.
Qed.

Lemma contains_colon (s : string) :
  contains_char s "/" = false -> contains_char (s ++ ":") "/" = false.
Proof.
  induction s as [|c s IH]; simpl; [reflexivity|].
  intro H. apply orb_false_iff in H. destruct H as [-> Hs]. now apply IH.
Qed.

Lemma startswith_hash_append (c : ascii) (s t : string) :
  startswith (String c s ++ t) "#" = startswith (String c s) "#".
Proof.
  assert (He : forall x, prefix "" x = true) by (intro x; now destruct x).
  unfold startswith. cbn [append prefix].
  destruct (ascii_dec "#" c); [now rewrite !He | reflexivity].
Qed.

(** X12: a line made of a name followed by a colon, where the name is not
    empty, holds no whitespace and no slash and does not begin with [#],
    puts that name in the result, wherever the line stands in the file. *)
Theorem parse_group_names_clean_header (lines : list string) (name : string) :
  name <> "" -> no_space name = true ->
  contains_char name "/" = false -> startswith name "#" = false ->
  In (name ++ ":") lines ->
  In name (parse_group_names lines).
Proof.
  intros Hne Hns Hslash Hhash Hin.
  destruct (parse_fold_spec lines [] []) as (_ & _ & Hiff);
    [intro; reflexivity | constructor |].
  fold (parse_group_names lines) in Hiff. apply Hiff. right.
  exists (name ++ ":"). split; [exact Hin|].
  unfold group_header; cbv zeta.
  rewrite (strip_no_space (name ++ ":")) by now apply no_space_colon.
  destruct name as [|c name]; [contradiction|].
  assert (Hstart : startswith (String c name ++ ":") "#" = false).
  { rewrite startswith_hash_append. exact Hhash. }
  rewrite Hstart.
  replace (String c name ++ ":" =? "") with false
    by (symmetry; apply String.eqb_neq; discriminate).
  cbn [orb].
  rewrite (endswith_colon (String c name)), (contains_colon (String c name)) by assumption.
  cbn [negb andb]. rewrite (drop_last_colon (String c name)).
  rewrite strip_no_space by assumption. reflexivity.
Qed.

Lemma parse_group_names_clean_header_witness :
  In "RSGToQQ_kMpl01"
    (parse_group_names ["# groups"; "RSGToQQ_kMpl01:"; "  /store/a.root 1000"]%list).
Proof.
  apply parse_group_names_clean_header; try reflexivity.
  - discriminate.
  - simpl. right; left; reflexivity.
Defined.

(** *** Histogram names *)

Lemma str_of_int_inj (a b : Z) : str_of_int a = str_of_int b -> a = b.
Proof.
  unfold str_of_int. intro H.
  assert (Hnn : forall z, Z.to_int z <> Decimal.Pos Decimal.Nil /\
                          Z.to_int z <> Decimal.Neg Decimal.Nil).
  { intros [|p|p]; simpl; split; try discriminate;
      intro E; injection E as E; now apply DecimalPos.Unsigned.to_uint_nonnil in E. }
  apply (f_equal DecimalString.NilZero.int_of_string) in H.
  rewrite !DecimalString.NilZero.isi in H by apply Hnn.
  injection H as H. now apply DecimalZ.to_int_inj.
Qed.

(** X13: shape histograms have collision-free names: two groups and two
    masses that give the same histogram name have the same category and
    the same mass. *)
Theorem histname_injective (group1 group2 : string) (mass1 mass2 : Z) :
  histname (infer_type_from_group group1) mass1
  = histname (infer_type_from_group group2) mass2 ->
  infer_type_from_group group1 = infer_type_from_group group2 /\ mass1 = mass2.
Proof.
  assert (Hcat : forall g, infer_type_from_group g = "qq" \/
            infer_type_from_group g = "gg" \/ infer_type_from_group g = "qg").
  { intro g. unfold infer_type_from_group; cbv zeta.
    destruct (startswith _ "rsgtoqq"); [now left|].
    destruct (startswith _ "rsgtogg"); [right; now left|].
    destruct (startswith _ "qstar"); [right; now right | now left]. }
  unfold histname.
  destruct (Hcat group1) as [-> | [-> | ->]], (Hcat group2) as [-> | [-> | ->]];
    cbn [append]; intro H; try discriminate;
    injection H as H; apply str_of_int_inj in H; now split.
Qed.

Lemma histname_injective_witness :
  infer_type_from_group "QstarToQG" = infer_type_from_group "qstar_f1p0" /\
  1500 = 1500.
Proof.
  apply (histname_injective "QstarToQG" "qstar_f1p0" 1500 1500). reflexivity.
Defined.
End NamesFacts.

(** ** What the constructor guarantees *)

(** X14: whenever [ShapeStorage.__init__] returns, the storage holds at
    least two shapes, its grid is not empty, and every stored shape is not
    empty, as long as the grid, sums to 1 within 0.01 and is what a lookup
    of its mass returns. *)
Theorem constructed_storage_invariants (st : ShapeStorage) :
  constructed st ->
  (2 <= length (shapes st))%nat /\ binxcenters st <> [] /\
  forall k v, In (k, v) (shapes st) ->
    length v = length (binxcenters st) /\ v <> [] /\
    (Qabs (py_sum v - 1) <= 1 # 100)%Q /\
    dict_get (shapes st) k = mkPy [] (Return v).
Proof.
  intro Hc. destruct (constructed_inv st Hc) as [Hlen Hshape].
  pose proof (constructed_grid_nonempty st Hc) as Hx.
  split; [exact Hlen|]. split; [exact Hx|].
  intros k v Hin. destruct (Hshape k v Hin) as [Hnorm Hl].
  split; [exact Hl|]. split; [|split].
  - intros ->. apply Hx. destruct (binxcenters st); [reflexivity | discriminate].
  - now apply Qnot_lt_le.
  - unfold dict_get. now rewrite (dict_find_In _ _ _ (constructed_wf st Hc) Hin).
Qed.

Lemma constructed_storage_invariants_witness :
  (2 <= length (shapes ex_storage))%nat /\ binxcenters ex_storage <> [] /\
  forall k v, In (k, v) (shapes ex_storage) ->
    length v = length (binxcenters ex_storage) /\ v <> [] /\
    (Qabs (py_sum v - 1) <= 1 # 100)%Q /\
    dict_get (shapes ex_storage) k = mkPy [] (Return v).
Proof.
  apply (constructed_storage_invariants ex_storage). exact ex_storage_constructed.
Defined.
